(** * ADIOS: the Adaptive Deadline I/O Scheduler (adios.c)

    A shallow embedding of the scheduler core: the per-operation-type
    latency model, the deadline-sorted tree of request groups, the
    priority queue, the batch-queue fill pass and the sysfs stores.

    Conventions.
    - [u64], [u32] and [unsigned int] values are integers in [Z]; every C
      operation that can wrap is followed by [wrap64] or [wrap32].
    - A C function that mutates [*model] or [*ad] takes the record and
      returns the updated record.
    - Spin locks are not modelled: every function is run as one atomic
      step, which is what the lock it takes guarantees. *)

From Stdlib Require Import ZArith Lia Bool String.
From stdpp Require Import base tactics option list.

Local Open Scope Z_scope.

(** ** Machine integers *)

Definition wrap64 (x : Z) : Z := x mod 2 ^ 64.
Definition wrap32 (x : Z) : Z := x mod 2 ^ 32.

(** The value of a [u64] bit pattern read as an [s64]. *)
Definition to_s64 (x : Z) : Z := if x <? 2 ^ 63 then x else x - 2 ^ 64.

Definition is_u64 (x : Z) : Prop := 0 <= x < 2 ^ 64.
Definition is_u32 (x : Z) : Prop := 0 <= x < 2 ^ 32.

(** [DIV_ROUND_UP_ULL(ll, d)] of linux/math.h: [(ll + d - 1) / d] computed
    in [unsigned long long]. *)
Definition DIV_ROUND_UP_ULL (ll d : Z) : Z := wrap64 (ll + d - 1) / d.

(** [div_u64(u64 dividend, u32 divisor)] of linux/math64.h.  The divisor is
    passed as a [u32]; a zero divisor traps, which is [None] here. *)
Definition div_u64 (dividend divisor : Z) : option Z :=
  let d := wrap32 divisor in
  if d =? 0 then None else Some (dividend / d).

(** The mathematical ceiling of [a / b], independent of how the code
    computes it. *)
Definition ceil_div (a b : Z) : Z := - ((- a) / b).

(** ** Operation types *)

Inductive adios_op_type : Type :=
  | ADIOS_READ
  | ADIOS_WRITE
  | ADIOS_DISCARD
  | ADIOS_OTHER.

Global Instance adios_op_type_eq_dec : EqDecision adios_op_type.
Proof. solve_decision. Defined.

(** An array indexed by [enum adios_op_type] ([T x[ADIOS_OPTYPES]]). *)
Record optypes (A : Type) : Type := Optypes {
  at_read : A;
  at_write : A;
  at_discard : A;
  at_other : A;
}.
Arguments Optypes {A} _ _ _ _.
Arguments at_read {A} _.
Arguments at_write {A} _.
Arguments at_discard {A} _.
Arguments at_other {A} _.

Definition oget {A} (o : adios_op_type) (v : optypes A) : A :=
  match o with
  | ADIOS_READ => at_read v
  | ADIOS_WRITE => at_write v
  | ADIOS_DISCARD => at_discard v
  | ADIOS_OTHER => at_other v
  end.

Definition oset {A} (o : adios_op_type) (x : A) (v : optypes A) : optypes A :=
  match o with
  | ADIOS_READ => Optypes x (at_write v) (at_discard v) (at_other v)
  | ADIOS_WRITE => Optypes (at_read v) x (at_discard v) (at_other v)
  | ADIOS_DISCARD => Optypes (at_read v) (at_write v) x (at_other v)
  | ADIOS_OTHER => Optypes (at_read v) (at_write v) (at_discard v) x
  end.

Definition oconst {A} (x : A) : optypes A := Optypes x x x x.

(** A loop [for (i = 0; i < ADIOS_OPTYPES; i++)] that updates every slot. *)
Definition optypes_map {A B} (f : A -> B) (v : optypes A) : optypes B :=
  Optypes (f (at_read v)) (f (at_write v)) (f (at_discard v)) (f (at_other v)).

(** ** Thresholds for latency model control *)

Definition LM_BLOCK_SIZE_THRESHOLD : Z := 4096.
Definition LM_SAMPLES_THRESHOLD : Z := 1024.
Definition LM_INTERVAL_THRESHOLD : Z := 1500.
Definition LM_OUTLIER_PERCENTILE : Z := 99.
Definition LM_LAT_BUCKET_COUNT : nat := 64.
Definition LM_SHRINK_AT_MREQ : Z := 10.
Definition LM_SHRINK_AT_GBYTES : Z := 100.
Definition LM_SHRINK_RESIST : Z := 2.

(** ** The latency model *)

Record latency_bucket : Type := Bucket {
  count : Z;
  sum_latency : Z;
  sum_block_size : Z;
}.

Definition zero_bucket : latency_bucket := Bucket 0 0 0.

(** What [memset(bucket, 0, sizeof(bucket[0]) * LM_LAT_BUCKET_COUNT)] leaves. *)
Definition zero_buckets : list latency_bucket :=
  replicate LM_LAT_BUCKET_COUNT zero_bucket.

Record latency_model : Type := Model {
  base : Z;
  slope : Z;
  small_sum_delay : Z;
  small_count : Z;
  large_sum_delay : Z;
  large_sum_bsize : Z;
  last_update_jiffies : Z;
  small_bucket : list latency_bucket;
  large_bucket : list latency_bucket;
}.

(** The model as [kzalloc] and [adios_init_sched] leave it. *)
Definition init_model (jiffies : Z) : latency_model :=
  Model 0 0 0 0 0 0 jiffies zero_buckets zero_buckets.

Definition set_base (x : Z) (m : latency_model) : latency_model :=
  Model x (slope m) (small_sum_delay m) (small_count m) (large_sum_delay m)
    (large_sum_bsize m) (last_update_jiffies m) (small_bucket m) (large_bucket m).

Definition set_slope (x : Z) (m : latency_model) : latency_model :=
  Model (base m) x (small_sum_delay m) (small_count m) (large_sum_delay m)
    (large_sum_bsize m) (last_update_jiffies m) (small_bucket m) (large_bucket m).

Definition set_last_update_jiffies (x : Z) (m : latency_model) : latency_model :=
  Model (base m) (slope m) (small_sum_delay m) (small_count m) (large_sum_delay m)
    (large_sum_bsize m) x (small_bucket m) (large_bucket m).

Definition set_small_bucket (b : list latency_bucket) (m : latency_model)
  : latency_model :=
  Model (base m) (slope m) (small_sum_delay m) (small_count m) (large_sum_delay m)
    (large_sum_bsize m) (last_update_jiffies m) b (large_bucket m).

Definition set_large_bucket (b : list latency_bucket) (m : latency_model)
  : latency_model :=
  Model (base m) (slope m) (small_sum_delay m) (small_count m) (large_sum_delay m)
    (large_sum_bsize m) (last_update_jiffies m) (small_bucket m) b.

(** Every integer field holds a value of its C type. *)
Record model_ok (m : latency_model) : Prop := {
  ok_base : is_u64 (base m);
  ok_slope : is_u64 (slope m);
  ok_small_sum_delay : is_u64 (small_sum_delay m);
  ok_small_count : is_u64 (small_count m);
  ok_large_sum_delay : is_u64 (large_sum_delay m);
  ok_large_sum_bsize : is_u64 (large_sum_bsize m);
}.

(** *** Counting histogram entries

    [lm_count_small_entries] and [lm_count_large_entries]: the sum of the
    bucket counts, accumulated in a [u32]. *)
Definition lm_count_entries (bs : list latency_bucket) : Z :=
  fold_left (fun total b => wrap32 (total + count b)) bs 0.

Definition lm_count_small_entries (m : latency_model) : Z :=
  lm_count_entries (small_bucket m).

Definition lm_count_large_entries (m : latency_model) : Z :=
  lm_count_entries (large_bucket m).

(** *** The percentile trim shared by both histograms *)

(** [threshold_count = (total_count * outlier_percentile) / 100], in [u32]. *)
Definition lm_threshold_count (total_count : Z) (count_all : bool) : Z :=
  let outlier_percentile := if count_all then 100 else LM_OUTLIER_PERCENTILE in
  wrap32 (total_count * outlier_percentile) / 100.

(** The first loop: walk the buckets from index [i], adding counts to
    [cumulative_count] (a [u32]) until it reaches [threshold_count].
    Returns [(cumulative_count, outlier_threshold_bucket)]; when the loop
    runs off the array [outlier_threshold_bucket] keeps its initial 0. *)
Fixpoint lm_find_threshold (bs : list latency_bucket) (i : nat)
    (cumulative_count threshold_count : Z) : Z * nat :=
  match bs with
  | [] => (cumulative_count, 0%nat)
  | b :: bs' =>
      let cumulative_count := wrap32 (cumulative_count + count b) in
      if threshold_count <=? cumulative_count
      then (cumulative_count, i)
      else lm_find_threshold bs' (S i) cumulative_count threshold_count
  end.

(** [remaining_count = threshold_count - (cumulative_count - bucket->count)],
    evaluated in [u64] because [bucket->count] is one. *)
Definition lm_remaining_count (threshold_count cumulative_count : Z)
    (bucket : latency_bucket) : Z :=
  wrap64 (threshold_count - wrap64 (cumulative_count - count bucket)).

(** The proportional share [(x * remaining_count) / bucket->count]. *)
Definition lm_share (x remaining_count : Z) (bucket : latency_bucket) : Z :=
  wrap64 (x * remaining_count) / count bucket.

(** The second loop of [lm_update_small_buckets]: whole buckets below the
    threshold bucket, a proportional share of the threshold bucket.
    Returns [(sum_latency, sum_count)]. *)
Definition lm_small_trim (bs : list latency_bucket) (threshold_count : Z)
    : Z * Z :=
  let '(cumulative_count, outlier_threshold_bucket) :=
    lm_find_threshold bs 0 0 threshold_count in
  let below := take outlier_threshold_bucket bs in
  let sum_lat := fold_left (fun s b => wrap64 (s + sum_latency b)) below 0 in
  let sum_cnt := fold_left (fun s b => wrap64 (s + count b)) below 0 in
  match bs !! outlier_threshold_bucket with
  | Some bucket =>
      let remaining_count :=
        lm_remaining_count threshold_count cumulative_count bucket in
      if 0 <? count bucket
      then (wrap64 (sum_lat + lm_share (sum_latency bucket) remaining_count bucket),
            wrap64 (sum_cnt + remaining_count))
      else (sum_lat, sum_cnt)
  | None => (sum_lat, sum_cnt)
  end.

(** The second loop of [lm_update_large_buckets].  [sum_latency] is an
    [s64] there; it is kept as its 64-bit pattern, on which [+=] with a
    [u64] operand is [u64] addition.  Returns [(sum_latency, sum_block_size)]. *)
Definition lm_large_trim (bs : list latency_bucket) (threshold_count : Z)
    : Z * Z :=
  let '(cumulative_count, outlier_threshold_bucket) :=
    lm_find_threshold bs 0 0 threshold_count in
  let below := take outlier_threshold_bucket bs in
  let sum_lat := fold_left (fun s b => wrap64 (s + sum_latency b)) below 0 in
  let sum_bsz := fold_left (fun s b => wrap64 (s + sum_block_size b)) below 0 in
  match bs !! outlier_threshold_bucket with
  | Some bucket =>
      let remaining_count :=
        lm_remaining_count threshold_count cumulative_count bucket in
      if 0 <? count bucket
      then (wrap64 (sum_lat + lm_share (sum_latency bucket) remaining_count bucket),
            wrap64 (sum_bsz + lm_share (sum_block_size bucket) remaining_count bucket))
      else (sum_lat, sum_bsz)
  | None => (sum_lat, sum_bsz)
  end.

(** *** Shrinking the running accumulators

    [x -= x >> reduction] with [reduction = LM_SHRINK_RESIST]. *)
Definition lm_shrink (x : Z) : Z := wrap64 (x - Z.shiftr x LM_SHRINK_RESIST).

(** The guard [if (model->small_count >= 1000000ULL * LM_SHRINK_AT_MREQ)]
    with the inner [if (model->small_count >> reduction)]. *)
Definition lm_small_shrinks (m : latency_model) : bool :=
  (1000000 * LM_SHRINK_AT_MREQ <=? small_count m)
  && negb (Z.shiftr (small_count m) LM_SHRINK_RESIST =? 0).

(** The guard [if (model->large_sum_bsize >= 0x40000000ULL * LM_SHRINK_AT_GBYTES)]
    with the inner [if (model->large_sum_bsize >> reduction)]. *)
Definition lm_large_shrinks (m : latency_model) : bool :=
  (1073741824 * LM_SHRINK_AT_GBYTES <=? large_sum_bsize m)
  && negb (Z.shiftr (large_sum_bsize m) LM_SHRINK_RESIST =? 0).

(** *** [lm_update_small_buckets]

    The C function always returns [true]; only the model is returned here. *)
Definition lm_update_small_buckets (m : latency_model) (total_count : Z)
    (count_all : bool) : latency_model :=
  let threshold_count := lm_threshold_count total_count count_all in
  let '(sum_lat, sum_cnt) := lm_small_trim (small_bucket m) threshold_count in
  let shrink := lm_small_shrinks m in
  let ssd := if shrink then lm_shrink (small_sum_delay m) else small_sum_delay m in
  let sc := if shrink then lm_shrink (small_count m) else small_count m in
  Model (base m) (slope m)
    (wrap64 (ssd + sum_lat)) (wrap64 (sc + sum_cnt))
    (large_sum_delay m) (large_sum_bsize m) (last_update_jiffies m)
    zero_buckets (large_bucket m).

(** The intercept correction of [lm_update_large_buckets]:
    [intercept = model->base * threshold_count;
     if (sum_latency > intercept) sum_latency -= intercept;]
    The comparison of the [s64] with the [u64] is unsigned. *)
Definition lm_intercept (m : latency_model) (threshold_count : Z) : Z :=
  wrap64 (base m * threshold_count).

Definition lm_correct_intercept (sum_lat intercept : Z) : Z :=
  if intercept <? sum_lat then wrap64 (sum_lat - intercept) else sum_lat.

(** *** [lm_update_large_buckets] *)
Definition lm_update_large_buckets (m : latency_model) (total_count : Z)
    (count_all : bool) : latency_model :=
  let threshold_count := lm_threshold_count total_count count_all in
  let '(sum_lat, sum_bsz) := lm_large_trim (large_bucket m) threshold_count in
  let shrink := lm_large_shrinks m in
  let lsd := if shrink then lm_shrink (large_sum_delay m) else large_sum_delay m in
  let lsb := if shrink then lm_shrink (large_sum_bsize m) else large_sum_bsize m in
  let sum_lat := lm_correct_intercept sum_lat (lm_intercept m threshold_count) in
  Model (base m) (slope m)
    (small_sum_delay m) (small_count m)
    (wrap64 (lsd + sum_lat)) (wrap64 (lsb + sum_bsz)) (last_update_jiffies m)
    (small_bucket m) zero_buckets.

(** *** [latency_model_update]

    [now] is the value of [jiffies] and [interval] the value of
    [msecs_to_jiffies(LM_INTERVAL_THRESHOLD)]; both depend on the kernel
    configuration and are inputs.  The result is [None] when one of the two
    [div_u64] calls is given a divisor whose low 32 bits are zero. *)
Definition latency_model_update (now interval : Z) (m : latency_model)
    : option latency_model :=
  let time_elapsed :=
    (base m =? 0) || (wrap64 (last_update_jiffies m + interval) <=? now) in
  let small_cnt := lm_count_small_entries m in
  let large_cnt := lm_count_large_entries m in
  let small_processed :=
    negb (small_cnt =? 0)
    && (time_elapsed || (LM_SAMPLES_THRESHOLD <=? small_cnt) || (base m =? 0)) in
  let m1 :=
    if small_processed
    then lm_update_small_buckets m small_cnt (base m =? 0) else m in
  let large_processed :=
    negb (large_cnt =? 0)
    && (time_elapsed || (LM_SAMPLES_THRESHOLD <=? large_cnt) || (slope m1 =? 0)) in
  let m2 :=
    if large_processed
    then lm_update_large_buckets m1 large_cnt (slope m1 =? 0) else m1 in
  m3 ← (if small_processed && negb (small_count m2 =? 0)
        then b ← div_u64 (small_sum_delay m2) (small_count m2); Some (set_base b m2)
        else Some m2);
  m4 ← (if large_processed && negb (large_sum_bsize m3 =? 0)
        then s ← div_u64 (large_sum_delay m3)
                         (DIV_ROUND_UP_ULL (large_sum_bsize m3) 1024);
             Some (set_slope s m3)
        else Some m3);
  Some (if time_elapsed then set_last_update_jiffies now m4 else m4).

(** *** [lm_input_bucket_index]

    The quotient is computed in [u64] and stored in an [unsigned int]. *)
Definition lm_input_bucket_index (measured predicted : Z) : Z :=
  if measured <? wrap64 (predicted * 2)
  then wrap32 (wrap64 (measured * 20) / predicted)
  else if measured <? wrap64 (predicted * 5)
  then wrap32 (wrap64 (wrap64 (measured * 10) / predicted + 20))
  else wrap32 (wrap64 (wrap64 (measured * 3) / predicted + 40)).

(** The clamp [if (bucket_index >= LM_LAT_BUCKET_COUNT)
    bucket_index = LM_LAT_BUCKET_COUNT - 1]. *)
Definition lm_clamp_index (bucket_index : Z) : nat :=
  if Z.of_nat LM_LAT_BUCKET_COUNT <=? bucket_index
  then (LM_LAT_BUCKET_COUNT - 1)%nat
  else Z.to_nat bucket_index.

Definition bucket_add_small (latency : Z) (b : latency_bucket) : latency_bucket :=
  Bucket (wrap64 (count b + 1)) (wrap64 (sum_latency b + latency))
    (sum_block_size b).

Definition bucket_add_large (latency block_size : Z) (b : latency_bucket)
    : latency_bucket :=
  Bucket (wrap64 (count b + 1)) (wrap64 (sum_latency b + latency))
    (wrap64 (sum_block_size b + block_size)).

(** *** [latency_model_input] *)
Definition latency_model_input (now interval : Z) (m : latency_model)
    (block_size latency pred_lat : Z) : option latency_model :=
  if block_size <=? LM_BLOCK_SIZE_THRESHOLD then
    let bucket_index :=
      lm_clamp_index
        (lm_input_bucket_index latency (if base m =? 0 then 1 else base m)) in
    let m' :=
      set_small_bucket
        (alter (bucket_add_small latency) bucket_index (small_bucket m)) m in
    if base m' =? 0 then latency_model_update now interval m' else Some m'
  else
    if (base m =? 0) || (pred_lat =? 0) then Some m
    else
      let bucket_index :=
        lm_clamp_index (lm_input_bucket_index latency pred_lat) in
      Some (set_large_bucket
              (alter (bucket_add_large latency block_size) bucket_index
                     (large_bucket m)) m).

(** *** [latency_model_predict] *)
Definition latency_model_predict (m : latency_model) (block_size : Z) : Z :=
  let result := base m in
  if LM_BLOCK_SIZE_THRESHOLD <? block_size
  then wrap64 (result +
         wrap64 (slope m *
           DIV_ROUND_UP_ULL (wrap64 (block_size - LM_BLOCK_SIZE_THRESHOLD)) 1024))
  else result.

(** ** Requests

    The fields of the host's [struct request] that the scheduler reads,
    together with the scheduler-private record that [elv.priv[0]] points to.
    [rq_id] stands for the address of the request. *)

(** [struct adios_rq_data] without the back pointer [rq] (the record is held
    inside its request here).  [rd_dl_group] is the pointer to the list head
    of the group the request is linked in, represented by that group's
    deadline; [None] is [NULL]. *)
Record adios_rq_data : Type := RqData {
  rd_deadline : Z;
  rd_pred_lat : Z;
  rd_block_size : Z;
  rd_dl_group : option Z;
}.

(** What [kmem_cache_zalloc] returns in [adios_prepare_request]. *)
Definition zero_rq_data : adios_rq_data := RqData 0 0 0 None.

Record request : Type := Request {
  rq_id : nat;
  cmd_flags : Z;
  start_time_ns : Z;
  io_start_time_ns : Z;
  blk_rq_bytes : Z;
  elv_priv : option adios_rq_data;
}.

Definition set_elv_priv (p : option adios_rq_data) (rq : request) : request :=
  Request (rq_id rq) (cmd_flags rq) (start_time_ns rq) (io_start_time_ns rq)
    (blk_rq_bytes rq) p.

(** [REQ_OP_MASK] and the operation codes of linux/blk_types.h. *)
Definition REQ_OP_MASK : Z := 255.
Definition REQ_OP_READ : Z := 0.
Definition REQ_OP_WRITE : Z := 1.
Definition REQ_OP_DISCARD : Z := 3.

(** [adios_optype] *)
Definition adios_optype (rq : request) : adios_op_type :=
  let op := Z.land (cmd_flags rq) REQ_OP_MASK in
  if op =? REQ_OP_READ then ADIOS_READ
  else if op =? REQ_OP_WRITE then ADIOS_WRITE
  else if op =? REQ_OP_DISCARD then ADIOS_DISCARD
  else ADIOS_OTHER.

(** [get_rq_data] *)
Definition get_rq_data (rq : request) : option adios_rq_data := elv_priv rq.

(** [adios_prepare_request]; [alloc_ok] tells whether the pool had memory. *)
Definition adios_prepare_request (alloc_ok : bool) (rq : request) : request :=
  set_elv_priv (if alloc_ok then Some zero_rq_data else None) rq.

(** ** Scheduler data *)

(** [struct dl_group]: the requests that share one deadline, in the order
    [list_add_tail] linked them. *)
Record dl_group : Type := DlGroup {
  deadline : Z;
  rqs : list request;
}.

(** An array indexed by batch-queue page ([T x[ADIOS_BQ_PAGES]]). *)
Definition ADIOS_BQ_PAGES : Z := 2.

Definition pages (A : Type) : Type := (A * A)%type.

Definition pget {A} (page : Z) (v : pages A) : A :=
  if page =? 0 then fst v else snd v.

Definition pset {A} (page : Z) (x : A) (v : pages A) : pages A :=
  if page =? 0 then (x, snd v) else (fst v, x).

(** [struct adios_data].  The red-black tree [dl_tree] is represented by the
    in-order sequence of its groups, leftmost first: rotations and
    recolouring do not change that sequence, and the cached leftmost node is
    its head.  [lat_model] is the array [latency_model[ADIOS_OPTYPES]]. *)
Record adios_data : Type := AdiosData {
  prio_queue : list request;
  dl_tree : list dl_group;
  bq_page : Z;
  more_bq_ready : bool;
  batch_queue : pages (optypes (list request));
  batch_count : pages (optypes Z);
  total_pred_lat : Z;
  lat_model : optypes latency_model;
  batch_actual_max_size : optypes Z;
  batch_actual_max_total : Z;
  latency_target : optypes Z;
  batch_limit : optypes Z;
}.

Definition set_prio_queue (q : list request) (ad : adios_data) : adios_data :=
  AdiosData q (dl_tree ad) (bq_page ad) (more_bq_ready ad) (batch_queue ad)
    (batch_count ad) (total_pred_lat ad) (lat_model ad)
    (batch_actual_max_size ad) (batch_actual_max_total ad) (latency_target ad)
    (batch_limit ad).

Definition set_dl_tree (t : list dl_group) (ad : adios_data) : adios_data :=
  AdiosData (prio_queue ad) t (bq_page ad) (more_bq_ready ad) (batch_queue ad)
    (batch_count ad) (total_pred_lat ad) (lat_model ad)
    (batch_actual_max_size ad) (batch_actual_max_total ad) (latency_target ad)
    (batch_limit ad).

Definition set_batch_count (c : pages (optypes Z)) (ad : adios_data) : adios_data :=
  AdiosData (prio_queue ad) (dl_tree ad) (bq_page ad) (more_bq_ready ad)
    (batch_queue ad) c (total_pred_lat ad) (lat_model ad)
    (batch_actual_max_size ad) (batch_actual_max_total ad) (latency_target ad)
    (batch_limit ad).

Definition set_lat_model (m : optypes latency_model) (ad : adios_data)
    : adios_data :=
  AdiosData (prio_queue ad) (dl_tree ad) (bq_page ad) (more_bq_ready ad)
    (batch_queue ad) (batch_count ad) (total_pred_lat ad) m
    (batch_actual_max_size ad) (batch_actual_max_total ad) (latency_target ad)
    (batch_limit ad).

Definition set_total_pred_lat (x : Z) (ad : adios_data) : adios_data :=
  AdiosData (prio_queue ad) (dl_tree ad) (bq_page ad) (more_bq_ready ad)
    (batch_queue ad) (batch_count ad) x (lat_model ad)
    (batch_actual_max_size ad) (batch_actual_max_total ad) (latency_target ad)
    (batch_limit ad).

(** The module-level tunables [global_latency_window] and
    [bq_refill_below_ratio]. *)
Record adios_globals : Type := Globals {
  global_latency_window : Z;
  bq_refill_below_ratio : Z;
}.

Definition default_globals : adios_globals := Globals 16000000 15.

Definition NSEC_PER_MSEC : Z := 1000000.

Definition default_latency_target : optypes Z :=
  Optypes (2 * NSEC_PER_MSEC) (750 * NSEC_PER_MSEC) (5000 * NSEC_PER_MSEC) 0.

Definition default_batch_limit : optypes Z := Optypes 16 8 1 1.

(** The scheduler data as [adios_init_sched] leaves it. *)
Definition init_adios_data (jiffies : Z) : adios_data :=
  AdiosData [] [] 0 false
    (oconst [], oconst []) (oconst 0, oconst 0) 0
    (oconst (init_model jiffies)) (oconst 0) 0
    default_latency_target default_batch_limit.

(** ** The deadline tree *)

(** The deadline [add_to_dl_tree] computes:
    [rq->start_time_ns + ad->latency_target[optype] + rd->pred_lat]. *)
Definition rq_pred_lat (ad : adios_data) (rq : request) : Z :=
  latency_model_predict (oget (adios_optype rq) (lat_model ad)) (blk_rq_bytes rq).

Definition rq_deadline (ad : adios_data) (rq : request) : Z :=
  wrap64 (wrap64 (start_time_ns rq + oget (adios_optype rq) (latency_target ad))
          + rq_pred_lat ad rq).

(** The descent of [add_to_dl_tree] over the groups in order, followed by
    the linking of the request.  At each group the code takes
    [s64 diff = rd->deadline - dl_group->deadline]: a negative [diff] puts
    the request to the left of the group, a positive one sends the search on
    to the right, and zero is the [found] label.  Where the descent ends
    without a match a new group is allocated and linked in; [alloc_ok] is
    whether [kmem_cache_zalloc] succeeds, and [None] is the early [return]
    on its failure.  In both cases [list_add_tail] appends the request. *)
Fixpoint dl_link (alloc_ok : bool) (t : list dl_group) (d : Z) (rq : request)
    : option (list dl_group) :=
  match t with
  | [] => if alloc_ok then Some [DlGroup d [rq]] else None
  | g :: t' =>
      let diff := to_s64 (wrap64 (d - deadline g)) in
      if diff <? 0 then
        if alloc_ok then Some (DlGroup d [rq] :: g :: t') else None
      else if 0 <? diff then
        t'' ← dl_link alloc_ok t' d rq; Some (g :: t'')
      else
        Some (DlGroup (deadline g) (rqs g ++ [rq]) :: t')
  end.

(** [add_to_dl_tree].  The outer [None] is the fault of dereferencing a
    [NULL] [get_rq_data(rq)].  When the group allocation fails the function
    returns after having written the three computed fields of [rd], leaving
    the tree alone; the request is then not linked anywhere and the second
    component is the request as the caller still holds it.  Otherwise the
    second component is the request as linked. *)
Definition add_to_dl_tree (alloc_ok : bool) (ad : adios_data) (rq : request)
    : option (adios_data * request) :=
  rd ← get_rq_data rq;
  let block_size := blk_rq_bytes rq in
  let pred := rq_pred_lat ad rq in
  let d := rq_deadline ad rq in
  let unlinked := set_elv_priv (Some (RqData d pred block_size (rd_dl_group rd))) rq in
  let linked := set_elv_priv (Some (RqData d pred block_size (Some d))) rq in
  match dl_link alloc_ok (dl_tree ad) d linked with
  | Some t => Some (set_dl_tree t ad, linked)
  | None => Some (ad, unlinked)
  end.

(** [list_del_init(&rd->dl_node)]: unlink the request from the list. *)
Fixpoint list_del (id : nat) (l : list request) : list request :=
  match l with
  | [] => []
  | r :: l' => if Nat.eqb (rq_id r) id then l' else r :: list_del id l'
  end.

(** The group [container_of(rd->dl_group, struct dl_group, rqs)] loses the
    request; if its list becomes empty it is erased from the tree. *)
Fixpoint dl_unlink (t : list dl_group) (d : Z) (id : nat) : list dl_group :=
  match t with
  | [] => []
  | g :: t' =>
      if deadline g =? d then
        match list_del id (rqs g) with
        | [] => t'
        | l => DlGroup (deadline g) l :: t'
        end
      else g :: dl_unlink t' d id
  end.

(** [del_from_dl_tree].  [None] is the fault of a [NULL] [get_rq_data(rq)]
    or of a [NULL] [rd->dl_group]. *)
Definition del_from_dl_tree (ad : adios_data) (rq : request)
    : option (adios_data * request) :=
  rd ← get_rq_data rq;
  d ← rd_dl_group rd;
  let rq' :=
    set_elv_priv
      (Some (RqData (rd_deadline rd) (rd_pred_lat rd) (rd_block_size rd) None)) rq in
  Some (set_dl_tree (dl_unlink (dl_tree ad) d (rq_id rq)) ad, rq').

(** [list_del_init(&rq->queuelist)] for a request that is not linked in the
    tree: it is taken off the priority queue or the batch queue it is on. *)
Definition queuelist_del (id : nat) (ad : adios_data) : adios_data :=
  AdiosData (list_del id (prio_queue ad)) (dl_tree ad) (bq_page ad)
    (more_bq_ready ad)
    (optypes_map (list_del id) (fst (batch_queue ad)),
     optypes_map (list_del id) (snd (batch_queue ad)))
    (batch_count ad) (total_pred_lat ad) (lat_model ad)
    (batch_actual_max_size ad) (batch_actual_max_total ad) (latency_target ad)
    (batch_limit ad).

(** [remove_request].  A request that is linked in the tree has an empty
    [queuelist] ([adios_insert_requests] unlinks it before [insert_request],
    and only [fill_batch_queues] links it again, after this call), so for it
    [list_del_init(&rq->queuelist)] does nothing; otherwise that call is
    [queuelist_del].  The merge hash and [q->last_merge] belong to the host
    and are not part of [adios_data]. *)
Definition remove_request (ad : adios_data) (rq : request)
    : option (adios_data * request) :=
  rd ← get_rq_data rq;
  match rd_dl_group rd with
  | Some _ => del_from_dl_tree ad rq
  | None => Some (queuelist_del (rq_id rq) ad, rq)
  end.

(** [adios_request_merged] for [type == ELEVATOR_FRONT_MERGE]: the request
    is taken out and put back under its recomputed deadline. *)
Definition adios_request_front_merged (alloc_ok : bool) (ad : adios_data)
    (req : request) : option (adios_data * request) :=
  '(ad1, req1) ← del_from_dl_tree ad req;
  add_to_dl_tree alloc_ok ad1 req1.

(** [get_ealiest_request]: the first request of the leftmost group. *)
Definition get_ealiest_request (ad : adios_data) : option request :=
  match dl_tree ad with
  | [] => None
  | g :: _ => head (rqs g)
  end.

(** The request with address [id] as the tree holds it. *)
Definition dl_lookup (ad : adios_data) (id : nat) : option request :=
  find (fun r => Nat.eqb (rq_id r) id) (concat (map rqs (dl_tree ad))).

(** The number of requests linked in the tree. *)
Definition dl_tree_size (t : list dl_group) : nat :=
  length (concat (map rqs t)).

(** ** The priority queue and request insertion *)

(** [BLK_MQ_INSERT_AT_HEAD] of blk-mq.h is bit 0 of [blk_insert_t]. *)
Definition BLK_MQ_INSERT_AT_HEAD : Z := 1.

(** What the host decides for one request during [insert_request]:
    whether [blk_mq_sched_try_insert_merge] merged it away and whether the
    group pool can serve an allocation. *)
Record insert_env : Type := InsertEnv {
  try_insert_merge : bool;
  group_alloc_ok : bool;
}.

(** [insert_request].  [list_add] links the request right after the list
    head, that is at the front of [prio_queue]. *)
Definition insert_request (ad : adios_data) (rq : request) (insert_flags : Z)
    (env : insert_env) : option adios_data :=
  if negb (Z.land insert_flags BLK_MQ_INSERT_AT_HEAD =? 0) then
    Some (set_prio_queue (rq :: prio_queue ad) ad)
  else if try_insert_merge env then Some ad
  else '(ad', _) ← add_to_dl_tree (group_alloc_ok env) ad rq; Some ad'.

(** [adios_insert_requests]: the requests of [list] are inserted from its
    head on, all with the same flags. *)
Fixpoint adios_insert_requests (ad : adios_data)
    (list : list (request * insert_env)) (insert_flags : Z)
    : option adios_data :=
  match list with
  | [] => Some ad
  | (rq, env) :: list' =>
      ad' ← insert_request ad rq insert_flags env;
      adios_insert_requests ad' list' insert_flags
  end.

(** [dispatch_from_pq]: [list_first_entry] of a non-empty [prio_queue]. *)
Definition dispatch_from_pq (ad : adios_data) : option request * adios_data :=
  match prio_queue ad with
  | [] => (None, ad)
  | rq :: q => (Some rq, set_prio_queue q ad)
  end.

(** [n] successive calls of [dispatch_from_pq]; the requests returned, in
    the order of the calls, and the final state. *)
Fixpoint pq_pops (n : nat) (ad : adios_data) : list request * adios_data :=
  match n with
  | O => ([], ad)
  | S n' =>
      match dispatch_from_pq ad with
      | (Some rq, ad') => let '(l, ad'') := pq_pops n' ad' in (rq :: l, ad'')
      | (None, ad') => pq_pops n' ad'
      end
  end.

(** ** The batch queues *)

Definition set_batch_queue (q : pages (optypes (list request))) (ad : adios_data)
    : adios_data :=
  AdiosData (prio_queue ad) (dl_tree ad) (bq_page ad) (more_bq_ready ad) q
    (batch_count ad) (total_pred_lat ad) (lat_model ad)
    (batch_actual_max_size ad) (batch_actual_max_total ad) (latency_target ad)
    (batch_limit ad).

Definition set_more_bq_ready (b : bool) (ad : adios_data) : adios_data :=
  AdiosData (prio_queue ad) (dl_tree ad) (bq_page ad) b (batch_queue ad)
    (batch_count ad) (total_pred_lat ad) (lat_model ad)
    (batch_actual_max_size ad) (batch_actual_max_total ad) (latency_target ad)
    (batch_limit ad).

Definition set_batch_actual_max (s : optypes Z) (t : Z) (ad : adios_data)
    : adios_data :=
  AdiosData (prio_queue ad) (dl_tree ad) (bq_page ad) (more_bq_ready ad)
    (batch_queue ad) (batch_count ad) (total_pred_lat ad) (lat_model ad)
    s t (latency_target ad) (batch_limit ad).

(** [reset_batch_counts] *)
Definition reset_batch_counts (ad : adios_data) (page : Z) : adios_data :=
  set_batch_count (pset page (oconst 0) (batch_count ad)) ad.

(** The page [fill_batch_queues] fills: [(ad->bq_page + 1) % ADIOS_BQ_PAGES]. *)
Definition fill_page (ad : adios_data) : Z :=
  Z.rem (bq_page ad + 1) ADIOS_BQ_PAGES.

(** The variables of the loop of [fill_batch_queues]. *)
Record fill_state : Type := FillState {
  fs_ad : adios_data;
  fs_current_lat : Z;
  fs_count : Z;
  fs_optype_count : optypes Z;
}.

(** What one turn of the [while (true)] loop does: leave the loop, fault on
    a [NULL] pointer, or stage one request and go round again. *)
Inductive fill_outcome : Type :=
  | FillStop (st : fill_state)
  | FillFault
  | FillStaged (rq : request) (st : fill_state).

(** The test that breaks out of the loop once [count] is non-zero. *)
Definition fill_breaks (glw : Z) (page : Z) (ad : adios_data)
    (optype : adios_op_type) (current_lat : Z) : bool :=
  (base (oget optype (lat_model ad)) =? 0)
  || (oget optype (batch_limit ad) <=? oget optype (pget page (batch_count ad)))
  || (glw <? current_lat).

(** The body of the loop.  [glw] is [global_latency_window]. *)
Definition fill_iter (glw : Z) (page : Z) (st : fill_state) : fill_outcome :=
  let ad := fs_ad st in
  match get_ealiest_request ad with
  | None => FillStop st
  | Some rq =>
      match get_rq_data rq with
      | None => FillFault
      | Some rd =>
          let optype := adios_optype rq in
          let current_lat := wrap64 (fs_current_lat st + rd_pred_lat rd) in
          if negb (fs_count st =? 0) && fill_breaks glw page ad optype current_lat
          then FillStop (FillState ad current_lat (fs_count st) (fs_optype_count st))
          else
            match remove_request ad rq with
            | None => FillFault
            | Some (ad1, rq1) =>
                let q := pget page (batch_queue ad1) in
                let c := pget page (batch_count ad1) in
                let ad2 :=
                  set_batch_queue
                    (pset page (oset optype (oget optype q ++ [rq1]) q)
                          (batch_queue ad1)) ad1 in
                let ad3 :=
                  set_batch_count
                    (pset page (oset optype (wrap32 (oget optype c + 1)) c)
                          (batch_count ad2)) ad2 in
                let ad4 :=
                  set_total_pred_lat
                    (wrap64 (total_pred_lat ad3 + rd_pred_lat rd)) ad3 in
                FillStaged rq1
                  (FillState ad4 current_lat (wrap32 (fs_count st + 1))
                     (oset optype
                        (wrap32 (oget optype (fs_optype_count st) + 1))
                        (fs_optype_count st)))
            end
      end
  end.

(** The loop, run for at most [fuel] turns; [None] is a fault or a loop that
    is still running when the fuel is spent. *)
Fixpoint fill_loop (glw : Z) (page : Z) (fuel : nat) (st : fill_state)
    : option fill_state :=
  match fuel with
  | O => None
  | S fuel' =>
      match fill_iter glw page st with
      | FillStop st' => Some st'
      | FillFault => None
      | FillStaged _ st' => fill_loop glw page fuel' st'
      end
  end.

(** The bookkeeping after the loop: [more_bq_ready] and the high-water
    marks, updated only [if (count)]. *)
Definition fill_finish (st : fill_state) : adios_data * bool :=
  let ad := fs_ad st in
  if fs_count st =? 0 then (ad, false)
  else
    let oc := fs_optype_count st in
    let upd (o : adios_op_type) :=
      if oget o (batch_actual_max_size ad) <? oget o oc
      then oget o oc else oget o (batch_actual_max_size ad) in
    let sizes :=
      Optypes (upd ADIOS_READ) (upd ADIOS_WRITE) (upd ADIOS_DISCARD)
        (upd ADIOS_OTHER) in
    let total :=
      if batch_actual_max_total ad <? fs_count st
      then fs_count st else batch_actual_max_total ad in
    (set_batch_actual_max sizes total (set_more_bq_ready true ad), true).

(** [fill_batch_queues].  Every turn of the loop that does not leave it
    unlinks one request from the tree, so one turn more than the tree has
    requests is enough fuel. *)
Definition fill_batch_queues (glw : Z) (ad : adios_data) (current_lat : Z)
    : option (adios_data * bool) :=
  let page := fill_page ad in
  let ad0 := reset_batch_counts ad page in
  st ← fill_loop glw page (S (dl_tree_size (dl_tree ad0)))
         (FillState ad0 current_lat 0 (oconst 0));
  Some (fill_finish st).

(** ** Completion *)

(** [adios_completed_request].  [jiffies] and [interval] are passed on to
    [latency_model_update]; the timer that is re-armed at the end belongs to
    the host.  [None] is a fault: a [NULL] [get_rq_data(rq)] or a trapping
    division in the model update. *)
Definition adios_completed_request (jiffies interval : Z) (ad : adios_data)
    (rq : request) (now : Z) : option adios_data :=
  rd ← get_rq_data rq;
  let ad1 := set_total_pred_lat (wrap64 (total_pred_lat ad - rd_pred_lat rd)) ad in
  if (io_start_time_ns rq =? 0) || (rd_block_size rd =? 0) then Some ad1
  else
    let latency := wrap64 (now - io_start_time_ns rq) in
    let optype := adios_optype rq in
    m ← latency_model_input jiffies interval (oget optype (lat_model ad1))
          (rd_block_size rd) latency (rd_pred_lat rd);
    Some (set_lat_model (oset optype m (lat_model ad1)) ad1).

(** ** The sysfs stores *)

(** What [kstrtoul] and [kstrtoint] of linux/kstrtox.h report: the parsed
    value, or one of their two error codes. *)
Inductive kstrto_error : Type := EINVAL | ERANGE.

Definition errno (e : kstrto_error) : Z :=
  match e with EINVAL => 22 | ERANGE => 34 end.

Inductive kstrto_result : Type :=
  | KValue (v : Z)
  | KError (e : kstrto_error).

(** The state the stores act on: the module globals and one scheduler. *)
Definition sysfs_state : Type := (adios_globals * adios_data)%type.

Definition set_latency_target (t : optypes Z) (ad : adios_data) : adios_data :=
  AdiosData (prio_queue ad) (dl_tree ad) (bq_page ad) (more_bq_ready ad)
    (batch_queue ad) (batch_count ad) (total_pred_lat ad) (lat_model ad)
    (batch_actual_max_size ad) (batch_actual_max_total ad) t (batch_limit ad).

Definition set_batch_limit (l : optypes Z) (ad : adios_data) : adios_data :=
  AdiosData (prio_queue ad) (dl_tree ad) (bq_page ad) (more_bq_ready ad)
    (batch_queue ad) (batch_count ad) (total_pred_lat ad) (lat_model ad)
    (batch_actual_max_size ad) (batch_actual_max_total ad) (latency_target ad) l.

(** What [adios_reset_lat_model_store] does to one model. *)
Definition reset_model (m : latency_model) : latency_model :=
  Model 0 0 0 0 0 0 (last_update_jiffies m) (small_bucket m) (large_bucket m).

Section Sysfs.

(** The kernel's parsers are inputs: [kstrtoul(page, 10, &x)] and
    [kstrtoint(page, 10, &x)] as functions of the text. *)
Variable kstrtoul : string -> kstrto_result.
Variable kstrtoint : string -> kstrto_result.

(** [adios_lat_target_##name##_store] *)
Definition adios_lat_target_store (optype : adios_op_type) (st : sysfs_state)
    (page : string) (count : Z) : Z * sysfs_state :=
  match kstrtoul page with
  | KError e => (- errno e, st)
  | KValue nsec =>
      let ad := snd st in
      let ad1 :=
        set_lat_model
          (oset optype (set_base 0 (oget optype (lat_model ad))) (lat_model ad))
          ad in
      let ad2 := set_latency_target (oset optype nsec (latency_target ad1)) ad1 in
      (to_s64 count, (fst st, ad2))
  end.

(** [adios_batch_limit_##name##_store]; the [unsigned long] is narrowed to
    the [u32] field. *)
Definition adios_batch_limit_store (optype : adios_op_type) (st : sysfs_state)
    (page : string) (count : Z) : Z * sysfs_state :=
  match kstrtoul page with
  | KError _ => (- errno EINVAL, st)
  | KValue max_batch =>
      if max_batch =? 0 then (- errno EINVAL, st)
      else
        let ad := snd st in
        (to_s64 count,
         (fst st,
          set_batch_limit (oset optype (wrap32 max_batch) (batch_limit ad)) ad))
  end.

(** [adios_global_latency_window_store] *)
Definition adios_global_latency_window_store (st : sysfs_state)
    (page : string) (count : Z) : Z * sysfs_state :=
  match kstrtoul page with
  | KError e => (- errno e, st)
  | KValue nsec =>
      (to_s64 count, (Globals nsec (bq_refill_below_ratio (fst st)), snd st))
  end.

(** [adios_bq_refill_below_ratio_store] *)
Definition adios_bq_refill_below_ratio_store (st : sysfs_state)
    (page : string) (count : Z) : Z * sysfs_state :=
  match kstrtoint page with
  | KError _ => (- errno EINVAL, st)
  | KValue ratio =>
      if (ratio <? 0) || (100 <? ratio) then (- errno EINVAL, st)
      else
        (to_s64 count, (Globals (global_latency_window (fst st)) ratio, snd st))
  end.

(** [adios_reset_bq_stats_store] *)
Definition adios_reset_bq_stats_store (st : sysfs_state)
    (page : string) (count : Z) : Z * sysfs_state :=
  match kstrtoul page with
  | KError _ => (- errno EINVAL, st)
  | KValue val =>
      if negb (val =? 1) then (- errno EINVAL, st)
      else (to_s64 count, (fst st, set_batch_actual_max (oconst 0) 0 (snd st)))
  end.

(** [adios_reset_lat_model_store] *)
Definition adios_reset_lat_model_store (st : sysfs_state)
    (page : string) (count : Z) : Z * sysfs_state :=
  match kstrtoul page with
  | KError _ => (- errno EINVAL, st)
  | KValue val =>
      if negb (val =? 1) then (- errno EINVAL, st)
      else
        (to_s64 count,
         (fst st,
          set_lat_model (optypes_map reset_model (lat_model (snd st))) (snd st)))
  end.

(** The writable attributes of [adios_sched_attrs]. *)
Inductive tunable : Type :=
  | lat_target (optype : adios_op_type)
  | batch_limit_of (optype : adios_op_type)
  | global_latency_window_attr
  | bq_refill_below_ratio_attr
  | reset_bq_stats
  | reset_lat_model.

(** The store function behind each attribute. *)
Definition adios_store (t : tunable) (st : sysfs_state) (page : string)
    (count : Z) : Z * sysfs_state :=
  match t with
  | lat_target o => adios_lat_target_store o st page count
  | batch_limit_of o => adios_batch_limit_store o st page count
  | global_latency_window_attr => adios_global_latency_window_store st page count
  | bq_refill_below_ratio_attr => adios_bq_refill_below_ratio_store st page count
  | reset_bq_stats => adios_reset_bq_stats_store st page count
  | reset_lat_model => adios_reset_lat_model_store st page count
  end.

(** The input a store is meant to turn down: text the parser does not
    accept, a batch limit of zero, a refill ratio outside 0..100, a reset
    value other than 1. *)
Definition invalid_input (t : tunable) (page : string) : Prop :=
  match t with
  | lat_target _ | global_latency_window_attr =>
      exists e, kstrtoul page = KError e
  | batch_limit_of _ =>
      (exists e, kstrtoul page = KError e) \/ kstrtoul page = KValue 0
  | bq_refill_below_ratio_attr =>
      (exists e, kstrtoint page = KError e)
      \/ (exists v, kstrtoint page = KValue v /\ (v < 0 \/ 100 < v))
  | reset_bq_stats | reset_lat_model =>
      (exists e, kstrtoul page = KError e)
      \/ (exists v, kstrtoul page = KValue v /\ v <> 1)
  end.

End Sysfs.

(** ** Well-formed deadline trees *)

(** A request as it sits in the group with deadline [d]: it has its private
    record, and [rd->dl_group] points at that group. *)
Definition linked_in (d : Z) (rq : request) : Prop :=
  exists rd, elv_priv rq = Some rd /\ rd_dl_group rd = Some d.

(** A group as the code keeps it: a deadline on which the signed
    comparison of [add_to_dl_tree] agrees with the order of the integers, and
    a non-empty list of requests that point back at the group. *)
Definition group_ok (g : dl_group) : Prop :=
  0 <= deadline g < 2 ^ 63
  /\ rqs g <> []
  /\ Forall (linked_in (deadline g)) (rqs g).

(** Strictly increasing keys. *)
Fixpoint keys_sorted (ks : list Z) : Prop :=
  match ks with
  | [] => True
  | k :: ks' => Forall (Z.lt k) ks' /\ keys_sorted ks'
  end.

Definition dl_tree_wf (t : list dl_group) : Prop :=
  Forall group_ok t /\ keys_sorted (map deadline t).

(** The operations the scheduler applies to the deadline tree:
    [add_to_dl_tree] of a request, with the outcome of the group
    allocation, and [remove_request] of the request with a given address.
    A request that is not in the tree has a [NULL] [rd->dl_group], for which
    [remove_request] leaves the tree alone. *)
Inductive dl_op : Type :=
  | DlAdd (rq : request) (alloc_ok : bool)
  | DlDel (id : nat).

Definition dl_step (ad : adios_data) (op : dl_op) : option adios_data :=
  match op with
  | DlAdd rq alloc_ok =>
      '(ad', _) ← add_to_dl_tree alloc_ok ad rq; Some ad'
  | DlDel id =>
      match dl_lookup ad id with
      | Some rq => '(ad', _) ← remove_request ad rq; Some ad'
      | None => Some ad
      end
  end.

Fixpoint dl_run (ad : adios_data) (ops : list dl_op) : option adios_data :=
  match ops with
  | [] => Some ad
  | op :: ops' => ad' ← dl_step ad op; dl_run ad' ops'
  end.

(** The added requests of a sequence of operations. *)
Definition dl_added (ops : list dl_op) : list request :=
  omap (fun op => match op with DlAdd rq _ => Some rq | DlDel _ => None end) ops.

(** ** The turns of the fill loop *)

(** [fill_reach glw page st k st']: starting from [st], the loop of
    [fill_batch_queues] has gone round [k] times, staging a request each
    time, and its variables are now [st']. *)
Inductive fill_reach (glw page : Z) (st : fill_state)
    : nat -> fill_state -> Prop :=
  | fill_reach_start : fill_reach glw page st 0 st
  | fill_reach_turn k st1 rq st2 :
      fill_reach glw page st k st1 ->
      fill_iter glw page st1 = FillStaged rq st2 ->
      fill_reach glw page st (S k) st2.

(** The loop variables on entry to the loop. *)
Definition fill_start (ad : adios_data) (current_lat : Z) : fill_state :=
  FillState (reset_batch_counts ad (fill_page ad)) current_lat 0 (oconst 0).

(** ** Example values *)

(** A read of [bytes] bytes with address [id] that arrived at [start], as
    [adios_prepare_request] hands it over. *)
Definition read_rq (id : nat) (start bytes : Z) : request :=
  Request id 0 start 0 bytes (Some zero_rq_data).

Definition merge_none : insert_env := InsertEnv false true.

(** A parser that accepts exactly the texts "0", "1", "8", "101" and
    "4294967296". *)
Definition toy_kstrto (page : string) : kstrto_result :=
  if String.eqb page "0" then KValue 0
  else if String.eqb page "1" then KValue 1
  else if String.eqb page "8" then KValue 8
  else if String.eqb page "101" then KValue 101
  else if String.eqb page "4294967296" then KValue 4294967296
  else KError EINVAL.

(** A model whose small accumulator stands at the shrink threshold, with two
    small samples of latency 4 waiting in bucket 20. *)
Definition full_small_model : latency_model :=
  Model 4 0 40000000 10000000 0 0 0
    (<[20%nat := Bucket 2 8 0]> zero_buckets) zero_buckets.

(** A model whose large accumulator stands at the shrink threshold (100 GiB),
    with one large sample waiting in bucket 20. *)
Definition full_large_model : latency_model :=
  Model 4 1 40 10 4000 107374182400 0
    zero_buckets (<[20%nat := Bucket 1 1000 8192]> zero_buckets).

(** A model calibrated to [base = 100] with no slope yet. *)
Definition base_only_model : latency_model :=
  Model 100 0 100 1 0 0 0 zero_buckets zero_buckets.

(** Three reads: the first two arrive together and have the same size, the
    third arrives later. *)
Definition rq_a : request := read_rq 1 1000 512.
Definition rq_b : request := read_rq 2 1000 512.
Definition rq_c : request := read_rq 3 5000 512.

(** A model calibrated to [base = 3000] and [slope = 5]. *)
Definition calibrated_model : latency_model :=
  Model 3000 5 3000 1 0 0 0 zero_buckets zero_buckets.

(** A fresh scheduler whose four models are calibrated. *)
Definition calibrated_ad : adios_data :=
  set_lat_model (oconst calibrated_model) (init_adios_data 0).

(** ** Dispatch *)

(** [flip_bq_page] *)
Definition flip_bq_page (ad : adios_data) : adios_data :=
  AdiosData (prio_queue ad) (dl_tree ad)
    (Z.rem (bq_page ad + 1) ADIOS_BQ_PAGES) false (batch_queue ad)
    (batch_count ad) (total_pred_lat ad) (lat_model ad)
    (batch_actual_max_size ad) (batch_actual_max_total ad) (latency_target ad)
    (batch_limit ad).

(** The operation types in the order of the loop
    [for (int i = 0; i < ADIOS_OPTYPES; i++)]. *)
Definition optype_order : list adios_op_type :=
  [ADIOS_READ; ADIOS_WRITE; ADIOS_DISCARD; ADIOS_OTHER].

(** The scan of the active page in [dispatch_from_bq]: the first type, in
    [optype_order], whose list is not empty gives up its first request. *)
Fixpoint bq_scan (types : list adios_op_type) (q : optypes (list request))
    : option (request * optypes (list request)) :=
  match types with
  | [] => None
  | o :: types' =>
      match oget o q with
      | rq :: l => Some (rq, oset o l q)
      | [] => bq_scan types' q
      end
  end.

(** One pass from the label [again] to the test of [more_bq_ready]. *)
Definition bq_serve (ad : adios_data) : option (request * adios_data) :=
  match bq_scan optype_order (pget (bq_page ad) (batch_queue ad)) with
  | Some (rq, q) =>
      Some (rq, set_batch_queue (pset (bq_page ad) q (batch_queue ad)) ad)
  | None => None
  end.

(** The refill test of [dispatch_from_bq]:
    [!ad->more_bq_ready && (!tpl || tpl < global_latency_window *
     bq_refill_below_ratio / 100)], the [int] ratio being converted to
    [u64] for the product. *)
Definition bq_wants_refill (g : adios_globals) (ad : adios_data) : bool :=
  let tpl := total_pred_lat ad in
  negb (more_bq_ready ad)
  && ((tpl =? 0)
      || (tpl <? wrap64 (global_latency_window g
                         * wrap64 (bq_refill_below_ratio g)) / 100)).

(** [dispatch_from_bq].  After [flip_bq_page] has cleared [more_bq_ready]
    the jump back to [again] can be taken only once, so the loop is two
    passes at most.  The outer [None] is a fault inside
    [fill_batch_queues]. *)
Definition dispatch_from_bq (g : adios_globals) (ad : adios_data)
    : option (option request * adios_data) :=
  ad1 ← (if bq_wants_refill g ad
         then '(ad', _) ← fill_batch_queues (global_latency_window g) ad
                            (total_pred_lat ad);
              Some ad'
         else Some ad);
  match bq_serve ad1 with
  | Some (rq, ad2) => Some (Some rq, ad2)
  | None =>
      if more_bq_ready ad1 then
        let ad2 := flip_bq_page ad1 in
        match bq_serve ad2 with
        | Some (rq, ad3) => Some (Some rq, ad3)
        | None => Some (None, ad2)
        end
      else Some (None, ad1)
  end.

(** [adios_dispatch_request].  [rq_flags] is a field of the host's request
    that nothing else here reads, so it is passed in as a function of the
    request, with the value of the flag [RQF_STARTED]; the second component
    of the result is the value the code leaves in [rq->rq_flags]. *)
Definition adios_dispatch_request (rq_flags : request -> Z) (RQF_STARTED : Z)
    (g : adios_globals) (ad : adios_data)
    : option (option (request * Z) * adios_data) :=
  match dispatch_from_pq ad with
  | (Some rq, ad') =>
      Some (Some (rq, Z.lor (rq_flags rq) RQF_STARTED), ad')
  | (None, _) =>
      '(r, ad') ← dispatch_from_bq g ad;
      match r with
      | Some rq => Some (Some (rq, Z.lor (rq_flags rq) RQF_STARTED), ad')
      | None => Some (None, ad')
      end
  end.

(** ** Pending work *)

(** [pq_has_work] *)
Definition pq_has_work (ad : adios_data) : bool :=
  match prio_queue ad with [] => false | _ => true end.

(** [bq_has_work] *)
Definition bq_has_work (ad : adios_data) : bool :=
  let q := pget (bq_page ad) (batch_queue ad) in
  existsb (fun o => match oget o q with [] => false | _ => true end)
    optype_order
  || more_bq_ready ad.

(** [dl_tree_has_work] *)
Definition dl_tree_has_work (ad : adios_data) : bool :=
  match dl_tree ad with [] => false | _ => true end.

(** [adios_has_work] *)
Definition adios_has_work (ad : adios_data) : bool :=
  pq_has_work ad || bq_has_work ad || dl_tree_has_work ad.

(** ** The model timer *)

(** [update_timer_callback]: [latency_model_update] on the four models in
    turn; [None] if one of the updates traps. *)
Definition update_timer_callback (jiffies interval : Z) (ad : adios_data)
    : option adios_data :=
  let ms := lat_model ad in
  r ← latency_model_update jiffies interval (at_read ms);
  w ← latency_model_update jiffies interval (at_write ms);
  d ← latency_model_update jiffies interval (at_discard ms);
  o ← latency_model_update jiffies interval (at_other ms);
  Some (set_lat_model (Optypes r w d o) ad).

(** ** Request clean-up *)

(** [adios_finish_request]: the private record goes back to the pool. *)
Definition adios_finish_request (rq : request) : request :=
  match elv_priv rq with
  | Some _ => set_elv_priv None rq
  | None => rq
  end.

(** ** Shallow depth *)

(** [to_word_depth], on the three numbers it reads: [bt->sb.shift],
    [hctx->queue->nr_requests] and the queue depth, all [unsigned int]; the
    quotient is returned as an [int].  A zero [nr_requests] traps. *)
Definition to_word_depth (shift nr_requests qdepth : Z) : option Z :=
  if nr_requests =? 0 then None
  else
    let v := wrap32 (wrap32 (wrap32 (Z.shiftl qdepth shift) + nr_requests) - 1)
             / nr_requests in
    Some (if v <? 2 ^ 31 then v else v - 2 ^ 32).

(** ** Models as the scheduler keeps them *)

(** Both histograms have their [LM_LAT_BUCKET_COUNT] slots. *)
Definition model_shape (m : latency_model) : Prop :=
  length (small_bucket m) = LM_LAT_BUCKET_COUNT
  /\ length (large_bucket m) = LM_LAT_BUCKET_COUNT.

(** The sum of a field over a histogram, without wrap-around. *)
Definition hist_sum (f : latency_bucket -> Z) (bs : list latency_bucket) : Z :=
  fold_right (fun b s => f b + s) 0 bs.

(** ** Sequences of stores *)

(** One write to a sysfs attribute: the attribute, the text and its length. *)
Record store_call : Type := StoreCall {
  sc_attr : tunable;
  sc_page : string;
  sc_count : Z;
}.

(** The state after a sequence of writes, successful or not. *)
Definition run_stores (kstrtoul kstrtoint : string -> kstrto_result)
    (st : sysfs_state) (calls : list store_call) : sysfs_state :=
  fold_left
    (fun st c =>
       snd (adios_store kstrtoul kstrtoint (sc_attr c) st (sc_page c) (sc_count c)))
    calls st.

(** Every field of a bucket holds a [u64]. *)
Definition bucket_ok (b : latency_bucket) : Prop :=
  is_u64 (count b) /\ is_u64 (sum_latency b) /\ is_u64 (sum_block_size b).

(** A model whose fields all hold values of their C types and whose
    histograms have their 64 slots. *)
Definition model_inv (m : latency_model) : Prop :=
  model_ok m /\ model_shape m
  /\ Forall bucket_ok (small_bucket m) /\ Forall bucket_ok (large_bucket m).

(** The loads of the two histograms under which one pass of
    [latency_model_update] wraps none of its counters: fewer than
    42,949,673 samples in a histogram (the threshold is computed as
    [total_count * 100] in a [u32]) and at most 2^38 bytes over the large
    histogram (the share is computed as [sum_block_size * remaining_count]
    in a [u64]). *)
Definition small_load_ok (m : latency_model) : Prop :=
  Forall (fun b => 0 <= count b) (small_bucket m)
  /\ hist_sum count (small_bucket m) * 100 < 2 ^ 32.

Definition large_load_ok (m : latency_model) : Prop :=
  Forall (fun b => 0 <= count b /\ 0 <= sum_block_size b) (large_bucket m)
  /\ hist_sum count (large_bucket m) * 100 < 2 ^ 32
  /\ hist_sum sum_block_size (large_bucket m) <= 2 ^ 38.

(** The accumulators that become the divisors of the two [div_u64] calls,
    within the bounds that the shrink steps maintain under those loads:
    [small_count] is passed as a [u32], and so is
    [DIV_ROUND_UP_ULL(large_sum_bsize, 1024)]. *)
Definition divisors_bounded (m : latency_model) : Prop :=
  0 <= small_count m <= 171798692
  /\ 0 <= large_sum_bsize m <= 2 ^ 42 - 1024.

(** A model outside those bounds: [small_count] stands at 5,726,623,060 and
    one small sample waits in slot 0. *)
Definition wrapped_count_model : latency_model :=
  Model 0 0 0 5726623060 0 0 0
    (<[0%nat := Bucket 1 5 0]> zero_buckets) zero_buckets.

(** A request whose private record carries the deadline [d]. *)
Definition keyed_by (d : Z) (rq : request) : Prop :=
  exists rd, get_rq_data rq = Some rd /\ rd_deadline rd = d.

(** Every request of every group carries the deadline of its group. *)
Definition dl_tree_keyed (t : list dl_group) : Prop :=
  Forall (fun g => Forall (keyed_by (deadline g)) (rqs g)) t.

(** The requests linked in the tree, in dispatch order. *)
Definition dl_flat (t : list dl_group) : list request := concat (map rqs t).

(** A request as [del_from_dl_tree] leaves it: [rd->dl_group] is [NULL]. *)
Definition rq_unlinked (rq : request) : request :=
  match elv_priv rq with
  | Some rd =>
      set_elv_priv
        (Some (RqData (rd_deadline rd) (rd_pred_lat rd) (rd_block_size rd) None))
        rq
  | None => rq
  end.

(** [rd->pred_lat] of a request, and its sum over a list of requests. *)
Definition rq_pred (rq : request) : Z :=
  match elv_priv rq with Some rd => rd_pred_lat rd | None => 0 end.

Definition sum_pred (l : list request) : Z :=
  fold_right (fun r s => rq_pred r + s) 0 l.

(** The requests of one operation type. *)
Definition of_type (o : adios_op_type) (l : list request) : list request :=
  List.filter (fun r => bool_decide (adios_optype r = o)) l.

(** The place of an operation type in the scan of [dispatch_from_bq]. *)
Definition optype_rank (o : adios_op_type) : nat :=
  match o with
  | ADIOS_READ => 0
  | ADIOS_WRITE => 1
  | ADIOS_DISCARD => 2
  | ADIOS_OTHER => 3
  end.

(** The part of [dispatch_from_bq] from the label [again] on. *)
Definition bq_serve_again (ad1 : adios_data)
    : option (option request * adios_data) :=
  match bq_serve ad1 with
  | Some (rq, ad2) => Some (Some rq, ad2)
  | None =>
      if more_bq_ready ad1 then
        let ad2 := flip_bq_page ad1 in
        match bq_serve ad2 with
        | Some (rq, ad3) => Some (Some rq, ad3)
        | None => Some (None, ad2)
        end
      else Some (None, ad1)
  end.

(** The two batch-queue pages agree with [more_bq_ready]: [bq_page] is a
    page index, and the page that is not active holds a request exactly
    when [more_bq_ready] is set. *)
Definition bq_pages_ok (ad : adios_data) : Prop :=
  (bq_page ad = 0 \/ bq_page ad = 1)
  /\ (more_bq_ready ad = false
      <-> forall o, oget o (pget (fill_page ad) (batch_queue ad)) = []).

(** ** Completions in turn *)

(** One completion as the host reports it: the request, the completion
    time [now], and the value of [jiffies] at the call. *)
Record completion : Type := Completion {
  c_rq : request;
  c_now : Z;
  c_jiffies : Z;
}.

(** [adios_completed_request] called for each completion in turn. *)
Fixpoint complete_requests (interval : Z) (ad : adios_data)
    (l : list completion) : option adios_data :=
  match l with
  | [] => Some ad
  | c :: l' =>
      ad' ← adios_completed_request (c_jiffies c) interval ad (c_rq c) (c_now c);
      complete_requests interval ad' l'
  end.

(** Every model of the scheduler has a non-zero [base]. *)
Definition calibrated (ad : adios_data) : Prop :=
  forall o, base (oget o (lat_model ad)) <> 0.

(** The scheduling state of two [sysfs_state]s is the same: queues, tree,
    pages and the latency budget. *)
Definition same_queues (st st' : sysfs_state) : Prop :=
  prio_queue (snd st') = prio_queue (snd st)
  /\ dl_tree (snd st') = dl_tree (snd st)
  /\ batch_queue (snd st') = batch_queue (snd st)
  /\ batch_count (snd st') = batch_count (snd st)
  /\ bq_page (snd st') = bq_page (snd st)
  /\ more_bq_ready (snd st') = more_bq_ready (snd st)
  /\ total_pred_lat (snd st') = total_pred_lat (snd st).

(** The tunables are within the ranges the stores enforce: the refill ratio
    in 0..100 and every batch limit within its [u32] field. *)
Definition tunables_ok (st : sysfs_state) : Prop :=
  0 <= bq_refill_below_ratio (fst st) <= 100
  /\ forall o, is_u32 (oget o (batch_limit (snd st))).

(** [adios_depth_updated]: the value it stores in [ad->async_depth]; the
    call of [sbitmap_queue_min_shallow_depth] acts on the host's tags. *)
Definition adios_depth_updated (nr_requests : Z) : Z := nr_requests.

(** [adios_limit_depth]: the value of [data->shallow_depth] after the call.
    [sync_read] is [op_is_sync(opf) && !op_is_write(opf)], a test of the
    host's flags; [async_depth] is [ad->async_depth].  The [int] that
    [to_word_depth] returns is stored in the [unsigned int] field. *)
Definition adios_limit_depth (sync_read : bool)
    (shift nr_requests async_depth shallow_depth : Z) : option Z :=
  if sync_read then Some shallow_depth
  else d ← to_word_depth shift nr_requests async_depth; Some (wrap32 d).

(** ** The requests the scheduler holds *)

(** The requests on one page, list by list. *)
Definition page_rqs (q : optypes (list request)) : list request :=
  at_read q ++ at_write q ++ at_discard q ++ at_other q.

(** Every request the scheduler holds: on the priority queue, in the tree,
    and on the two batch-queue pages. *)
Definition held (ad : adios_data) : list request :=
  prio_queue ad ++ dl_flat (dl_tree ad)
  ++ page_rqs (fst (batch_queue ad)) ++ page_rqs (snd (batch_queue ad)).

(** * The deadline tree with its shape

    [dl_tree] above is the sequence of the groups in the order of the tree,
    and [dl_link] finds the place of a deadline in that sequence.  That is
    what the descent of [add_to_dl_tree] does as long as the signed
    difference it compares with orders the keys of the tree as integers,
    which is the case while every key is below 2^63 ([dl_tree_wf]); the
    last part of this file proves that the two descriptions then agree.
    Beyond that the difference is no order, and where the descent ends depends on
    which groups it meets on its way down, that is on the shape that
    [rb_insert_color] and [rb_erase] of the kernel's lib/rbtree.c have
    given the tree.  This part keeps the shape: the nodes with their
    colours and children, the descent by the links, and the two library
    functions as lib/rbtree.c has them. *)

Inductive rb_color : Type := RB_RED | RB_BLACK.

(** A node embeds its [struct dl_group]; [RbNull] is the [NULL] link. *)
Inductive rb_tree : Type :=
  | RbNull
  | RbNode (color : rb_color) (rb_left : rb_tree) (grp : dl_group)
      (rb_right : rb_tree).

(** The groups from the leftmost node on, as [rb_first] and [rb_next] give
    them. *)
Fixpoint rb_inorder (t : rb_tree) : list dl_group :=
  match t with
  | RbNull => []
  | RbNode _ l g r => rb_inorder l ++ g :: rb_inorder r
  end.

(** The way from a link up to the root, nearest node first: at each node,
    which of its links was followed, and the rest of the node. *)
Inductive rb_frame : Type :=
  | RbLeftOf (color : rb_color) (grp : dl_group) (rb_right : rb_tree)
  | RbRightOf (color : rb_color) (rb_left : rb_tree) (grp : dl_group).

Definition rb_path : Type := list rb_frame.

(** The tree that has [t] at the end of the way [p]. *)
Fixpoint rb_plug (p : rb_path) (t : rb_tree) : rb_tree :=
  match p with
  | [] => t
  | RbLeftOf c g r :: p' => rb_plug p' (RbNode c t g r)
  | RbRightOf c l g :: p' => rb_plug p' (RbNode c l g t)
  end.

(** The groups that come before and after the link at the end of the way
    [p], in the order of the tree. *)
Fixpoint rb_before (p : rb_path) : list dl_group :=
  match p with
  | [] => []
  | RbLeftOf _ _ _ :: p' => rb_before p'
  | RbRightOf _ l g :: p' => rb_before p' ++ rb_inorder l ++ [g]
  end.

Fixpoint rb_after (p : rb_path) : list dl_group :=
  match p with
  | [] => []
  | RbLeftOf _ g r :: p' => g :: rb_inorder r ++ rb_after p'
  | RbRightOf _ _ _ :: p' => rb_after p'
  end.

(** [tmp && rb_is_red(tmp)] *)
Definition rb_is_red (t : rb_tree) : bool :=
  match t with
  | RbNode RB_RED _ _ _ => true
  | _ => false
  end.

(** [if (tmp) rb_set_parent_color(tmp, parent, color)], for the colour. *)
Definition rb_set_color (c : rb_color) (t : rb_tree) : rb_tree :=
  match t with
  | RbNull => RbNull
  | RbNode _ l g r => RbNode c l g r
  end.

(** ** The red-black conditions

    [rb_valid n t]: every way from the top of [t] down to a [NULL] link
    passes [n] black nodes, and no red node has a red child. *)
Fixpoint rb_valid (n : nat) (t : rb_tree) : Prop :=
  match t with
  | RbNull => n = 0%nat
  | RbNode RB_RED l _ r =>
      rb_is_red l = false /\ rb_is_red r = false
      /\ rb_valid n l /\ rb_valid n r
  | RbNode RB_BLACK l _ r =>
      match n with
      | O => False
      | S m => rb_valid m l /\ rb_valid m r
      end
  end.

(** A red-black tree: the conditions hold and the root is not red. *)
Definition rb_tree_ok (t : rb_tree) : Prop :=
  rb_is_red t = false /\ exists n, rb_valid n t.

(** There is a node above the link at the end of the way, and it is black. *)
Definition rb_parent_black (p : rb_path) : Prop :=
  match p with
  | RbLeftOf RB_BLACK _ _ :: _ | RbRightOf RB_BLACK _ _ :: _ => True
  | _ => False
  end.

(** The rest of a red-black tree around a link below which the ways to
    [NULL] pass [n] black nodes. *)
Fixpoint rb_path_valid (p : rb_path) (n : nat) : Prop :=
  match p with
  | [] => True
  | RbLeftOf RB_BLACK _ s :: p' | RbRightOf RB_BLACK s _ :: p' =>
      rb_valid n s /\ rb_path_valid p' (S n)
  | RbLeftOf RB_RED _ s :: p' | RbRightOf RB_RED s _ :: p' =>
      rb_valid n s /\ rb_is_red s = false
      /\ rb_parent_black p' /\ rb_path_valid p' n
  end.

(** A red subtree fits only under a black node. *)
Definition rb_fits (p : rb_path) (t : rb_tree) : Prop :=
  rb_is_red t = true -> rb_parent_black p.

(** ** [__rb_insert]

    [node] is the red node of the loop, with what hangs below it, and [p]
    the way from it to the root.  [None] is the dereference of a [NULL]
    grandparent, which a red root would cause.  Case 1 recolours and goes
    on from the grandparent; cases 2 and 3 rotate and stop.  In the
    rotations the node that moves up takes the colour of the grandparent
    ([__rb_rotate_set_parents]) and the subtree that changes sides is set
    black if it is there. *)
Fixpoint rb_insert_color (node : rb_tree) (p : rb_path) : option rb_tree :=
  match p with
  | [] => Some (rb_set_color RB_BLACK node)
  | RbLeftOf RB_BLACK _ _ :: _ | RbRightOf RB_BLACK _ _ :: _ =>
      Some (rb_plug p node)
  | RbLeftOf RB_RED pg pr :: p' =>
      match p' with
      | [] => None
      | RbLeftOf gc gg uncle :: p'' =>
          if rb_is_red uncle then
            rb_insert_color
              (RbNode RB_RED (RbNode RB_BLACK node pg pr) gg
                 (rb_set_color RB_BLACK uncle)) p''
          else
            Some (rb_plug p''
                    (RbNode gc node pg
                       (RbNode RB_RED (rb_set_color RB_BLACK pr) gg uncle)))
      | RbRightOf gc uncle gg :: p'' =>
          if rb_is_red uncle then
            rb_insert_color
              (RbNode RB_RED (rb_set_color RB_BLACK uncle) gg
                 (RbNode RB_BLACK node pg pr)) p''
          else
            match node with
            | RbNull => None
            | RbNode _ nl ng nr =>
                Some (rb_plug p''
                        (RbNode gc
                           (RbNode RB_RED uncle gg (rb_set_color RB_BLACK nl))
                           ng
                           (RbNode RB_RED (rb_set_color RB_BLACK nr) pg pr)))
            end
      end
  | RbRightOf RB_RED pl pg :: p' =>
      match p' with
      | [] => None
      | RbLeftOf gc gg uncle :: p'' =>
          if rb_is_red uncle then
            rb_insert_color
              (RbNode RB_RED (RbNode RB_BLACK pl pg node) gg
                 (rb_set_color RB_BLACK uncle)) p''
          else
            match node with
            | RbNull => None
            | RbNode _ nl ng nr =>
                Some (rb_plug p''
                        (RbNode gc
                           (RbNode RB_RED pl pg (rb_set_color RB_BLACK nl))
                           ng
                           (RbNode RB_RED (rb_set_color RB_BLACK nr) gg uncle)))
            end
      | RbRightOf gc uncle gg :: p'' =>
          if rb_is_red uncle then
            rb_insert_color
              (RbNode RB_RED (rb_set_color RB_BLACK uncle) gg
                 (RbNode RB_BLACK pl pg node)) p''
          else
            Some (rb_plug p''
                    (RbNode gc
                       (RbNode RB_RED uncle gg (rb_set_color RB_BLACK pl))
                       pg node))
      end
  end.

(** ** [____rb_erase_color]

    What one turn of the loop makes of the parent and its two subtrees:
    either the loop is over, or it goes on one level up. *)
Inductive rb_turn : Type :=
  | RbBreak (t : rb_tree)
  | RbContinue (t : rb_tree).

(** Cases 2 to 4 where [node] is the left child: the parent has colour [pc]
    and group [pg], the sibling is not red and has the group [sg] and the
    children [sl] and [sr]. *)
Definition rb_erase_left (node : rb_tree) (pc : rb_color) (pg : dl_group)
    (sl : rb_tree) (sg : dl_group) (sr : rb_tree) : rb_turn :=
  if rb_is_red sr then
    RbBreak (RbNode pc (RbNode RB_BLACK node pg sl) sg (rb_set_color RB_BLACK sr))
  else
    match sl with
    | RbNode RB_RED sll slg slr =>
        RbBreak (RbNode pc (RbNode RB_BLACK node pg sll) slg
                   (RbNode RB_BLACK (rb_set_color RB_BLACK slr) sg sr))
    | _ =>
        match pc with
        | RB_RED => RbBreak (RbNode RB_BLACK node pg (RbNode RB_RED sl sg sr))
        | RB_BLACK =>
            RbContinue (RbNode RB_BLACK node pg (RbNode RB_RED sl sg sr))
        end
    end.

(** The same where [node] is the right child. *)
Definition rb_erase_right (node : rb_tree) (pc : rb_color) (pg : dl_group)
    (sl : rb_tree) (sg : dl_group) (sr : rb_tree) : rb_turn :=
  if rb_is_red sl then
    RbBreak (RbNode pc (rb_set_color RB_BLACK sl) sg (RbNode RB_BLACK sr pg node))
  else
    match sr with
    | RbNode RB_RED srl srg srr =>
        RbBreak (RbNode pc
                   (RbNode RB_BLACK sl sg (rb_set_color RB_BLACK srl)) srg
                   (RbNode RB_BLACK srr pg node))
    | _ =>
        match pc with
        | RB_RED => RbBreak (RbNode RB_BLACK (RbNode RB_RED sl sg sr) pg node)
        | RB_BLACK =>
            RbContinue (RbNode RB_BLACK (RbNode RB_RED sl sg sr) pg node)
        end
    end.

(** The loop.  [node] is the subtree that is one black node short ([NULL]
    at first) and [p] the way from it to the root.  A red sibling is
    rotated up first (case 1), which leaves a red parent, so that the turn
    ends the loop.  [None] is the dereference of a [NULL] sibling, or of
    the [NULL] child of a red sibling in case 1. *)
Fixpoint rb_erase_color (node : rb_tree) (p : rb_path) : option rb_tree :=
  match p with
  | [] => Some node
  | RbLeftOf pc pg sibling :: p' =>
      match sibling with
      | RbNull => None
      | RbNode RB_RED sl sg sr =>
          match sl with
          | RbNull => None
          | RbNode _ sll slg slr =>
              match rb_erase_left node RB_RED pg sll slg slr with
              | RbBreak t | RbContinue t => Some (rb_plug p' (RbNode pc t sg sr))
              end
          end
      | RbNode RB_BLACK sl sg sr =>
          match rb_erase_left node pc pg sl sg sr with
          | RbBreak t => Some (rb_plug p' t)
          | RbContinue t => rb_erase_color t p'
          end
      end
  | RbRightOf pc sibling pg :: p' =>
      match sibling with
      | RbNull => None
      | RbNode RB_RED sl sg sr =>
          match sr with
          | RbNull => None
          | RbNode _ srl srg srr =>
              match rb_erase_right node RB_RED pg srl srg srr with
              | RbBreak t | RbContinue t => Some (rb_plug p' (RbNode pc sl sg t))
              end
          end
      | RbNode RB_BLACK sl sg sr =>
          match rb_erase_right node pc pg sl sg sr with
          | RbBreak t => Some (rb_plug p' t)
          | RbContinue t => rb_erase_color t p'
          end
      end
  end.

(** The walk [do { ... tmp = tmp->rb_left; } while (tmp)] to the successor:
    the way from the leftmost node of [t] up to [t], and that node's
    colour, group and right child. *)
Fixpoint rb_leftmost (t : rb_tree) (p : rb_path)
    : option (rb_path * rb_color * dl_group * rb_tree) :=
  match t with
  | RbNull => None
  | RbNode c RbNull g r => Some (p, c, g, r)
  | RbNode c l g r => rb_leftmost l (RbLeftOf c g r :: p)
  end.

(** ** [rb_erase]

    [__rb_erase_augmented] of the node with colour [c], children [l] and
    [r], at the end of the way [p], followed by [____rb_erase_color] where
    it asks for it.  With at most one child the child takes the place and
    the colour of the node.  With two, the successor takes them: it is the
    right child (case 2) or the leftmost node below it (case 3), and its
    own right child, set black, takes its old place.  The loop runs when
    the node that left its place was black and had no child to put there. *)
Definition rb_erase (c : rb_color) (l r : rb_tree) (p : rb_path)
    : option rb_tree :=
  match l, r with
  | RbNull, RbNull =>
      match c with
      | RB_BLACK => rb_erase_color RbNull p
      | RB_RED => Some (rb_plug p RbNull)
      end
  | RbNull, RbNode _ _ _ _ => Some (rb_plug p (rb_set_color c r))
  | RbNode _ _ _ _, RbNull => Some (rb_plug p (rb_set_color c l))
  | RbNode _ _ _ _, RbNode _ _ _ _ =>
      '(q, sc, sg, child2) ← rb_leftmost r [];
      let p2 := q ++ RbRightOf c l sg :: p in
      match child2 with
      | RbNode _ _ _ _ => Some (rb_plug p2 (rb_set_color RB_BLACK child2))
      | RbNull =>
          match sc with
          | RB_BLACK => rb_erase_color RbNull p2
          | RB_RED => Some (rb_plug p2 RbNull)
          end
      end
  end.

(** ** The scheduler's functions on the tree *)

(** Where the loop [while ( *link )] of [add_to_dl_tree] ends: at the group
    with the deadline ([goto found]), or at a [NULL] link. *)
Inductive rb_place : Type :=
  | RbFound (p : rb_path) (c : rb_color) (l : rb_tree) (g : dl_group)
      (r : rb_tree)
  | RbLink (p : rb_path).

Fixpoint rb_descend (t : rb_tree) (d : Z) (p : rb_path) : rb_place :=
  match t with
  | RbNull => RbLink p
  | RbNode c l g r =>
      let diff := to_s64 (wrap64 (d - deadline g)) in
      if diff <? 0 then rb_descend l d (RbLeftOf c g r :: p)
      else if 0 <? diff then rb_descend r d (RbRightOf c l g :: p)
      else RbFound p c l g r
  end.

(** [add_to_dl_tree] on the tree [t]; [ad] gives the models and the latency
    targets.  At a [NULL] link the parent's deadline differs from the
    request's (the difference there was not zero), so a group is allocated,
    linked red ([rb_link_node]) and [rb_insert_color] runs. *)
Definition rb_add_to_dl_tree (alloc_ok : bool) (ad : adios_data)
    (t : rb_tree) (rq : request) : option (rb_tree * request) :=
  rd ← get_rq_data rq;
  let block_size := blk_rq_bytes rq in
  let pred := rq_pred_lat ad rq in
  let d := rq_deadline ad rq in
  let unlinked := set_elv_priv (Some (RqData d pred block_size (rd_dl_group rd))) rq in
  let linked := set_elv_priv (Some (RqData d pred block_size (Some d))) rq in
  match rb_descend t d [] with
  | RbFound p c l g r =>
      Some (rb_plug p (RbNode c l (DlGroup (deadline g) (rqs g ++ [linked])) r),
            linked)
  | RbLink p =>
      if alloc_ok then
        t' ← rb_insert_color (RbNode RB_RED RbNull (DlGroup d [linked]) RbNull) p;
        Some (t', linked)
      else Some (t, unlinked)
  end.

(** [container_of(rd->dl_group, struct dl_group, rqs)]: the node whose list
    the request with address [id] is linked in, with the way to it. *)
Fixpoint rb_locate (id : nat) (t : rb_tree) (p : rb_path)
    : option (rb_path * rb_color * rb_tree * dl_group * rb_tree) :=
  match t with
  | RbNull => None
  | RbNode c l g r =>
      if existsb (fun x => Nat.eqb (rq_id x) id) (rqs g) then Some (p, c, l, g, r)
      else
        match rb_locate id l (RbLeftOf c g r :: p) with
        | Some x => Some x
        | None => rb_locate id r (RbRightOf c l g :: p)
        end
  end.

(** [del_from_dl_tree] on the tree.  [None] is a fault: a [NULL]
    [get_rq_data(rq)] or [rd->dl_group], a pointer to a group that is not
    in the tree, or a fault of [rb_erase]. *)
Definition rb_del_from_dl_tree (t : rb_tree) (rq : request)
    : option (rb_tree * request) :=
  rd ← get_rq_data rq;
  _ ← rd_dl_group rd;
  '(p, c, l, g, r) ← rb_locate (rq_id rq) t [];
  let rq' :=
    set_elv_priv
      (Some (RqData (rd_deadline rd) (rd_pred_lat rd) (rd_block_size rd) None)) rq in
  match list_del (rq_id rq) (rqs g) with
  | [] => t' ← rb_erase c l r p; Some (t', rq')
  | rest => Some (rb_plug p (RbNode c l (DlGroup (deadline g) rest) r), rq')
  end.

(** [remove_request], for the tree. *)
Definition rb_remove_request (t : rb_tree) (rq : request)
    : option (rb_tree * request) :=
  rd ← get_rq_data rq;
  match rd_dl_group rd with
  | Some _ => rb_del_from_dl_tree t rq
  | None => Some (t, rq)
  end.

(** The request with address [id] as the tree holds it. *)
Definition rb_lookup (t : rb_tree) (id : nat) : option request :=
  find (fun r => Nat.eqb (rq_id r) id) (concat (map rqs (rb_inorder t))).

(** The operations of [dl_op] on the tree. *)
Definition rb_step (ad : adios_data) (t : rb_tree) (op : dl_op)
    : option rb_tree :=
  match op with
  | DlAdd rq alloc_ok =>
      '(t', _) ← rb_add_to_dl_tree alloc_ok ad t rq; Some t'
  | DlDel id =>
      match rb_lookup t id with
      | Some rq => '(t', _) ← rb_remove_request t rq; Some t'
      | None => Some t
      end
  end.

Fixpoint rb_run (ad : adios_data) (t : rb_tree) (ops : list dl_op)
    : option rb_tree :=
  match ops with
  | [] => Some t
  | op :: ops' => t' ← rb_step ad t op; rb_run ad t' ops'
  end.

(** ** Deadlines that are far apart *)

(** A scheduler whose latency targets have been stored as 2^63 for reads and
    2^62 for writes ([adios_lat_target_store] takes any [unsigned long]),
    and 0 for discards. *)
Definition far_target_ad : adios_data :=
  set_latency_target (Optypes (2 ^ 63) (2 ^ 62) 0 0) (init_adios_data 0).

(** A parser that accepts exactly the texts of 2^63, 2^62 and 0. *)
Definition far_kstrto (page : string) : kstrto_result :=
  if String.eqb page "9223372036854775808" then KValue (2 ^ 63)
  else if String.eqb page "4611686018427387904" then KValue (2 ^ 62)
  else if String.eqb page "0" then KValue 0
  else KError EINVAL.

(** A discard, two reads and a write of 512 bytes; the reads arrive at time
    1, the others at time 0. *)
Definition far_discard : request :=
  Request 1 REQ_OP_DISCARD 0 0 512 (Some zero_rq_data).
Definition far_read (id : nat) : request :=
  Request id REQ_OP_READ 1 0 512 (Some zero_rq_data).
Definition far_write : request :=
  Request 3 REQ_OP_WRITE 0 0 512 (Some zero_rq_data).

(** * Properties *)

(** ** Machine arithmetic *)

Lemma wrap64_range x : is_u64 (wrap64 x).
Proof. unfold is_u64, wrap64. apply Z.mod_pos_bound. lia. Qed.

Lemma wrap32_range x : is_u32 (wrap32 x).
Proof. unfold is_u32, wrap32. apply Z.mod_pos_bound. lia. Qed.

Lemma wrap64_id x : is_u64 x -> wrap64 x = x.
Proof. unfold is_u64, wrap64. intros H. apply Z.mod_small. lia. Qed.

Lemma wrap32_id x : is_u32 x -> wrap32 x = x.
Proof. unfold is_u32, wrap32. intros H. apply Z.mod_small. lia. Qed.

Lemma wrap64_add_r x y : wrap64 (x + wrap64 y) = wrap64 (x + y).
Proof. unfold wrap64. apply Zplus_mod_idemp_r. Qed.

Lemma wrap64_add_l x y : wrap64 (wrap64 x + y) = wrap64 (x + y).
Proof. unfold wrap64. apply Zplus_mod_idemp_l. Qed.

Lemma oget_oset_eq {A} o (x : A) v : oget o (oset o x v) = x.
Proof. by destruct o. Qed.

Lemma oget_oset_ne {A} o o' (x : A) v : o <> o' -> oget o' (oset o x v) = oget o' v.
Proof. by destruct o, o'. Qed.

Lemma pget_pset_eq {A} p (x : A) v : pget p (pset p x v) = x.
Proof. unfold pget, pset. by destruct (p =? 0). Qed.

(** ** Prediction *)

Lemma DIV_ROUND_UP_ULL_ceil x :
  0 <= x -> x + 1023 < 2 ^ 64 -> DIV_ROUND_UP_ULL x 1024 = ceil_div x 1024.
Proof.
  intros H0 H1. unfold DIV_ROUND_UP_ULL, ceil_div.
  rewrite wrap64_id by (unfold is_u64; lia).
  symmetry. apply Z.div_unique with (r := 1023 - (- x) mod 1024).
  - left. pose proof (Z.mod_pos_bound (- x) 1024). lia.
  - pose proof (Z.div_mod (- x) 1024). lia.
Qed.

Lemma ceil_div_nonneg x : 0 <= x -> 0 <= ceil_div x 1024.
Proof.
  intros H. unfold ceil_div.
  assert ((- x) / 1024 <= 0) by (apply Z.div_le_upper_bound; lia). lia.
Qed.

(** C4. For every model and every request size (a [u64]),
    [latency_model_predict] returns [base] when the size is at most the
    4096-byte threshold and [base + slope * ceil((size - 4096) / 1024)]
    otherwise. The sum is the code's [u64] sum, that is the value modulo
    2^64; whenever the exact sum fits in 64 bits it is returned as it is. *)
Theorem latency_model_predict_spec (m : latency_model) (block_size : Z) :
  is_u64 block_size ->
  latency_model_predict m block_size =
    (if block_size <=? LM_BLOCK_SIZE_THRESHOLD then base m
     else wrap64 (base m + slope m *
                    ceil_div (block_size - LM_BLOCK_SIZE_THRESHOLD) 1024))
  /\ (LM_BLOCK_SIZE_THRESHOLD < block_size ->
      0 <= base m -> 0 <= slope m ->
      base m + slope m * ceil_div (block_size - LM_BLOCK_SIZE_THRESHOLD) 1024
        < 2 ^ 64 ->
      latency_model_predict m block_size =
        base m + slope m * ceil_div (block_size - LM_BLOCK_SIZE_THRESHOLD) 1024).
Proof.
  intros Hbs. unfold is_u64 in Hbs.
  assert (Hgen : LM_BLOCK_SIZE_THRESHOLD < block_size ->
    latency_model_predict m block_size =
      wrap64 (base m + slope m *
                ceil_div (block_size - LM_BLOCK_SIZE_THRESHOLD) 1024)).
  { intros Hlt. unfold latency_model_predict.
    destruct (Z.ltb_spec LM_BLOCK_SIZE_THRESHOLD block_size); [|lia].
    unfold LM_BLOCK_SIZE_THRESHOLD in *.
    rewrite (wrap64_id (block_size - 4096)) by (unfold is_u64; lia).
    rewrite DIV_ROUND_UP_ULL_ceil by lia.
    apply wrap64_add_r. }
  split.
  - destruct (Z.leb_spec block_size LM_BLOCK_SIZE_THRESHOLD) as [Hle|Hgt].
    + unfold latency_model_predict.
      destruct (Z.ltb_spec LM_BLOCK_SIZE_THRESHOLD block_size); [lia|done].
    + by apply Hgen.
  - intros Hlt Hb Hs Hfit. rewrite Hgen by done.
    apply wrap64_id. unfold is_u64. split; [|done].
    pose proof (ceil_div_nonneg (block_size - LM_BLOCK_SIZE_THRESHOLD)).
    unfold LM_BLOCK_SIZE_THRESHOLD in *. nia.
Qed.

Lemma latency_model_predict_spec_witness :
  latency_model_predict (Model 1000 7 0 0 0 0 0 zero_buckets zero_buckets) 6000
  = 1000 + 7 * 2.
Proof.
  pose proof (latency_model_predict_spec
                (Model 1000 7 0 0 0 0 0 zero_buckets zero_buckets) 6000) as H.
  destruct H as [_ H]; [unfold is_u64; lia|].
  rewrite H; [reflexivity | unfold LM_BLOCK_SIZE_THRESHOLD; lia | simpl; lia
             | simpl; lia | vm_compute; reflexivity].
Defined.

(** ** The sysfs stores *)

Lemma errno_pos e : 0 < errno e.
Proof. destruct e; simpl; lia. Qed.

Ltac rejected := simpl; split; [lia | done].

(** The tests the stores make.  Where a store turns its input down (text
    the parser rejects, a batch limit of zero, a refill ratio outside
    0..100, a reset value other than 1) it returns a negative value and
    leaves the module globals and the scheduler data, latency models
    included, exactly as they were. *)
Lemma adios_store_rejects_invalid
    (kstrtoul kstrtoint : string -> kstrto_result)
    (t : tunable) (st : sysfs_state) (page : string) (count : Z) :
  invalid_input kstrtoul kstrtoint t page ->
  fst (adios_store kstrtoul kstrtoint t st page count) < 0
  /\ snd (adios_store kstrtoul kstrtoint t st page count) = st.
Proof.
  pose proof (errno_pos EINVAL) as Hinv.
  destruct t; simpl;
    unfold adios_lat_target_store, adios_batch_limit_store,
      adios_global_latency_window_store, adios_bq_refill_below_ratio_store,
      adios_reset_bq_stats_store, adios_reset_lat_model_store.
  - intros [e ->]. pose proof (errno_pos e). rejected.
  - intros [[e ->] | ->]; rejected.
  - intros [e ->]. pose proof (errno_pos e). rejected.
  - intros [[e ->] | (v & -> & Hv)]; [rejected|].
    destruct (Z.ltb_spec v 0), (Z.ltb_spec 100 v); try rejected; lia.
  - intros [[e ->] | (v & -> & Hv)]; [rejected|].
    destruct (Z.eqb_spec v 1); [done | rejected].
  - intros [[e ->] | (v & -> & Hv)]; [rejected|].
    destruct (Z.eqb_spec v 1); [done | rejected].
Qed.

Lemma adios_store_rejects_invalid_witness :
  let st := (default_globals, init_adios_data 0) in
  invalid_input toy_kstrto toy_kstrto bq_refill_below_ratio_attr "101"
  /\ fst (adios_store toy_kstrto toy_kstrto bq_refill_below_ratio_attr st "101" 4) < 0
  /\ snd (adios_store toy_kstrto toy_kstrto bq_refill_below_ratio_attr st "101" 4) = st.
Proof.
  intros st.
  assert (H : invalid_input toy_kstrto toy_kstrto bq_refill_below_ratio_attr "101").
  { right. exists 101. split; [reflexivity | lia]. }
  split; [exact H|].
  exact (adios_store_rejects_invalid toy_kstrto toy_kstrto
           bq_refill_below_ratio_attr st "101" 4 H).
Defined.

(** C9.  A batch limit outside the range of its [u32] field is not turned
    down.  The text "4294967296" (2^32) written to the batch limit of the
    writes is accepted, the store returning its [count]: the value passes
    the test [max_batch == 0] as an [unsigned long] and is narrowed by the
    assignment to the [u32] field, which is left holding 0, the very limit
    that the same store refuses with [-EINVAL] when the text is "0". *)
Theorem batch_limit_narrowed :
  let st := (default_globals, init_adios_data 0) in
  let r := adios_batch_limit_store toy_kstrto ADIOS_WRITE st "4294967296" 11 in
  fst r = 11
  /\ oget ADIOS_WRITE (batch_limit (snd (snd r))) = 0
  /\ snd r <> st
  /\ adios_batch_limit_store toy_kstrto ADIOS_WRITE st "0" 2 = (- errno EINVAL, st).
Proof. repeat split; try reflexivity. vm_compute. discriminate. Qed.

(** The same for every parser and every value whose low 32 bits are zero. *)
Lemma batch_limit_narrowed_any
    (kstrtoul : string -> kstrto_result) (o : adios_op_type)
    (st : sysfs_state) (page : string) (count v : Z) :
  kstrtoul page = KValue v -> v <> 0 -> wrap32 v = 0 ->
  adios_batch_limit_store kstrtoul o st page count
  = (to_s64 count,
     (fst st, set_batch_limit (oset o 0 (batch_limit (snd st))) (snd st))).
Proof.
  intros Hp Hv Hw. unfold adios_batch_limit_store. rewrite Hp.
  destruct (Z.eqb_spec v 0); [done|]. by rewrite Hw.
Qed.

(** C10. A successful store of a latency target for an operation type
    writes the target and also sets that type's model [base] to zero, so
    the model is uncalibrated again; the other fields of the model are
    kept. *)
Theorem adios_lat_target_store_resets_base
    (kstrtoul : string -> kstrto_result)
    (optype : adios_op_type) (st : sysfs_state) (page : string)
    (count nsec : Z) :
  kstrtoul page = KValue nsec ->
  let r := adios_lat_target_store kstrtoul optype st page count in
  let m := oget optype (lat_model (snd st)) in
  let m' := oget optype (lat_model (snd (snd r))) in
  fst r = to_s64 count
  /\ oget optype (latency_target (snd (snd r))) = nsec
  /\ base m' = 0
  /\ m' = set_base 0 m.
Proof.
  intros Hp. unfold adios_lat_target_store. rewrite Hp. simpl.
  rewrite !oget_oset_eq. done.
Qed.

Lemma adios_lat_target_store_resets_base_witness :
  let calibrated := Model 3000 5 3000 1 0 0 0 zero_buckets zero_buckets in
  let st := (default_globals,
             set_lat_model (oconst calibrated) (init_adios_data 0)) in
  toy_kstrto "8" = KValue 8
  /\ base (oget ADIOS_READ (lat_model (snd st))) = 3000
  /\ base (oget ADIOS_READ
             (lat_model (snd (snd (adios_lat_target_store toy_kstrto
                                     ADIOS_READ st "8" 2))))) = 0.
Proof.
  intros calibrated st.
  split; [reflexivity|]. split; [reflexivity|].
  exact (proj1 (proj2 (proj2
    (adios_lat_target_store_resets_base toy_kstrto ADIOS_READ st "8" 2 8
       eq_refl)))).
Defined.

(** ** The priority queue *)

Lemma set_prio_queue_same ad : set_prio_queue (prio_queue ad) ad = ad.
Proof. by destruct ad. Qed.

Lemma set_prio_queue_twice q q' ad :
  set_prio_queue q (set_prio_queue q' ad) = set_prio_queue q ad.
Proof. done. Qed.

Lemma insert_at_head_all ad (l : list (request * insert_env)) flags :
  Z.land flags BLK_MQ_INSERT_AT_HEAD <> 0 ->
  adios_insert_requests ad l flags
  = Some (set_prio_queue (rev (map fst l) ++ prio_queue ad) ad).
Proof.
  intros Hf. revert ad. induction l as [|[rq env] l IH]; intros ad; simpl.
  - by rewrite set_prio_queue_same.
  - unfold insert_request.
    destruct (Z.eqb_spec (Z.land flags BLK_MQ_INSERT_AT_HEAD) 0); [done|].
    simpl. rewrite IH. simpl. by rewrite <- app_assoc.
Qed.

Lemma pq_pops_app l q ad :
  pq_pops (length l) (set_prio_queue (l ++ q) ad) = (l, set_prio_queue q ad).
Proof.
  revert ad. induction l as [|r l IH]; intros ad; simpl; [done|].
  rewrite set_prio_queue_twice. by rewrite (IH ad).
Qed.

(** C1 as the code has it. Requests inserted with [BLK_MQ_INSERT_AT_HEAD]
    are put at the front of the priority queue and [dispatch_from_pq] takes
    from the front: after any sequence of such insertions the queue holds
    them newest first ahead of what it held before, the next request
    dispatched is the one inserted last, and as many dispatches as there
    were insertions return them in the reverse of the order of insertion
    and leave the scheduler as it was before them. *)
Theorem prio_queue_dispatches_newest_first
    (ad : adios_data) (l : list (request * insert_env)) (flags : Z) :
  Z.land flags BLK_MQ_INSERT_AT_HEAD <> 0 ->
  exists ad',
    adios_insert_requests ad l flags = Some ad'
    /\ prio_queue ad' = rev (map fst l) ++ prio_queue ad
    /\ (forall rq env l0, l = l0 ++ [(rq, env)] ->
        fst (dispatch_from_pq ad') = Some rq)
    /\ pq_pops (length l) ad' = (rev (map fst l), ad).
Proof.
  intros Hf. eexists. split; [by apply insert_at_head_all|].
  split; [done|]. split.
  - intros rq env l0 ->. unfold dispatch_from_pq. simpl.
    rewrite map_app, rev_app_distr. done.
  - replace (length l) with (length (rev (map fst l)))
      by (by rewrite length_rev, length_map).
    rewrite pq_pops_app. by rewrite set_prio_queue_same.
Qed.

Lemma prio_queue_dispatches_newest_first_witness :
  Z.land 1 BLK_MQ_INSERT_AT_HEAD <> 0
  /\ exists ad',
      adios_insert_requests (init_adios_data 0)
        [(read_rq 1 10 512, merge_none); (read_rq 2 20 512, merge_none)] 1
      = Some ad'
      /\ pq_pops 2 ad'
         = ([read_rq 2 20 512; read_rq 1 10 512], init_adios_data 0).
Proof.
  assert (H : Z.land 1 BLK_MQ_INSERT_AT_HEAD <> 0) by (vm_compute; discriminate).
  split; [exact H|].
  destruct (prio_queue_dispatches_newest_first (init_adios_data 0)
              [(read_rq 1 10 512, merge_none); (read_rq 2 20 512, merge_none)]
              1 H) as (ad' & H1 & _ & _ & H4).
  exists ad'. split; [exact H1 | exact H4].
Defined.

(** C1 as stated fails: two requests are inserted at the head of an empty
    priority queue, request 1 first; the first dispatch returns request 2. *)
Lemma prio_queue_not_fifo :
  exists ad',
    adios_insert_requests (init_adios_data 0)
      [(read_rq 1 10 512, merge_none); (read_rq 2 20 512, merge_none)]
      BLK_MQ_INSERT_AT_HEAD
    = Some ad'
    /\ fst (dispatch_from_pq ad') = Some (read_rq 2 20 512)
    /\ fst (dispatch_from_pq ad') <> Some (read_rq 1 10 512).
Proof.
  eexists. split; [reflexivity|]. split; [reflexivity|]. discriminate.
Qed.

(** ** Shrinking the accumulators *)

Lemma lm_shrink_quarter x : is_u64 x -> lm_shrink x = x - x / 4.
Proof.
  unfold is_u64. intros H. unfold lm_shrink, LM_SHRINK_RESIST.
  rewrite Z.shiftr_div_pow2 by lia. change (2 ^ 2) with 4.
  apply wrap64_id. unfold is_u64.
  assert (0 <= x / 4) by (apply Z.div_pos; lia).
  assert (x / 4 <= x) by (apply Z.div_le_upper_bound; lia). lia.
Qed.

Lemma lm_small_shrinks_iff m :
  lm_small_shrinks m = true <-> 10000000 <= small_count m.
Proof.
  unfold lm_small_shrinks, LM_SHRINK_AT_MREQ, LM_SHRINK_RESIST.
  rewrite andb_true_iff, negb_true_iff, Z.leb_le, Z.eqb_neq.
  rewrite Z.shiftr_div_pow2 by lia. change (2 ^ 2) with 4.
  split; [lia|]. intros H. split; [lia|].
  assert (1 <= small_count m / 4) by (apply Z.div_le_lower_bound; lia). lia.
Qed.

Lemma lm_large_shrinks_iff m :
  lm_large_shrinks m = true <-> 107374182400 <= large_sum_bsize m.
Proof.
  unfold lm_large_shrinks, LM_SHRINK_AT_GBYTES, LM_SHRINK_RESIST.
  rewrite andb_true_iff, negb_true_iff, Z.leb_le, Z.eqb_neq.
  rewrite Z.shiftr_div_pow2 by lia. change (2 ^ 2) with 4.
  split; [lia|]. intros H. split; [lia|].
  assert (1 <= large_sum_bsize m / 4) by (apply Z.div_le_lower_bound; lia). lia.
Qed.

Lemma lm_update_small_buckets_sums m total_count count_all :
  let tr := lm_small_trim (small_bucket m)
              (lm_threshold_count total_count count_all) in
  let m' := lm_update_small_buckets m total_count count_all in
  small_sum_delay m' =
    wrap64 ((if lm_small_shrinks m then lm_shrink (small_sum_delay m)
             else small_sum_delay m) + fst tr)
  /\ small_count m' =
    wrap64 ((if lm_small_shrinks m then lm_shrink (small_count m)
             else small_count m) + snd tr).
Proof.
  unfold lm_update_small_buckets.
  destruct (lm_small_trim _ _) as [sum_lat sum_cnt]. simpl. done.
Qed.

Lemma lm_update_large_buckets_sums m total_count count_all :
  let thr := lm_threshold_count total_count count_all in
  let tr := lm_large_trim (large_bucket m) thr in
  let m' := lm_update_large_buckets m total_count count_all in
  large_sum_delay m' =
    wrap64 ((if lm_large_shrinks m then lm_shrink (large_sum_delay m)
             else large_sum_delay m)
            + lm_correct_intercept (fst tr) (lm_intercept m thr))
  /\ large_sum_bsize m' =
    wrap64 ((if lm_large_shrinks m then lm_shrink (large_sum_bsize m)
             else large_sum_bsize m) + snd tr).
Proof.
  unfold lm_update_large_buckets.
  destruct (lm_large_trim _ _) as [sum_lat sum_bsz]. simpl. done.
Qed.

(** C2 as the code has it. When [small_count] has reached 10 million, an
    aggregation pass over the small histogram takes a quarter off
    [small_sum_delay] and off [small_count] (each keeps [x - x / 4], the
    shift being by [LM_SHRINK_RESIST = 2] bits) before it adds the trimmed
    sums; when [large_sum_bsize] has reached 100 GiB a pass over the large
    histogram does the same to [large_sum_delay] and [large_sum_bsize]. *)
Theorem lm_update_shrinks_by_a_quarter
    (m : latency_model) (total_count : Z) (count_all : bool) :
  model_ok m ->
  let thr := lm_threshold_count total_count count_all in
  (10000000 <= small_count m ->
   let m' := lm_update_small_buckets m total_count count_all in
   small_sum_delay m' =
     wrap64 (small_sum_delay m - small_sum_delay m / 4
             + fst (lm_small_trim (small_bucket m) thr))
   /\ small_count m' =
     wrap64 (small_count m - small_count m / 4
             + snd (lm_small_trim (small_bucket m) thr)))
  /\ (107374182400 <= large_sum_bsize m ->
      let m' := lm_update_large_buckets m total_count count_all in
      large_sum_delay m' =
        wrap64 (large_sum_delay m - large_sum_delay m / 4
                + lm_correct_intercept (fst (lm_large_trim (large_bucket m) thr))
                    (lm_intercept m thr))
      /\ large_sum_bsize m' =
        wrap64 (large_sum_bsize m - large_sum_bsize m / 4
                + snd (lm_large_trim (large_bucket m) thr))).
Proof.
  intros [Hb Hs Hssd Hsc Hlsd Hlsb] thr. split.
  - intros Hge m'.
    destruct (lm_update_small_buckets_sums m total_count count_all) as [H1 H2].
    apply lm_small_shrinks_iff in Hge. rewrite Hge in H1, H2.
    rewrite lm_shrink_quarter in H1, H2 by done. done.
  - intros Hge m'.
    destruct (lm_update_large_buckets_sums m total_count count_all) as [H1 H2].
    apply lm_large_shrinks_iff in Hge. rewrite Hge in H1, H2.
    rewrite lm_shrink_quarter in H1, H2 by done. done.
Qed.

Lemma full_small_model_ok : model_ok full_small_model.
Proof. split; unfold is_u64; simpl; lia. Qed.

Lemma full_large_model_ok : model_ok full_large_model.
Proof. split; unfold is_u64; simpl; lia. Qed.

Lemma lm_update_shrinks_by_a_quarter_witness :
  (10000000 <= small_count full_small_model
   /\ small_count (lm_update_small_buckets full_small_model 2 false)
      = wrap64 (10000000 - 10000000 / 4 + 1))
  /\ (107374182400 <= large_sum_bsize full_large_model
      /\ large_sum_bsize (lm_update_large_buckets full_large_model 1 true)
         = wrap64 (107374182400 - 107374182400 / 4 + 8192)).
Proof.
  assert (H1 : 10000000 <= small_count full_small_model) by (simpl; lia).
  assert (H2 : 107374182400 <= large_sum_bsize full_large_model) by (simpl; lia).
  split; split; [exact H1 | | exact H2 | ].
  - exact (proj2 (proj1 (lm_update_shrinks_by_a_quarter full_small_model 2 false
                           full_small_model_ok) H1)).
  - exact (proj2 (proj2 (lm_update_shrinks_by_a_quarter full_large_model 1 true
                           full_large_model_ok) H2)).
Defined.

(** C2 as stated fails: with [small_count] at 10 million and two samples in
    the histogram, the pass (run here through [latency_model_update], 2000
    jiffies after the last update) folds in a trimmed sum of 4 over a
    trimmed count of 1 and leaves [small_count = 7500001] and
    [small_sum_delay = 30000004]; halving would have left 5000001 and
    20000004. *)
Lemma lm_update_does_not_halve :
  10000000 <= small_count full_small_model
  /\ lm_small_trim (small_bucket full_small_model) (lm_threshold_count 2 false)
     = (4, 1)
  /\ exists m',
      latency_model_update 2000 1500 full_small_model = Some m'
      /\ small_count m' = 7500001
      /\ small_sum_delay m' = 30000004
      /\ small_count m' <> small_count full_small_model / 2 + 1
      /\ small_sum_delay m' <> small_sum_delay full_small_model / 2 + 4.
Proof.
  split; [simpl; lia|]. split; [vm_compute; reflexivity|].
  eexists. split; [vm_compute; reflexivity|].
  simpl. repeat split; try reflexivity; vm_compute; discriminate.
Qed.

(** ** The intercept correction *)

(** C3 as the code has it. In a pass over the large histogram the
    intercept [base * threshold_count] is taken off the trimmed latency sum
    before that sum is added to [large_sum_delay] only when the trimmed sum
    is strictly greater than the intercept; otherwise the trimmed sum is
    added as it is. *)
Theorem lm_large_intercept_guarded
    (m : latency_model) (total_count : Z) (count_all : bool) :
  let thr := lm_threshold_count total_count count_all in
  let sum_lat := fst (lm_large_trim (large_bucket m) thr) in
  let intercept := wrap64 (base m * thr) in
  let acc := if lm_large_shrinks m then lm_shrink (large_sum_delay m)
             else large_sum_delay m in
  let m' := lm_update_large_buckets m total_count count_all in
  (intercept < sum_lat ->
   large_sum_delay m' = wrap64 (acc + (sum_lat - intercept)))
  /\ (sum_lat <= intercept ->
      large_sum_delay m' = wrap64 (acc + sum_lat)).
Proof.
  intros thr sum_lat intercept acc m'.
  destruct (lm_update_large_buckets_sums m total_count count_all) as [H _].
  fold thr sum_lat in H. unfold lm_intercept in H. fold intercept acc m' in H.
  unfold lm_correct_intercept in H. split; intros Hc.
  - destruct (Z.ltb_spec intercept sum_lat); [|lia].
    by rewrite wrap64_add_r in H.
  - destruct (Z.ltb_spec intercept sum_lat); [lia|done].
Qed.

Lemma lm_large_intercept_guarded_witness :
  let m := set_large_bucket (<[10%nat := Bucket 1 500 8192]> zero_buckets)
             base_only_model in
  wrap64 (base m * lm_threshold_count 1 true)
    < fst (lm_large_trim (large_bucket m) (lm_threshold_count 1 true))
  /\ large_sum_delay (lm_update_large_buckets m 1 true) = wrap64 (0 + (500 - 100)).
Proof.
  intros m.
  assert (H : wrap64 (base m * lm_threshold_count 1 true)
              < fst (lm_large_trim (large_bucket m) (lm_threshold_count 1 true)))
    by (vm_compute; reflexivity).
  split; [exact H|].
  exact (proj1 (lm_large_intercept_guarded m 1 true) H).
Defined.

(** C3 as stated fails: on a model with [base = 100] a large request
    predicted at 100 completes in 50.  The next pass has a trimmed latency
    sum of 50 and an intercept of 100, subtracts nothing and leaves
    [large_sum_delay = 50]. *)
Lemma lm_large_intercept_not_always_subtracted :
  exists m1 m2,
    latency_model_input 0 1500 base_only_model 8192 50 100 = Some m1
    /\ lm_count_large_entries m1 = 1
    /\ fst (lm_large_trim (large_bucket m1) (lm_threshold_count 1 true)) = 50
    /\ base m1 * lm_threshold_count 1 true = 100
    /\ latency_model_update 2000 1500 m1 = Some m2
    /\ large_sum_delay m2 = 50
    /\ large_sum_delay m2 <> wrap64 (large_sum_delay m1 + (50 - 100)).
Proof.
  do 2 eexists. split; [vm_compute; reflexivity|].
  split; [vm_compute; reflexivity|]. split; [vm_compute; reflexivity|].
  split; [vm_compute; reflexivity|]. split; [vm_compute; reflexivity|].
  split; [reflexivity|]. vm_compute. discriminate.
Qed.

(** ** Bootstrap from the first sample *)

Lemma alter_replicate {A} (f : A -> A) (x : A) (n i : nat) :
  (i < n)%nat ->
  alter f i (replicate n x)
  = replicate i x ++ f x :: replicate (n - S i) x.
Proof.
  revert i. induction n as [|n IH]; intros i Hi; [lia|].
  destruct i as [|i]; simpl.
  - by rewrite Nat.sub_0_r.
  - f_equal. apply IH. lia.
Qed.

Lemma count_entries_zeros (n : nat) (acc : Z) :
  is_u32 acc ->
  fold_left (fun total b => wrap32 (total + count b))
    (replicate n zero_bucket) acc = acc.
Proof.
  intros Hacc. induction n as [|n IH]; simpl; [done|].
  rewrite Z.add_0_r, (wrap32_id acc) by done. exact IH.
Qed.

Lemma count_entries_single (a c : nat) (b : latency_bucket) :
  lm_count_entries (replicate a zero_bucket ++ b :: replicate c zero_bucket)
  = wrap32 (count b).
Proof.
  unfold lm_count_entries. rewrite fold_left_app.
  rewrite count_entries_zeros by (unfold is_u32; lia). simpl.
  apply count_entries_zeros, wrap32_range.
Qed.

Lemma sum_zeros (f : latency_bucket -> Z) (n : nat) :
  f zero_bucket = 0 ->
  fold_left (fun s b => wrap64 (s + f b)) (replicate n zero_bucket) 0 = 0.
Proof. intros Hf. induction n as [|n IH]; simpl; [done|]. by rewrite Hf. Qed.

Lemma find_threshold_single (a : nat) (b : latency_bucket)
    (rest : list latency_bucket) (i0 : nat) :
  count b = 1 ->
  lm_find_threshold (replicate a zero_bucket ++ b :: rest) i0 0 1
  = (1, (i0 + a)%nat).
Proof.
  intros Hb. revert i0. induction a as [|a IH]; intros i0; simpl.
  - rewrite Hb. simpl. by rewrite Nat.add_0_r.
  - rewrite IH. f_equal. lia.
Qed.

Lemma small_trim_single (a : nat) (L : Z) (rest : list latency_bucket) :
  is_u64 L ->
  lm_small_trim (replicate a zero_bucket ++ Bucket 1 L 0 :: rest) 1 = (L, 1).
Proof.
  intros HL. unfold lm_small_trim.
  rewrite find_threshold_single by done. simpl.
  rewrite take_app_length' by (by rewrite length_replicate).
  rewrite !sum_zeros by done.
  rewrite list_lookup_middle by (by rewrite length_replicate). simpl.
  unfold lm_share, lm_remaining_count. simpl.
  change (wrap64 (1 - 1)) with 0. change (wrap64 (1 - 0)) with 1.
  rewrite Z.mul_1_r, Z.div_1_r, Z.add_0_l, !(wrap64_id L) by done.
  reflexivity.
Qed.

Lemma lm_clamp_index_lt x : 0 <= x -> (lm_clamp_index x < LM_LAT_BUCKET_COUNT)%nat.
Proof.
  intros Hx. unfold lm_clamp_index, LM_LAT_BUCKET_COUNT.
  destruct (Z.leb_spec (Z.of_nat 64) x); lia.
Qed.

Lemma lm_input_bucket_index_nonneg measured predicted :
  0 <= lm_input_bucket_index measured predicted.
Proof.
  unfold lm_input_bucket_index.
  repeat case_match; apply wrap32_range.
Qed.

Lemma update_single_sample (now interval s lsd lsb luj L : Z) (a c : nat) :
  is_u64 L ->
  latency_model_update now interval
    (Model 0 s 0 0 lsd lsb luj
       (replicate a zero_bucket ++ Bucket 1 L 0 :: replicate c zero_bucket)
       zero_buckets)
  = Some (Model L s L 1 lsd lsb now zero_buckets zero_buckets).
Proof.
  intros HL. unfold latency_model_update.
  unfold lm_count_small_entries, lm_count_large_entries.
  cbn [base small_bucket large_bucket Z.eqb orb].
  rewrite count_entries_single. cbn [count].
  change (wrap32 1) with 1.
  change (lm_count_entries zero_buckets) with 0.
  cbn [Z.eqb negb andb orb].
  unfold lm_update_small_buckets.
  cbn [base small_bucket large_bucket Z.eqb orb].
  change (lm_threshold_count 1 true) with 1.
  rewrite small_trim_single by done.
  change (lm_small_shrinks _) with false. cbv iota.
  cbn [base slope small_sum_delay small_count large_sum_delay large_sum_bsize
       last_update_jiffies small_bucket large_bucket].
  rewrite !Z.add_0_l, !(wrap64_id L) by done.
  change (wrap64 1) with 1.
  cbn [Z.eqb negb andb orb].
  unfold div_u64. change (wrap32 1) with 1. cbn [Z.eqb].
  rewrite Z.div_1_r. reflexivity.
Qed.

(** C8 as the code has it. On a model with [base = 0], both histograms
    empty and the running small accumulators [small_sum_delay] and
    [small_count] at zero (a model just initialised or reset), a single
    small sample of latency [L] runs the forced update inside
    [latency_model_input] and leaves [base = L]. *)
Theorem first_small_sample_sets_base
    (now interval : Z) (m : latency_model) (block_size L pred_lat : Z) :
  base m = 0 ->
  small_bucket m = zero_buckets ->
  large_bucket m = zero_buckets ->
  small_sum_delay m = 0 ->
  small_count m = 0 ->
  block_size <= LM_BLOCK_SIZE_THRESHOLD ->
  is_u64 L ->
  exists m',
    latency_model_input now interval m block_size L pred_lat = Some m'
    /\ base m' = L
    /\ small_bucket m' = zero_buckets.
Proof.
  intros Hbase Hsb Hlb Hssd Hsc Hbs HL.
  destruct m as [b s ssd sc lsd lsb luj sb lb]. simpl in *. subst.
  unfold latency_model_input.
  destruct (Z.leb_spec block_size LM_BLOCK_SIZE_THRESHOLD); [|lia].
  cbn [base Z.eqb set_small_bucket small_bucket].
  set (i := lm_clamp_index (lm_input_bucket_index L 1)).
  assert (Hi : (i < 64)%nat)
    by apply lm_clamp_index_lt, lm_input_bucket_index_nonneg.
  unfold zero_buckets at 1. unfold LM_LAT_BUCKET_COUNT at 1.
  rewrite alter_replicate by done.
  unfold bucket_add_small, set_small_bucket.
  cbn [base slope small_sum_delay small_count large_sum_delay large_sum_bsize
       last_update_jiffies small_bucket large_bucket
       count sum_latency sum_block_size zero_bucket].
  change (wrap64 (0 + 1)) with 1. rewrite Z.add_0_l, (wrap64_id L) by done.
  rewrite update_single_sample by done.
  eexists. split; [reflexivity|]. done.
Qed.

Lemma first_small_sample_sets_base_witness :
  exists m',
    latency_model_input 0 1500 (init_model 0) 4096 3000000 0 = Some m'
    /\ base m' = 3000000.
Proof.
  destruct (first_small_sample_sets_base 0 1500 (init_model 0) 4096 3000000 0)
    as (m' & H1 & H2 & _);
    [reflexivity | reflexivity | reflexivity | reflexivity | reflexivity
    | unfold LM_BLOCK_SIZE_THRESHOLD; lia | unfold is_u64; lia |].
  exists m'. split; [exact H1 | exact H2].
Defined.

(** C8 as stated fails. A fresh model is calibrated by one small sample of
    latency 1000; a latency target is then stored, which sets [base] back
    to zero and keeps the accumulators; both histograms are empty.  The next
    small sample, of latency 3000, sets [base] to 2000. *)
Lemma first_small_sample_after_retarget :
  exists m1 m2,
    latency_model_input 0 1500 (init_model 0) 4096 1000 0 = Some m1
    /\ base m1 = 1000
    /\ oget ADIOS_READ
         (lat_model (snd (snd
            (adios_lat_target_store toy_kstrto ADIOS_READ
               (default_globals,
                set_lat_model (oconst m1) (init_adios_data 0)) "8" 2))))
       = set_base 0 m1
    /\ base (set_base 0 m1) = 0
    /\ small_bucket (set_base 0 m1) = zero_buckets
    /\ large_bucket (set_base 0 m1) = zero_buckets
    /\ latency_model_input 0 1500 (set_base 0 m1) 4096 3000 0 = Some m2
    /\ base m2 = 2000
    /\ base m2 <> 3000.
Proof.
  do 2 eexists. split; [vm_compute; reflexivity|].
  repeat (split; [vm_compute; reflexivity|]). vm_compute. discriminate.
Qed.

(** ** The deadline tree *)

Lemma s64_diff d k :
  0 <= d < 2 ^ 63 -> 0 <= k < 2 ^ 63 -> to_s64 (wrap64 (d - k)) = d - k.
Proof.
  intros Hd Hk. unfold to_s64, wrap64.
  destruct (Z.le_gt_cases k d).
  - rewrite Z.mod_small by lia. destruct (Z.ltb_spec (d - k) (2 ^ 63)); lia.
  - replace ((d - k) mod 2 ^ 64) with (d - k + 2 ^ 64).
    + destruct (Z.ltb_spec (d - k + 2 ^ 64) (2 ^ 63)); lia.
    + apply Z.mod_unique with (q := -1); lia.
Qed.

Lemma s64_diff_zero d k :
  is_u64 d -> is_u64 k -> to_s64 (wrap64 (d - k)) = 0 -> d = k.
Proof.
  unfold is_u64. intros Hd Hk H.
  pose proof (wrap64_range (d - k)) as Hr. unfold is_u64 in Hr.
  unfold to_s64 in H.
  destruct (Z.ltb_spec (wrap64 (d - k)) (2 ^ 63)); [|lia].
  unfold wrap64 in H.
  destruct (Z.le_gt_cases k d).
  - rewrite Z.mod_small in H by lia. lia.
  - assert ((d - k) mod 2 ^ 64 = d - k + 2 ^ 64)
      by (symmetry; apply Z.mod_unique with (q := -1); lia).
    lia.
Qed.

Lemma keys_sorted_app_inv ks1 k ks2 :
  keys_sorted (ks1 ++ k :: ks2) ->
  Forall (fun k' => k' < k) ks1 /\ Forall (Z.lt k) ks2
  /\ keys_sorted ks1 /\ keys_sorted ks2 /\ keys_sorted (ks1 ++ ks2).
Proof.
  induction ks1 as [|k1 ks1 IH]; simpl.
  - intros [H1 H2]. repeat split; auto.
  - intros [H1 H2]. destruct (IH H2) as (I1 & I2 & I3 & I4 & I5).
    apply Forall_app in H1 as [H1a H1b]. inversion H1b; subst.
    repeat split; auto. apply Forall_app; auto.
Qed.

Lemma keys_sorted_NoDup ks : keys_sorted ks -> NoDup ks.
Proof.
  induction ks as [|k ks IH]; simpl; [constructor|].
  intros [H1 H2]. constructor; [|auto].
  intros Hin. apply list_elem_of_In in Hin.
  rewrite List.Forall_forall in H1. apply H1 in Hin. lia.
Qed.

Lemma dl_tree_wf_nil : dl_tree_wf [].
Proof. split; [constructor | exact I]. Qed.

Lemma dl_tree_wf_keys_u64 t :
  dl_tree_wf t -> Forall (fun g => is_u64 (deadline g)) t.
Proof.
  intros [H _]. eapply Forall_impl; [exact H|].
  intros g (Hr & _). unfold is_u64. lia.
Qed.

(** *** Linking *)

Lemma dl_link_alloc t d rq : is_Some (dl_link true t d rq).
Proof.
  induction t as [|g t IH]; simpl; [done|].
  repeat case_match; try done. destruct IH as [t' ->]. done.
Qed.

(** Where [dl_link] succeeds the request is the last one of a group whose
    deadline is the key it was linked under. *)
Lemma dl_link_linked b t d rq t' :
  Forall (fun g => is_u64 (deadline g)) t -> is_u64 d ->
  dl_link b t d rq = Some t' ->
  exists t1 g t2 l,
    t' = t1 ++ g :: t2 /\ deadline g = d /\ rqs g = l ++ [rq].
Proof.
  intros Ht Hd. revert t'. induction Ht as [|g t Hg Ht IH]; intros t'; simpl.
  - destruct b; [|done]. intros [= <-].
    by exists [], (DlGroup d [rq]), [], [].
  - destruct (Z.ltb_spec (to_s64 (wrap64 (d - deadline g))) 0) as [Hlt|Hge].
    { destruct b; [|done]. intros [= <-].
      by exists [], (DlGroup d [rq]), (g :: t), []. }
    destruct (Z.ltb_spec 0 (to_s64 (wrap64 (d - deadline g)))) as [Hgt|Hle].
    + destruct (dl_link b t d rq) as [t''|] eqn:E; [|done].
      simpl. intros [= <-].
      destruct (IH t'' eq_refl) as (t1 & g' & t2 & l & -> & H1 & H2).
      by exists (g :: t1), g', t2, l.
    + intros [= <-].
      assert (d = deadline g) by (apply s64_diff_zero; [done..|lia]).
      exists [], (DlGroup (deadline g) (rqs g ++ [rq])), t, (rqs g).
      simpl. done.
Qed.

(** A request whose deadline is that of an existing group joins that
    group, whether or not memory is available. *)
Lemma dl_link_found b t1 g t2 rq :
  dl_tree_wf (t1 ++ g :: t2) ->
  dl_link b (t1 ++ g :: t2) (deadline g) rq
  = Some (t1 ++ DlGroup (deadline g) (rqs g ++ [rq]) :: t2).
Proof.
  intros [Hok Hs]. revert Hok Hs.
  induction t1 as [|g1 t1 IH]; simpl; intros Hok Hs.
  - rewrite Z.sub_diag. change (to_s64 (wrap64 0)) with 0. done.
  - destruct Hs as [Hlt Hs]. inversion Hok as [|? ? Hg1 Hok']; subst.
    rewrite map_app in Hlt. apply Forall_app in Hlt as [_ Hlt].
    simpl in Hlt. inversion Hlt as [|? ? Hlt1 _]; subst.
    apply Forall_app in Hok' as Hok''. destruct Hok'' as [_ Hg].
    inversion Hg as [|? ? Hgok _]; subst.
    rewrite s64_diff by (apply Hgok || apply Hg1).
    destruct (Z.ltb_spec (deadline g - deadline g1) 0); [lia|].
    destruct (Z.ltb_spec 0 (deadline g - deadline g1)); [|lia].
    rewrite IH by done. done.
Qed.

Lemma dl_link_wf b t d rq t' :
  dl_tree_wf t -> 0 <= d < 2 ^ 63 -> linked_in d rq ->
  dl_link b t d rq = Some t' ->
  dl_tree_wf t'
  /\ (forall k, In k (map deadline t') <-> k = d \/ In k (map deadline t)).
Proof.
  intros [Hok Hs] Hd Hrq. revert t' Hok Hs.
  assert (Hnew : group_ok (DlGroup d [rq])).
  { split; [done|]. split; [done|]. by constructor. }
  induction t as [|g t IH]; intros t' Hok Hs; simpl.
  - destruct b; [|done]. intros [= <-]. split.
    + split; [by constructor | simpl; auto].
    + intros k. simpl. intuition congruence.
  - inversion Hok as [|? ? Hg Hok']; subst. destruct Hs as [Hlt Hs].
    rewrite s64_diff by (done || apply Hg).
    destruct (Z.ltb_spec (d - deadline g) 0) as [Hneg|Hnneg].
    { destruct b; [|done]. intros [= <-]. split.
      - split; [by constructor|]. simpl. split; [|done].
        constructor; [lia|]. eapply Forall_impl; [exact Hlt|].
        simpl. intros; lia.
      - intros k. simpl. intuition congruence. }
    destruct (Z.ltb_spec 0 (d - deadline g)) as [Hpos|Hnpos].
    + destruct (dl_link b t d rq) as [t''|] eqn:E; [|done].
      simpl. intros [= <-].
      destruct (IH t'' Hok' Hs eq_refl) as [[Hok'' Hs''] Hkeys].
      split.
      * split; [by constructor|]. simpl. split; [|done].
        rewrite List.Forall_forall. intros k Hk. apply Hkeys in Hk as [->|Hk]; [lia|].
        rewrite List.Forall_forall in Hlt. by apply Hlt.
      * intros k. simpl. rewrite Hkeys. intuition congruence.
    + intros [= <-]. assert (d = deadline g) as -> by lia. split.
      * split; [|done]. constructor; [|done].
        destruct Hg as (H1 & H2 & H3). split; [done|]. simpl. split.
        -- by destruct (rqs g).
        -- apply Forall_app. split; [done|]. by constructor.
      * intros k. simpl. intuition congruence.
Qed.

(** *** Unlinking *)

Lemma list_del_other id l r :
  In r l -> rq_id r <> id -> In r (list_del id l).
Proof.
  induction l as [|x l IH]; simpl; [done|].
  intros [->|Hin] Hne.
  - destruct (Nat.eqb_spec (rq_id r) id); [done|]. by left.
  - destruct (Nat.eqb_spec (rq_id x) id); [done|]. right. auto.
Qed.

Lemma list_del_Forall (P : request -> Prop) id l :
  Forall P l -> Forall P (list_del id l).
Proof.
  induction 1 as [|x l Hx Hl IH]; simpl; [constructor|].
  destruct (Nat.eqb (rq_id x) id); [done | by constructor].
Qed.

Lemma list_del_length id l r :
  In r l -> rq_id r = id -> length l = S (length (list_del id l)).
Proof.
  induction l as [|x l IH]; simpl; [done|].
  intros Hin Hid. destruct (Nat.eqb_spec (rq_id x) id); [done|].
  simpl. f_equal. apply IH; [|done]. destruct Hin as [->|Hin]; done.
Qed.

(** Unlinking a request from the group [g] touches no other group; the
    group keeps its remaining requests or, when none remains, is erased. *)
Lemma dl_unlink_at t1 g t2 id :
  keys_sorted (map deadline (t1 ++ g :: t2)) ->
  dl_unlink (t1 ++ g :: t2) (deadline g) id
  = t1 ++ match list_del id (rqs g) with
          | [] => t2
          | l => DlGroup (deadline g) l :: t2
          end.
Proof.
  induction t1 as [|g1 t1 IH]; simpl.
  - intros _. by rewrite Z.eqb_refl.
  - intros [Hlt Hs]. rewrite map_app in Hlt. apply Forall_app in Hlt as [_ Hlt].
    simpl in Hlt. inversion Hlt; subst.
    destruct (Z.eqb_spec (deadline g1) (deadline g)); [lia|].
    by rewrite IH.
Qed.

Lemma dl_unlink_wf t d id : dl_tree_wf t -> dl_tree_wf (dl_unlink t d id).
Proof.
  intros [Hok Hs]. induction t as [|g t IH]; simpl; [by split|].
  inversion Hok as [|? ? Hg Hok']; subst. destruct Hs as [Hlt Hs].
  destruct (Z.eqb_spec (deadline g) d) as [<-|Hne].
  - destruct (list_del id (rqs g)) as [|r l] eqn:E; [by split|].
    split; [|done]. constructor; [|done].
    destruct Hg as (H1 & H2 & H3). split; [done|]. simpl. split; [done|].
    rewrite <- E. by apply list_del_Forall.
  - destruct (IH Hok' Hs) as [Hok'' Hs'']. split; [by constructor|].
    simpl. split; [|done].
    clear -Hlt. induction t as [|g' t IH]; simpl; [constructor|].
    inversion Hlt; subst.
    destruct (deadline g' =? d); [|constructor; auto].
    destruct (list_del id (rqs g')); [done | constructor; auto].
Qed.

(** *** [add_to_dl_tree] and [remove_request] *)

Lemma rq_deadline_u64 ad rq : is_u64 (rq_deadline ad rq).
Proof. apply wrap64_range. Qed.


Lemma rq_deadline_ext ad ad' rq :
  lat_model ad' = lat_model ad -> latency_target ad' = latency_target ad ->
  rq_deadline ad' rq = rq_deadline ad rq.
Proof. unfold rq_deadline, rq_pred_lat. by intros -> ->. Qed.

Lemma add_to_dl_tree_wf b ad rq ad' rq' :
  dl_tree_wf (dl_tree ad) -> rq_deadline ad rq < 2 ^ 63 ->
  add_to_dl_tree b ad rq = Some (ad', rq') ->
  dl_tree_wf (dl_tree ad')
  /\ lat_model ad' = lat_model ad /\ latency_target ad' = latency_target ad.
Proof.
  intros Hwf Hd. unfold add_to_dl_tree.
  destruct (get_rq_data rq) as [rd|]; [|done]. simpl.
  destruct (dl_link _ _ _ _) as [t|] eqn:E; intros [= <- <-]; [|done].
  simpl. split; [|done].
  eapply dl_link_wf; [exact Hwf | | | exact E].
  - pose proof (rq_deadline_u64 ad rq) as H. unfold is_u64 in H. lia.
  - eexists. simpl. done.
Qed.

Lemma remove_request_linked ad rq d :
  linked_in d rq ->
  exists rq',
    remove_request ad rq
    = Some (set_dl_tree (dl_unlink (dl_tree ad) d (rq_id rq)) ad, rq')
    /\ rq_id rq' = rq_id rq
    /\ (exists rd', get_rq_data rq' = Some rd' /\ rd_dl_group rd' = None
                    /\ forall rd, get_rq_data rq = Some rd ->
                         rd_pred_lat rd' = rd_pred_lat rd)
    /\ adios_optype rq' = adios_optype rq.
Proof.
  intros (rd & Hrd & Hg). unfold remove_request, del_from_dl_tree, get_rq_data.
  rewrite Hrd. simpl. rewrite Hg. simpl.
  eexists. split; [reflexivity|]. split; [done|]. split; [|done].
  eexists. split; [reflexivity|]. split; [done|]. by intros ? [= <-].
Qed.

Lemma remove_request_wf ad rq ad' rq' :
  dl_tree_wf (dl_tree ad) ->
  remove_request ad rq = Some (ad', rq') ->
  dl_tree_wf (dl_tree ad')
  /\ lat_model ad' = lat_model ad /\ latency_target ad' = latency_target ad.
Proof.
  intros Hwf. unfold remove_request, del_from_dl_tree.
  destruct (get_rq_data rq) as [rd|]; simpl; [|done].
  destruct (rd_dl_group rd) as [d|]; simpl.
  - intros [= <- <-]. simpl. split; [|done]. by apply dl_unlink_wf.
  - by intros [= <- <-].
Qed.

Lemma dl_lookup_in ad id rq :
  dl_lookup ad id = Some rq ->
  exists g, In g (dl_tree ad) /\ In rq (rqs g) /\ rq_id rq = id.
Proof.
  unfold dl_lookup. intros H. apply find_some in H as [Hin Hid].
  apply in_concat in Hin as (l & Hl & Hin).
  apply in_map_iff in Hl as (g & <- & Hg).
  exists g. split; [done|]. split; [done|]. by apply Nat.eqb_eq.
Qed.

Lemma dl_tree_wf_linked t g rq :
  dl_tree_wf t -> In g t -> In rq (rqs g) -> linked_in (deadline g) rq.
Proof.
  intros [Hok _] Hg Hrq. rewrite List.Forall_forall in Hok.
  destruct (Hok g Hg) as (_ & _ & H). rewrite List.Forall_forall in H. auto.
Qed.

Lemma dl_step_wf ad op :
  dl_tree_wf (dl_tree ad) ->
  (forall rq b, op = DlAdd rq b ->
     is_Some (elv_priv rq) /\ rq_deadline ad rq < 2 ^ 63) ->
  exists ad',
    dl_step ad op = Some ad' /\ dl_tree_wf (dl_tree ad')
    /\ lat_model ad' = lat_model ad /\ latency_target ad' = latency_target ad.
Proof.
  intros Hwf Hop. destruct op as [rq b|id]; simpl.
  - destruct (Hop rq b eq_refl) as [[rd Hrd] Hd].
    destruct (add_to_dl_tree b ad rq) as [[ad' rq']|] eqn:E.
    + simpl. exists ad'. split; [done|]. by eapply add_to_dl_tree_wf.
    + unfold add_to_dl_tree, get_rq_data in E. rewrite Hrd in E. simpl in E.
      by destruct (dl_link _ _ _ _).
  - destruct (dl_lookup ad id) as [rq|] eqn:E; [|by exists ad].
    apply dl_lookup_in in E as (g & Hg & Hrq & _).
    pose proof (dl_tree_wf_linked _ _ _ Hwf Hg Hrq) as Hl.
    destruct (remove_request_linked ad rq _ Hl) as (rq' & Hr & _).
    rewrite Hr. simpl. eexists. split; [done|].
    eapply remove_request_wf; [exact Hwf | exact Hr].
Qed.

Lemma dl_run_wf ad ops :
  dl_tree_wf (dl_tree ad) ->
  Forall (fun rq => is_Some (elv_priv rq) /\ rq_deadline ad rq < 2 ^ 63)
    (dl_added ops) ->
  exists ad',
    dl_run ad ops = Some ad' /\ dl_tree_wf (dl_tree ad')
    /\ lat_model ad' = lat_model ad /\ latency_target ad' = latency_target ad.
Proof.
  revert ad. induction ops as [|op ops IH]; intros ad Hwf Hops; simpl.
  - by exists ad.
  - destruct (dl_step_wf ad op Hwf) as (ad1 & Hs & Hwf1 & Hm & Ht).
    { intros rq b ->. simpl in Hops. by inversion Hops. }
    rewrite Hs. simpl.
    destruct (IH ad1 Hwf1) as (ad' & Hr & Hwf' & Hm' & Ht').
    { assert (Hops' : Forall
        (fun rq => is_Some (elv_priv rq) /\ rq_deadline ad rq < 2 ^ 63)
        (dl_added ops)).
      { destruct op; simpl in Hops; [by inversion Hops | done]. }
      eapply Forall_impl; [exact Hops'|]. simpl. intros rq [H1 H2].
      split; [done|]. by rewrite (rq_deadline_ext ad ad1). }
    exists ad'. split; [done|]. split; [done|]. split; congruence.
Qed.



(** Where [dl_link] puts a request: into a new group between two
    neighbours, or at the end of the group with its deadline. *)
Lemma dl_link_shape t d rq t' :
  dl_tree_wf t -> 0 <= d < 2 ^ 63 ->
  dl_link true t d rq = Some t' ->
  (exists t1 t2, t = t1 ++ t2 /\ t' = t1 ++ DlGroup d [rq] :: t2)
  \/ (exists t1 g t2,
        t = t1 ++ g :: t2 /\ deadline g = d
        /\ t' = t1 ++ DlGroup d (rqs g ++ [rq]) :: t2).
Proof.
  intros [Hok _] Hd. revert t'.
  induction Hok as [|g t Hg Hok IH]; intros t'; simpl.
  - intros [= <-]. left. by exists [], [].
  - rewrite s64_diff by (done || apply Hg).
    destruct (Z.ltb_spec (d - deadline g) 0).
    { intros [= <-]. left. by exists [], (g :: t). }
    destruct (Z.ltb_spec 0 (d - deadline g)).
    + destruct (dl_link true t d rq) as [t''|]; [|done]. simpl. intros [= <-].
      destruct (IH t'' eq_refl) as [(t1 & t2 & -> & ->)
                                   | (t1 & g' & t2 & -> & Hd' & ->)].
      * left. by exists (g :: t1), t2.
      * right. by exists (g :: t1), g', t2.
    + intros [= <-]. assert (deadline g = d) as Hgd by lia.
      right. exists [], g, t. simpl. by rewrite Hgd.
Qed.

(** C7 as the code has it.  Starting from the empty tree, after any
    sequence of [add_to_dl_tree] and [remove_request] calls on prepared
    requests whose deadlines are below 2^63 (where the signed difference of
    the descent is the order of the integers) no two groups have the same
    deadline.  Moreover, in the state reached: a request whose deadline is
    that of a group is appended to that group and the other groups are
    untouched; removing the only request of a group erases the group and
    nothing else; removing a request from a group that holds another leaves
    the group in place with every other request still in it; and a request
    whose deadline is that of no group gets a new group of its own, the
    other groups staying as they are. *)
Theorem dl_tree_groups_unique (ad0 : adios_data) (ops : list dl_op) :
  dl_tree ad0 = [] ->
  Forall (fun rq => is_Some (elv_priv rq) /\ rq_deadline ad0 rq < 2 ^ 63)
    (dl_added ops) ->
  exists ad,
    dl_run ad0 ops = Some ad
    /\ NoDup (map deadline (dl_tree ad))
    /\ (forall t1 g t2 rq b,
          dl_tree ad = t1 ++ g :: t2 ->
          is_Some (elv_priv rq) ->
          rq_deadline ad rq = deadline g ->
          exists ad' rq',
            add_to_dl_tree b ad rq = Some (ad', rq')
            /\ rq_id rq' = rq_id rq
            /\ dl_tree ad' = t1 ++ DlGroup (deadline g) (rqs g ++ [rq']) :: t2)
    /\ (forall t1 g t2 rq,
          dl_tree ad = t1 ++ g :: t2 ->
          rqs g = [rq] ->
          exists ad' rq',
            remove_request ad rq = Some (ad', rq')
            /\ dl_tree ad' = t1 ++ t2)
    /\ (forall t1 g t2 rq,
          dl_tree ad = t1 ++ g :: t2 ->
          In rq (rqs g) ->
          (exists r, In r (rqs g) /\ rq_id r <> rq_id rq) ->
          exists ad' rq' l,
            remove_request ad rq = Some (ad', rq')
            /\ dl_tree ad' = t1 ++ DlGroup (deadline g) l :: t2
            /\ forall r, In r (rqs g) -> rq_id r <> rq_id rq -> In r l)
    /\ (forall rq,
          is_Some (elv_priv rq) ->
          rq_deadline ad rq < 2 ^ 63 ->
          ~ In (rq_deadline ad rq) (map deadline (dl_tree ad)) ->
          exists ad' rq' t1 t2,
            add_to_dl_tree true ad rq = Some (ad', rq')
            /\ rq_id rq' = rq_id rq
            /\ dl_tree ad = t1 ++ t2
            /\ dl_tree ad' = t1 ++ DlGroup (rq_deadline ad rq) [rq'] :: t2).
Proof.
  intros Hnil Hops.
  destruct (dl_run_wf ad0 ops) as (ad & Hrun & Hwf & _ & _);
    [rewrite Hnil; exact dl_tree_wf_nil | exact Hops |].
  exists ad. split; [exact Hrun|]. split; [|split; [|split; [|split]]].
  - apply keys_sorted_NoDup, Hwf.
  - intros t1 g t2 rq b Ht [rd Hrd] Hd.
    unfold add_to_dl_tree, get_rq_data. rewrite Hrd, Hd, Ht.
    cbn [mbind option_bind]. cbv zeta.
    rewrite dl_link_found by (by rewrite <- Ht).
    do 2 eexists. split; [reflexivity|]. split; [done|]. done.
  - intros t1 g t2 rq Ht Hg.
    assert (Hl : linked_in (deadline g) rq).
    { eapply dl_tree_wf_linked; [exact Hwf | | ].
      - rewrite Ht. apply in_elt.
      - rewrite Hg. by left. }
    destruct (remove_request_linked ad rq _ Hl) as (rq' & Hr & _).
    rewrite Hr. do 2 eexists. split; [reflexivity|]. simpl.
    rewrite Ht, dl_unlink_at by (rewrite <- Ht; apply Hwf).
    rewrite Hg. simpl. by rewrite Nat.eqb_refl.
  - intros t1 g t2 rq Ht Hin (r & Hr & Hne).
    assert (Hl : linked_in (deadline g) rq).
    { eapply dl_tree_wf_linked; [exact Hwf | | exact Hin].
      rewrite Ht. apply in_elt. }
    destruct (remove_request_linked ad rq _ Hl) as (rq' & Hrem & _).
    rewrite Hrem. exists (set_dl_tree (dl_unlink (dl_tree ad) (deadline g)
                                         (rq_id rq)) ad), rq',
      (list_del (rq_id rq) (rqs g)).
    split; [reflexivity|]. split.
    + simpl. rewrite Ht, dl_unlink_at by (rewrite <- Ht; apply Hwf).
      pose proof (list_del_other (rq_id rq) (rqs g) r Hr Hne) as Hr'.
      by destruct (list_del (rq_id rq) (rqs g)).
    + intros r0 H0 Hne0. by apply list_del_other.
  - intros rq [rd Hrd] Hd63 Hnew.
    set (d := rq_deadline ad rq) in *.
    assert (Hd : 0 <= d < 2 ^ 63).
    { pose proof (wrap64_range
        (wrap64 (start_time_ns rq + oget (adios_optype rq) (latency_target ad))
         + rq_pred_lat ad rq)) as Hr.
      unfold is_u64 in Hr. unfold d, rq_deadline in *. lia. }
    unfold add_to_dl_tree, get_rq_data. rewrite Hrd.
    cbn [mbind option_bind]. cbv zeta. fold d.
    set (linked := set_elv_priv (Some (RqData d _ _ (Some d))) rq).
    destruct (dl_link_alloc (dl_tree ad) d linked) as [t' Ht'].
    rewrite Ht'.
    destruct (dl_link_shape (dl_tree ad) d linked t' Hwf Hd Ht')
      as [(t1 & t2 & H1 & H2) | (t1 & g & t2 & H1 & Hg & _)].
    + exists (set_dl_tree t' ad), linked, t1, t2.
      split; [done|]. split; [done|]. split; [done|]. by rewrite <- H2.
    + exfalso. apply Hnew. rewrite H1, map_app. apply in_or_app. right.
      left. exact Hg.
Qed.

Lemma dl_tree_groups_unique_witness :
  let ops := [DlAdd rq_a true; DlAdd rq_b true; DlAdd rq_c true; DlDel 1%nat] in
  dl_tree (init_adios_data 0) = []
  /\ exists ad,
      dl_run (init_adios_data 0) ops = Some ad
      /\ NoDup (map deadline (dl_tree ad)).
Proof.
  intros ops. split; [reflexivity|].
  destruct (dl_tree_groups_unique (init_adios_data 0) ops) as (ad & H1 & H2 & _).
  - reflexivity.
  - repeat (constructor; [split; [by eexists | vm_compute; reflexivity]|]).
    constructor.
  - exists ad. split; [exact H1 | exact H2].
Defined.

(** Two requests of the same size that arrive together share a group;
    removing one leaves the other in the group, removing both erases it. *)
Example same_deadline_same_group :
  (ad1 ← dl_run (init_adios_data 0) [DlAdd rq_a true; DlAdd rq_b true];
   Some (map (fun g => (deadline g, map rq_id (rqs g))) (dl_tree ad1)))
  = Some [(2001000, [1; 2]%nat)]
  /\ (ad2 ← dl_run (init_adios_data 0)
              [DlAdd rq_a true; DlAdd rq_b true; DlDel 1%nat];
      Some (map (fun g => (deadline g, map rq_id (rqs g))) (dl_tree ad2)))
     = Some [(2001000, [2]%nat)]
  /\ (ad3 ← dl_run (init_adios_data 0)
              [DlAdd rq_a true; DlAdd rq_b true; DlDel 1%nat; DlDel 2%nat];
      Some (dl_tree ad3))
     = Some [].
Proof. repeat split; vm_compute; reflexivity. Qed.

(** ** The fill pass *)

Lemma dl_tree_size_cons g t :
  dl_tree_size (g :: t) = (length (rqs g) + dl_tree_size t)%nat.
Proof. unfold dl_tree_size. simpl. by rewrite length_app. Qed.

Section FillLoop.

Variables (glw page : Z).

(** What one turn of the loop does on a well-formed tree. *)
Lemma fill_iter_cases st :
  dl_tree_wf (dl_tree (fs_ad st)) ->
  (dl_tree (fs_ad st) = [] /\ fill_iter glw page st = FillStop st)
  \/ exists g t rq l rd,
      dl_tree (fs_ad st) = g :: t /\ rqs g = rq :: l
      /\ get_ealiest_request (fs_ad st) = Some rq
      /\ get_rq_data rq = Some rd
      /\ let optype := adios_optype rq in
         let cl := wrap64 (fs_current_lat st + rd_pred_lat rd) in
         let brk := negb (fs_count st =? 0)
                    && fill_breaks glw page (fs_ad st) optype cl in
         (brk = true
          /\ fill_iter glw page st
             = FillStop (FillState (fs_ad st) cl (fs_count st)
                           (fs_optype_count st)))
         \/ (brk = false
             /\ exists rq1 st',
                 fill_iter glw page st = FillStaged rq1 st'
                 /\ rq_id rq1 = rq_id rq
                 /\ adios_optype rq1 = optype
                 /\ dl_tree (fs_ad st')
                    = match l with [] => t | _ => DlGroup (deadline g) l :: t end
                 /\ fs_count st' = wrap32 (fs_count st + 1)
                 /\ fs_current_lat st' = cl
                 /\ lat_model (fs_ad st') = lat_model (fs_ad st)
                 /\ batch_limit (fs_ad st') = batch_limit (fs_ad st)
                 /\ pget page (batch_queue (fs_ad st'))
                    = oset optype
                        (oget optype (pget page (batch_queue (fs_ad st)))
                         ++ [rq1])
                        (pget page (batch_queue (fs_ad st)))).
Proof.
  intros Hwf. unfold fill_iter, get_ealiest_request.
  destruct (dl_tree (fs_ad st)) as [|g t] eqn:Ht; [by left|]. right.
  pose proof Hwf as [Hok Hs]. inversion Hok as [|? ? Hg _]; subst.
  destruct Hg as (_ & Hne & Hl).
  destruct (rqs g) as [|rq l] eqn:Hrqs; [done|].
  inversion Hl as [|? ? Hrq _]; subst. pose proof Hrq as (rd & Hrd & Hgrp).
  exists g, t, rq, l, rd. split; [done|]. split; [done|]. split; [done|].
  split; [done|]. simpl. unfold get_rq_data. rewrite Hrd.
  destruct (negb (fs_count st =? 0) && _) eqn:Hb; [by left|]. right.
  split; [done|].
  destruct (remove_request_linked (fs_ad st) rq _ Hrq)
    as (rq1 & Hrem & Hid & _ & Hop).
  rewrite Hrem. do 2 eexists. split; [reflexivity|].
  split; [done|]. split; [done|]. simpl. rewrite pget_pset_eq.
  split; [|done].
  rewrite Ht. simpl. rewrite Z.eqb_refl, Hrqs. simpl.
  rewrite Nat.eqb_refl. by destruct l.
Qed.

Lemma fill_stop_same st st' :
  fill_iter glw page st = FillStop st' ->
  fs_ad st' = fs_ad st /\ fs_count st' = fs_count st.
Proof.
  unfold fill_iter. repeat case_match; try done; by intros [= <-].
Qed.

(** The state kept along the turns of the loop. *)
Lemma fill_reach_inv st k st' :
  dl_tree_wf (dl_tree (fs_ad st)) ->
  is_u32 (fs_count st) ->
  fill_reach glw page st k st' ->
  dl_tree_wf (dl_tree (fs_ad st'))
  /\ (dl_tree_size (dl_tree (fs_ad st')) + k
      = dl_tree_size (dl_tree (fs_ad st)))%nat
  /\ fs_count st' = wrap32 (fs_count st + Z.of_nat k)
  /\ lat_model (fs_ad st') = lat_model (fs_ad st)
  /\ batch_limit (fs_ad st') = batch_limit (fs_ad st)
  /\ (forall o r,
        In r (oget o (pget page (batch_queue (fs_ad st)))) ->
        In r (oget o (pget page (batch_queue (fs_ad st'))))).
Proof.
  intros Hwf Hc. induction 1 as [|k st1 rq st2 Hreach IH Hit].
  - split; [done|]. split; [lia|]. split; [|done].
    by rewrite Z.add_0_r, wrap32_id.
  - destruct IH as (Hwf1 & Hsz & Hcnt & Hm & Hl & Hq).
    destruct (fill_iter_cases st1 Hwf1)
      as [[_ Hstop] | (g & t & rq0 & l & rd & Ht & Hrqs & _ & _ & Hcase)];
      [congruence|].
    simpl in Hcase.
    destruct Hcase as [[_ Hstop] | (_ & rq1 & st' & Hst & _ & _ & Htree & Hcnt'
                                     & _ & Hm' & Hl' & Hq')]; [congruence|].
    rewrite Hit in Hst. injection Hst as <- <-.
    split; [|split; [|split; [|split; [|split]]]].
    + rewrite Htree. rewrite Ht in Hwf1. destruct Hwf1 as [Hok Hs].
      inversion Hok as [|? ? Hg Hok']; subst. destruct Hs as [Hlt Hs].
      destruct l as [|r l]; [by split|].
      split; [|done]. constructor; [|done].
      destruct Hg as (H1 & H2 & H3). rewrite Hrqs in H3.
      inversion H3; subst. by split.
    + rewrite <- Hsz, Htree, Ht, dl_tree_size_cons, Hrqs.
      destruct l; [simpl; lia|]. rewrite dl_tree_size_cons. simpl. lia.
    + rewrite Hcnt', Hcnt. unfold wrap32.
      rewrite Zplus_mod_idemp_l. f_equal. lia.
    + congruence.
    + congruence.
    + intros o r Hin. apply Hq in Hin. rewrite Hq'.
      destruct (decide (adios_optype rq0 = o)) as [<-|Hne].
      * rewrite oget_oset_eq. apply in_or_app. by left.
      * by rewrite oget_oset_ne.
Qed.


Lemma fill_reach_prepend st rq st1 k st' :
  fill_iter glw page st = FillStaged rq st1 ->
  fill_reach glw page st1 k st' ->
  fill_reach glw page st (S k) st'.
Proof.
  intros Hit. induction 1 as [|k st2 rq2 st3 Hr IH Hit2].
  - econstructor; [constructor | exact Hit].
  - econstructor; [exact IH | exact Hit2].
Qed.

(** The loop ends: with more fuel than the tree has requests it leaves by
    its own test, after some number of turns. *)
Lemma fill_loop_total fuel st :
  dl_tree_wf (dl_tree (fs_ad st)) ->
  is_u32 (fs_count st) ->
  (dl_tree_size (dl_tree (fs_ad st)) < fuel)%nat ->
  exists k st_k st',
    fill_loop glw page fuel st = Some st'
    /\ fill_reach glw page st k st_k
    /\ fill_iter glw page st_k = FillStop st'.
Proof.
  revert st. induction fuel as [|fuel IH]; intros st Hwf Hc Hsz; [lia|].
  simpl. destruct (fill_iter glw page st) as [st'| |rq st1] eqn:Hit.
  - exists 0%nat, st, st'. split; [done|]. split; [constructor | done].
  - destruct (fill_iter_cases st Hwf)
      as [[_ Hstop] | (g & t & rq0 & l & rd & _ & _ & _ & _ & Hcase)];
      [congruence|].
    simpl in Hcase.
    destruct Hcase as [[_ H] | (_ & ? & ? & H & _)]; congruence.
  - assert (Hr : fill_reach glw page st 1 st1)
      by (econstructor; [constructor | exact Hit]).
    destruct (fill_reach_inv _ _ _ Hwf Hc Hr) as (Hwf1 & Hsz1 & Hc1 & _).
    destruct (IH st1 Hwf1) as (k & st_k & st' & Hl & Hrk & Hstop).
    + rewrite Hc1. apply wrap32_range.
    + lia.
    + exists (S k), st_k, st'. split; [done|]. split; [|done].
      eapply fill_reach_prepend; eauto.
Qed.

End FillLoop.

Lemma fill_breaks_false glw page ad optype cl :
  fill_breaks glw page ad optype cl = false ->
  base (oget optype (lat_model ad)) <> 0
  /\ oget optype (pget page (batch_count ad)) < oget optype (batch_limit ad)
  /\ cl <= glw.
Proof.
  unfold fill_breaks. rewrite !orb_false_iff.
  intros [[H1 H2] H3].
  apply Z.eqb_neq in H1. apply Z.leb_gt in H2. apply Z.ltb_ge in H3. done.
Qed.



(** With a window of 7000 and every predicted latency 3000, the pass over
    three pending reads stages the first two and leaves the third. *)
Example fill_stops_at_window :
  (ad ← dl_run calibrated_ad [DlAdd rq_a true; DlAdd rq_b true; DlAdd rq_c true];
   '(ad', r) ← fill_batch_queues 7000 ad 0;
   Some (r, map rq_id (oget ADIOS_READ (pget 1 (batch_queue ad'))),
         map (fun g => map rq_id (rqs g)) (dl_tree ad'), total_pred_lat ad'))
  = Some (true, [1; 2]%nat, [[3%nat]], 6000).
Proof. vm_compute. reflexivity. Qed.

(** On uncalibrated models only the first request is staged. *)
Example fill_uncalibrated_stages_one :
  (ad ← dl_run (init_adios_data 0)
          [DlAdd rq_a true; DlAdd rq_b true; DlAdd rq_c true];
   '(ad', r) ← fill_batch_queues 16000000 ad 0;
   Some (r, map rq_id (oget ADIOS_READ (pget 1 (batch_queue ad'))),
         map (fun g => map rq_id (rqs g)) (dl_tree ad')))
  = Some (true, [1%nat], [[2%nat]; [3%nat]]).
Proof. vm_compute. reflexivity. Qed.

(** * Further properties of the code *)

(** ** Prediction grows with the size *)

Lemma ceil_div_mono a b : a <= b -> ceil_div a 1024 <= ceil_div b 1024.
Proof.
  intros H. unfold ceil_div.
  assert ((- b) / 1024 <= (- a) / 1024) by (apply Z.div_le_mono; lia). lia.
Qed.

Lemma latency_model_predict_large m block_size :
  is_u64 block_size -> LM_BLOCK_SIZE_THRESHOLD < block_size ->
  latency_model_predict m block_size
  = wrap64 (base m + slope m *
              ceil_div (block_size - LM_BLOCK_SIZE_THRESHOLD) 1024).
Proof.
  unfold is_u64. intros Hbs Hlt. unfold latency_model_predict.
  destruct (Z.ltb_spec LM_BLOCK_SIZE_THRESHOLD block_size); [|lia].
  unfold LM_BLOCK_SIZE_THRESHOLD in *.
  rewrite (wrap64_id (block_size - 4096)) by (unfold is_u64; lia).
  rewrite DIV_ROUND_UP_ULL_ceil by lia.
  apply wrap64_add_r.
Qed.

Lemma latency_model_predict_small m block_size :
  block_size <= LM_BLOCK_SIZE_THRESHOLD ->
  latency_model_predict m block_size = base m.
Proof.
  intros H. unfold latency_model_predict.
  by destruct (Z.ltb_spec LM_BLOCK_SIZE_THRESHOLD block_size); [lia|].
Qed.

(** X1. [latency_model_predict] never decreases when the request grows, as
    long as the prediction for the larger request does not overflow 64
    bits. *)
Theorem latency_model_predict_mono (m : latency_model) (s1 s2 : Z) :
  model_ok m ->
  0 <= s1 -> s1 <= s2 -> s2 < 2 ^ 64 ->
  base m + slope m * ceil_div (s2 - LM_BLOCK_SIZE_THRESHOLD) 1024 < 2 ^ 64 ->
  latency_model_predict m s1 <= latency_model_predict m s2.
Proof.
  intros [Hb Hs _ _ _ _] H1 H12 H2 Hfit. unfold is_u64 in Hb, Hs.
  destruct (Z.le_gt_cases s2 LM_BLOCK_SIZE_THRESHOLD) as [Hle2|Hgt2].
  { rewrite !latency_model_predict_small by lia. lia. }
  pose proof (ceil_div_nonneg (s2 - LM_BLOCK_SIZE_THRESHOLD)) as Hc2.
  rewrite (latency_model_predict_large m s2) by (unfold is_u64; lia).
  rewrite (wrap64_id (base m + _))
    by (unfold is_u64, LM_BLOCK_SIZE_THRESHOLD in *; nia).
  destruct (Z.le_gt_cases s1 LM_BLOCK_SIZE_THRESHOLD) as [Hle1|Hgt1].
  { rewrite latency_model_predict_small by lia.
    unfold LM_BLOCK_SIZE_THRESHOLD in *. nia. }
  pose proof (ceil_div_nonneg (s1 - LM_BLOCK_SIZE_THRESHOLD)) as Hc1.
  pose proof (ceil_div_mono (s1 - LM_BLOCK_SIZE_THRESHOLD)
                (s2 - LM_BLOCK_SIZE_THRESHOLD)) as Hm.
  rewrite (latency_model_predict_large m s1) by (unfold is_u64; lia).
  rewrite (wrap64_id (base m + _))
    by (unfold is_u64, LM_BLOCK_SIZE_THRESHOLD in *; nia).
  unfold LM_BLOCK_SIZE_THRESHOLD in *. nia.
Qed.

Lemma calibrated_model_ok : model_ok calibrated_model.
Proof. split; unfold is_u64; simpl; lia. Qed.

Lemma latency_model_predict_mono_witness :
  latency_model_predict calibrated_model 5000
  <= latency_model_predict calibrated_model 70000.
Proof.
  apply (latency_model_predict_mono calibrated_model 5000 70000
           calibrated_model_ok); [lia | lia | lia | vm_compute; reflexivity].
Defined.

(** ** The model stays within its types *)

Lemma zero_buckets_ok : Forall bucket_ok zero_buckets.
Proof.
  apply Forall_replicate. repeat split; simpl; lia.
Qed.

Lemma zero_buckets_length : length zero_buckets = LM_LAT_BUCKET_COUNT.
Proof. apply length_replicate. Qed.

Lemma lm_update_small_buckets_inv m total_count count_all :
  model_inv m -> model_inv (lm_update_small_buckets m total_count count_all).
Proof.
  intros ([Hb Hs Hssd Hsc Hlsd Hlsb] & [Hl1 Hl2] & Hf1 & Hf2).
  unfold lm_update_small_buckets.
  destruct (lm_small_trim _ _) as [sum_lat sum_cnt].
  split; [|split; [|split]]; simpl.
  - split; simpl; try done; apply wrap64_range.
  - split; simpl; [apply zero_buckets_length | done].
  - apply zero_buckets_ok.
  - done.
Qed.

Lemma lm_update_large_buckets_inv m total_count count_all :
  model_inv m -> model_inv (lm_update_large_buckets m total_count count_all).
Proof.
  intros ([Hb Hs Hssd Hsc Hlsd Hlsb] & [Hl1 Hl2] & Hf1 & Hf2).
  unfold lm_update_large_buckets.
  destruct (lm_large_trim _ _) as [sum_lat sum_bsz].
  split; [|split; [|split]]; simpl.
  - split; simpl; try done; apply wrap64_range.
  - split; simpl; [done | apply zero_buckets_length].
  - done.
  - apply zero_buckets_ok.
Qed.

Lemma div_u64_range a d q : is_u64 a -> div_u64 a d = Some q -> is_u64 q.
Proof.
  unfold is_u64, div_u64. intros Ha.
  pose proof (wrap32_range d) as Hd. unfold is_u32 in Hd.
  destruct (Z.eqb_spec (wrap32 d) 0); [done|]. intros [= <-].
  split; [apply Z.div_pos; lia|].
  assert (a / wrap32 d <= a) by (apply Z.div_le_upper_bound; nia). lia.
Qed.

Lemma set_base_inv b m : is_u64 b -> model_inv m -> model_inv (set_base b m).
Proof.
  intros Hb ([? ? ? ? ? ?] & [? ?] & ? & ?).
  split; [split; simpl; done | repeat split; done].
Qed.

Lemma set_slope_inv s m : is_u64 s -> model_inv m -> model_inv (set_slope s m).
Proof.
  intros Hs ([? ? ? ? ? ?] & [? ?] & ? & ?).
  split; [split; simpl; done | repeat split; done].
Qed.

Lemma latency_model_update_inv now interval m m' :
  model_inv m -> latency_model_update now interval m = Some m' -> model_inv m'.
Proof.
  intros Hinv. unfold latency_model_update.
  set (te := (base m =? 0) || _).
  set (sp := negb (lm_count_small_entries m =? 0) && _).
  set (m1 := if sp then _ else m).
  set (lp := negb (lm_count_large_entries m =? 0) && _).
  set (m2 := if lp then _ else m1).
  assert (H1 : model_inv m1).
  { unfold m1. destruct sp; [by apply lm_update_small_buckets_inv | done]. }
  assert (H2 : model_inv m2).
  { unfold m2. destruct lp; [by apply lm_update_large_buckets_inv | done]. }
  intros H. apply bind_Some in H as (m3 & H3 & H).
  apply bind_Some in H as (m4 & H4 & H). injection H as <-.
  assert (Hm3 : model_inv m3).
  { destruct (sp && _); [|by injection H3 as <-].
    apply bind_Some in H3 as (b & Hb & H3). injection H3 as <-.
    apply set_base_inv; [|done]. eapply div_u64_range; [|exact Hb].
    apply H2. }
  assert (Hm4 : model_inv m4).
  { destruct (lp && _); [|by injection H4 as <-].
    apply bind_Some in H4 as (s & Hs & H4). injection H4 as <-.
    apply set_slope_inv; [|done]. eapply div_u64_range; [|exact Hs].
    apply Hm3. }
  destruct te; [|done].
  destruct Hm4 as ([? ? ? ? ? ?] & [? ?] & ? & ?).
  split; [split; simpl; done | repeat split; done].
Qed.

Lemma alter_bucket_ok f i bs :
  (forall b, bucket_ok b -> bucket_ok (f b)) ->
  Forall bucket_ok bs -> Forall bucket_ok (alter f i bs).
Proof.
  intros Hf Hbs. revert i. induction Hbs as [|b bs Hb Hbs IH]; intros i.
  - constructor.
  - destruct i as [|i]; simpl.
    + constructor; [by apply Hf | done].
    + constructor; [done | apply IH].
Qed.

Lemma latency_model_input_inv now interval m block_size latency pred_lat m' :
  model_inv m ->
  latency_model_input now interval m block_size latency pred_lat = Some m' ->
  model_inv m'.
Proof.
  intros Hinv H.
  unfold latency_model_input in H.
  pose proof Hinv as (Hok & [Hl1 Hl2] & Hf1 & Hf2).
  destruct (block_size <=? LM_BLOCK_SIZE_THRESHOLD).
  - set (i := lm_clamp_index _) in H.
    assert (Hinv' : model_inv
      (set_small_bucket (alter (bucket_add_small latency) i (small_bucket m)) m)).
    { destruct Hok. split; [|split; [|split]]; simpl; try done.
      - split; simpl; [by rewrite length_alter | done].
      - apply alter_bucket_ok; [|done].
        intros b (_ & _ & Hb). repeat split; simpl;
          try apply wrap64_range; apply Hb. }
    simpl in H. destruct (base m =? 0).
    + by eapply latency_model_update_inv.
    + by injection H as <-.
  - destruct ((base m =? 0) || (pred_lat =? 0)); [by injection H as <-|].
    injection H as <-.
    destruct Hok. split; [|split; [|split]]; simpl; try done.
    + split; simpl; [done | by rewrite length_alter].
    + apply alter_bucket_ok; [|done].
      intros b _. repeat split; simpl; apply wrap64_range.
Qed.

Lemma init_model_inv : model_inv (init_model 0).
Proof.
  split; [|split; [|split]].
  - split; unfold is_u64; simpl; lia.
  - split; apply zero_buckets_length.
  - apply zero_buckets_ok.
  - apply zero_buckets_ok.
Qed.

(** ** The percentile trim *)

Lemma hist_sum_app f l1 l2 :
  hist_sum f (l1 ++ l2) = hist_sum f l1 + hist_sum f l2.
Proof. induction l1 as [|b l1 IH]; simpl; [done|]. rewrite IH. lia. Qed.

Lemma hist_sum_nonneg f l :
  Forall (fun b => 0 <= f b) l -> 0 <= hist_sum f l.
Proof. induction 1; simpl; lia. Qed.

Lemma fold_sum_nowrap (f : latency_bucket -> Z) l acc :
  Forall (fun b => 0 <= f b) l -> 0 <= acc ->
  acc + hist_sum f l < 2 ^ 64 ->
  fold_left (fun s b => wrap64 (s + f b)) l acc = acc + hist_sum f l.
Proof.
  intros Hl. revert acc. induction Hl as [|b l Hb Hl IH]; intros acc Ha Hs.
  - simpl. lia.
  - simpl in *. pose proof (hist_sum_nonneg f l Hl).
    rewrite wrap64_id by (unfold is_u64; lia).
    rewrite IH by lia. lia.
Qed.

Lemma count_entries_nowrap l acc :
  Forall (fun b => 0 <= count b) l -> 0 <= acc ->
  acc + hist_sum count l < 2 ^ 32 ->
  fold_left (fun total b => wrap32 (total + count b)) l acc
  = acc + hist_sum count l.
Proof.
  intros Hl. revert acc. induction Hl as [|b l Hb Hl IH]; intros acc Ha Hs.
  - simpl. lia.
  - simpl in *. pose proof (hist_sum_nonneg count l Hl).
    rewrite wrap32_id by (unfold is_u32; lia).
    rewrite IH by lia. lia.
Qed.

(** Where the first loop stops: at the first bucket with which the running
    count reaches the threshold. *)
Lemma find_threshold_split suf i c thr :
  Forall (fun b => 0 <= count b) suf -> 0 <= c ->
  c + hist_sum count suf < 2 ^ 32 ->
  thr <= c + hist_sum count suf ->
  suf <> [] ->
  exists pre b rest,
    suf = pre ++ b :: rest
    /\ lm_find_threshold suf i c thr
       = (c + hist_sum count pre + count b, (i + length pre)%nat)
    /\ (pre = [] \/ c + hist_sum count pre < thr)
    /\ thr <= c + hist_sum count pre + count b.
Proof.
  intros Hl. revert i c.
  induction Hl as [|b suf Hb Hl IH]; intros i c Hc Hs Hthr Hne; [done|].
  simpl in *. pose proof (hist_sum_nonneg count suf Hl) as Hn.
  rewrite wrap32_id by (unfold is_u32; lia).
  destruct (Z.leb_spec thr (c + count b)) as [Hle|Hgt].
  - exists [], b, suf. simpl. rewrite Nat.add_0_r, Z.add_0_r.
    split; [done|]. split; [done|]. split; [by left | lia].
  - assert (Hne' : suf <> []) by (intros ->; simpl in *; lia).
    destruct (IH (S i) (c + count b)) as (pre & b' & rest & -> & Hf & Hp & Ht);
      [lia.. | done |].
    exists (b :: pre), b', rest. simpl. split; [done|].
    rewrite Hf. split; [f_equal; lia|].
    split; [right; destruct Hp as [->|Hp]; simpl; lia | lia].
Qed.

(** X3. On a histogram with fewer than 42,949,673 samples in all (so that
    [total_count * 100] fits the [u32] it is computed in), whose latency
    sums add up to less than 2^64 and have, bucket by bucket, a product
    with the bucket's count below 2^64 (so that the proportional share does
    not wrap), the trim of [lm_update_small_buckets] accounts for exactly
    [threshold_count] samples: every sample when [count_all] is set and 99
    in 100 of them (rounded down) otherwise.  The trimmed latency sum is
    never more than the sum over the whole histogram.  Beyond the first
    bound the product wraps and the threshold is no longer 99 in 100
    ([lm_threshold_wraps]). *)
Theorem lm_small_trim_exact (bs : list latency_bucket) (count_all : bool) :
  Forall (fun b => 0 <= count b /\ 0 <= sum_latency b
                   /\ sum_latency b * count b < 2 ^ 64) bs ->
  hist_sum count bs * 100 < 2 ^ 32 ->
  hist_sum sum_latency bs < 2 ^ 64 ->
  let total := lm_count_entries bs in
  let thr := lm_threshold_count total count_all in
  total = hist_sum count bs
  /\ thr = (if count_all then total else total * 99 / 100)
  /\ snd (lm_small_trim bs thr) = thr
  /\ 0 <= fst (lm_small_trim bs thr) <= hist_sum sum_latency bs.
Proof.
  intros Hbs Htot Hlat total thr.
  assert (Hc : Forall (fun b => 0 <= count b) bs)
    by (eapply Forall_impl; [exact Hbs | simpl; tauto]).
  assert (Hl : Forall (fun b => 0 <= sum_latency b) bs)
    by (eapply Forall_impl; [exact Hbs | simpl; tauto]).
  pose proof (hist_sum_nonneg count bs Hc) as Hn.
  assert (Htotal : total = hist_sum count bs).
  { unfold total, lm_count_entries.
    rewrite count_entries_nowrap by (done || lia). lia. }
  assert (Hthr : thr = (if count_all then total else total * 99 / 100)).
  { unfold thr, lm_threshold_count, LM_OUTLIER_PERCENTILE. rewrite Htotal.
    destruct count_all.
    - rewrite wrap32_id by (unfold is_u32; lia). by rewrite Z.div_mul.
    - rewrite wrap32_id by (unfold is_u32; lia). done. }
  assert (Hrange : 0 <= thr <= hist_sum count bs).
  { rewrite Hthr, Htotal. destruct count_all; [lia|]. split.
    - apply Z.div_pos; lia.
    - apply Z.div_le_upper_bound; lia. }
  split; [done|]. split; [done|].
  clearbody thr total. clear Hthr Htotal total.
  destruct bs as [|b0 bs0].
  { simpl in *. assert (thr = 0) as -> by lia. split; [done|].
    unfold lm_small_trim. simpl. lia. }
  remember (b0 :: bs0) as bs eqn:Ebs.
  assert (Hne : bs <> []) by (by rewrite Ebs).
  clear Ebs b0 bs0.
  destruct (find_threshold_split bs 0 0 thr) as (pre & b & rest & -> & Hf & Hp & Ht);
    [done | lia | lia | lia | done | ].
  apply Forall_app in Hbs as [Hpre Hb]. inversion Hb as [|? ? Hb0 _]; subst.
  apply Forall_app in Hc as [Hcpre Hcb]. apply Forall_app in Hl as [Hlpre Hlb].
  inversion Hlb as [|? ? _ Hlrest]; subst.
  inversion Hcb as [|? ? _ Hcrest]; subst.
  pose proof (hist_sum_nonneg count rest Hcrest).
  destruct Hb0 as (Hcb0 & Hsl & Hprod).
  rewrite hist_sum_app in Htot, Hlat, Hrange. simpl in Htot, Hlat, Hrange.
  pose proof (hist_sum_nonneg count pre Hcpre).
  pose proof (hist_sum_nonneg sum_latency pre Hlpre).
  pose proof (hist_sum_nonneg sum_latency rest Hlrest).
  unfold lm_small_trim. rewrite Hf. simpl.
  rewrite take_app_length, list_lookup_middle by done.
  rewrite !fold_sum_nowrap by (done || lia). simpl.
  unfold lm_remaining_count, lm_share.
  replace (0 + hist_sum count pre + count b - count b)
    with (hist_sum count pre) by lia.
  rewrite (wrap64_id (hist_sum count pre)) by (unfold is_u64; lia).
  assert (Hrem : 0 <= thr - hist_sum count pre <= count b).
  { destruct Hp as [->|Hp]; simpl in *; lia. }
  rewrite (wrap64_id (thr - hist_sum count pre)) by (unfold is_u64; lia).
  rewrite hist_sum_app. simpl.
  destruct (Z.ltb_spec 0 (count b)) as [Hpos|Hzero]; simpl.
  - rewrite (wrap64_id (sum_latency b * _)) by (unfold is_u64; nia).
    assert (0 <= sum_latency b * (thr - hist_sum count pre) / count b
            <= sum_latency b).
    { split; [apply Z.div_pos; nia | apply Z.div_le_upper_bound; nia]. }
    rewrite !wrap64_id by (unfold is_u64; lia). lia.
  - split; [|lia]. destruct Hp as [->|Hp]; simpl in *; lia.
Qed.

Lemma lm_small_trim_exact_witness :
  let bs := small_bucket full_small_model in
  lm_count_entries bs = 2
  /\ snd (lm_small_trim bs (lm_threshold_count 2 false)) = 2 * 99 / 100.
Proof.
  intros bs.
  destruct (lm_small_trim_exact bs false) as (H1 & H2 & H3 & _).
  - unfold bs, full_small_model, zero_buckets. simpl.
    repeat (constructor; [simpl; lia|]). constructor.
  - vm_compute. reflexivity.
  - vm_compute. reflexivity.
  - split; [vm_compute; reflexivity|].
    change (lm_count_entries bs) with 2 in H2, H3. rewrite H3. exact H2.
Defined.

(** With 50 million samples [total_count * 99] no longer fits 32 bits: the
    threshold is 6550327, about 13 in 100. *)
Example lm_threshold_wraps :
  lm_threshold_count 50000000 false = 6550327
  /\ 50000000 * 99 / 100 = 49500000.
Proof. split; reflexivity. Qed.

(** ** The two divisions of [latency_model_update] *)

Lemma lm_threshold_count_range total count_all :
  0 <= total -> total * 100 < 2 ^ 32 ->
  0 <= lm_threshold_count total count_all <= total.
Proof.
  intros H0 H1. unfold lm_threshold_count, LM_OUTLIER_PERCENTILE.
  destruct count_all.
  - rewrite wrap32_id by (unfold is_u32; lia). rewrite Z.div_mul by lia. lia.
  - rewrite wrap32_id by (unfold is_u32; lia). split.
    + apply Z.div_pos; lia.
    + apply Z.div_le_upper_bound; lia.
Qed.

(** The count the small trim accounts for is the threshold, whatever the
    latency sums do. *)
Lemma lm_small_trim_count bs thr :
  Forall (fun b => 0 <= count b) bs ->
  hist_sum count bs < 2 ^ 32 ->
  0 <= thr <= hist_sum count bs ->
  snd (lm_small_trim bs thr) = thr.
Proof.
  intros Hc Htot Hrange.
  destruct bs as [|b0 bs0].
  { simpl in *. unfold lm_small_trim. simpl. lia. }
  remember (b0 :: bs0) as bs eqn:Ebs.
  assert (Hne : bs <> []) by (by rewrite Ebs).
  clear Ebs b0 bs0.
  destruct (find_threshold_split bs 0 0 thr)
    as (pre & b & rest & -> & Hf & Hp & Ht); [done | lia | lia | lia | done | ].
  apply Forall_app in Hc as [Hcpre Hcb].
  inversion Hcb as [|? ? Hcb0 Hcrest]; subst.
  pose proof (hist_sum_nonneg count rest Hcrest).
  pose proof (hist_sum_nonneg count pre Hcpre).
  rewrite hist_sum_app in Htot, Hrange. simpl in Htot, Hrange.
  unfold lm_small_trim. rewrite Hf. simpl.
  rewrite take_app_length, list_lookup_middle by done.
  rewrite (fold_sum_nowrap count) by (done || lia). simpl.
  unfold lm_remaining_count.
  replace (0 + hist_sum count pre + count b - count b)
    with (hist_sum count pre) by lia.
  rewrite (wrap64_id (hist_sum count pre)) by (unfold is_u64; lia).
  assert (Hrem : 0 <= thr - hist_sum count pre <= count b).
  { destruct Hp as [->|Hp]; simpl in *; lia. }
  rewrite (wrap64_id (thr - hist_sum count pre)) by (unfold is_u64; lia).
  destruct (Z.ltb_spec 0 (count b)) as [Hpos|Hzero]; simpl.
  - rewrite wrap64_id by (unfold is_u64; lia). lia.
  - destruct Hp as [->|Hp]; simpl in *; lia.
Qed.

(** The block sizes the large trim accounts for are never more than the
    histogram holds. *)
Lemma lm_large_trim_bsize bs thr :
  Forall (fun b => 0 <= count b /\ 0 <= sum_block_size b) bs ->
  hist_sum count bs < 2 ^ 26 ->
  hist_sum sum_block_size bs <= 2 ^ 38 ->
  0 <= thr <= hist_sum count bs ->
  0 <= snd (lm_large_trim bs thr) <= hist_sum sum_block_size bs.
Proof.
  intros Hbs Htot Hbsz Hrange.
  assert (Hc : Forall (fun b => 0 <= count b) bs)
    by (eapply Forall_impl; [exact Hbs | simpl; tauto]).
  assert (Hz : Forall (fun b => 0 <= sum_block_size b) bs)
    by (eapply Forall_impl; [exact Hbs | simpl; tauto]).
  clear Hbs.
  destruct bs as [|b0 bs0].
  { simpl in *. unfold lm_large_trim. simpl. lia. }
  remember (b0 :: bs0) as bs eqn:Ebs.
  assert (Hne : bs <> []) by (by rewrite Ebs).
  clear Ebs b0 bs0.
  destruct (find_threshold_split bs 0 0 thr)
    as (pre & b & rest & -> & Hf & Hp & Ht); [done | lia | lia | lia | done | ].
  apply Forall_app in Hc as [Hcpre Hcb].
  inversion Hcb as [|? ? Hcb0 Hcrest]; subst.
  apply Forall_app in Hz as [Hzpre Hzb].
  inversion Hzb as [|? ? Hzb0 Hzrest]; subst.
  pose proof (hist_sum_nonneg count rest Hcrest).
  pose proof (hist_sum_nonneg count pre Hcpre).
  pose proof (hist_sum_nonneg sum_block_size rest Hzrest).
  pose proof (hist_sum_nonneg sum_block_size pre Hzpre).
  rewrite hist_sum_app in Htot, Hrange, Hbsz. simpl in Htot, Hrange, Hbsz.
  rewrite hist_sum_app. simpl.
  unfold lm_large_trim. rewrite Hf. simpl.
  rewrite take_app_length, list_lookup_middle by done.
  rewrite (fold_sum_nowrap sum_block_size) by (done || lia). simpl.
  unfold lm_remaining_count, lm_share.
  replace (0 + hist_sum count pre + count b - count b)
    with (hist_sum count pre) by lia.
  rewrite (wrap64_id (hist_sum count pre)) by (unfold is_u64; lia).
  assert (Hrem : 0 <= thr - hist_sum count pre <= count b).
  { destruct Hp as [->|Hp]; simpl in *; lia. }
  rewrite (wrap64_id (thr - hist_sum count pre)) by (unfold is_u64; lia).
  destruct (Z.ltb_spec 0 (count b)) as [Hpos|Hzero]; simpl; [|lia].
  rewrite (wrap64_id (sum_block_size b * _)) by (unfold is_u64; nia).
  assert (0 <= sum_block_size b * (thr - hist_sum count pre) / count b
          <= sum_block_size b).
  { split; [apply Z.div_pos; nia | apply Z.div_le_upper_bound; nia]. }
  rewrite wrap64_id by (unfold is_u64; lia). lia.
Qed.

Lemma lm_shrink_bound x B :
  0 <= x <= B -> B < 2 ^ 64 -> 0 <= lm_shrink x <= B - B / 4.
Proof.
  intros Hx HB. unfold lm_shrink, LM_SHRINK_RESIST.
  rewrite Z.shiftr_div_pow2 by lia. change (2 ^ 2) with 4.
  pose proof (Z.div_mod x 4 ltac:(lia)).
  pose proof (Z.div_mod B 4 ltac:(lia)).
  pose proof (Z.mod_pos_bound x 4 ltac:(lia)).
  pose proof (Z.mod_pos_bound B 4 ltac:(lia)).
  rewrite wrap64_id by (unfold is_u64; lia). lia.
Qed.

Lemma lm_update_small_bounded m count_all :
  divisors_bounded m -> small_load_ok m ->
  divisors_bounded
    (lm_update_small_buckets m (lm_count_small_entries m) count_all).
Proof.
  intros [Hsc Hlsb] [Hc Htot].
  pose proof (hist_sum_nonneg count _ Hc) as Hn.
  assert (Hcnt : lm_count_small_entries m = hist_sum count (small_bucket m)).
  { unfold lm_count_small_entries, lm_count_entries.
    rewrite count_entries_nowrap by (done || lia). lia. }
  pose proof (lm_threshold_count_range (lm_count_small_entries m) count_all)
    as Hthr.
  rewrite Hcnt in Hthr |- *. specialize (Hthr Hn Htot).
  pose proof (lm_small_trim_count (small_bucket m) _ Hc ltac:(lia) Hthr) as Ht.
  unfold lm_update_small_buckets.
  destruct (lm_small_trim _ _) as [sum_lat sum_cnt]. simpl in Ht. subst sum_cnt.
  split; simpl; [|done].
  unfold lm_small_shrinks, LM_SHRINK_AT_MREQ.
  destruct (Z.leb_spec (1000000 * 10) (small_count m)) as [Hge|Hlt]; simpl.
  - destruct (Z.eqb_spec (Z.shiftr (small_count m) LM_SHRINK_RESIST) 0); simpl.
    + unfold LM_SHRINK_RESIST in *. rewrite Z.shiftr_div_pow2 in * by lia.
      change (2 ^ 2) with 4 in *. Z.div_mod_to_equations. lia.
    + pose proof (lm_shrink_bound (small_count m) 171798692 Hsc ltac:(lia))
        as Hsh.
      change (171798692 - 171798692 / 4) with 128849019 in Hsh.
      rewrite wrap64_id by (unfold is_u64; lia). lia.
  - rewrite wrap64_id by (unfold is_u64; lia). lia.
Qed.

Lemma lm_update_large_bounded m count_all :
  divisors_bounded m -> large_load_ok m ->
  divisors_bounded
    (lm_update_large_buckets m (lm_count_large_entries m) count_all).
Proof.
  intros [Hsc Hlsb] (Hbs & Htot & Hbsz).
  assert (Hc : Forall (fun b => 0 <= count b) (large_bucket m))
    by (eapply Forall_impl; [exact Hbs | simpl; tauto]).
  assert (Hz : Forall (fun b => 0 <= sum_block_size b) (large_bucket m))
    by (eapply Forall_impl; [exact Hbs | simpl; tauto]).
  pose proof (hist_sum_nonneg count _ Hc) as Hn.
  assert (Hcnt : lm_count_large_entries m = hist_sum count (large_bucket m)).
  { unfold lm_count_large_entries, lm_count_entries.
    rewrite count_entries_nowrap by (done || lia). lia. }
  pose proof (lm_threshold_count_range (lm_count_large_entries m) count_all)
    as Hthr.
  rewrite Hcnt in Hthr |- *. specialize (Hthr Hn Htot).
  pose proof (lm_large_trim_bsize (large_bucket m) _ Hbs ltac:(lia) Hbsz Hthr)
    as Ht.
  unfold lm_update_large_buckets.
  destruct (lm_large_trim _ _) as [sum_lat sum_bsz]. simpl in Ht.
  split; simpl; [done|].
  unfold lm_large_shrinks, LM_SHRINK_AT_GBYTES.
  destruct (Z.leb_spec (1073741824 * 100) (large_sum_bsize m)) as [Hge|Hlt];
    simpl.
  - destruct (Z.eqb_spec (Z.shiftr (large_sum_bsize m) LM_SHRINK_RESIST) 0);
      simpl.
    + unfold LM_SHRINK_RESIST in *. rewrite Z.shiftr_div_pow2 in * by lia.
      change (2 ^ 2) with 4 in *. Z.div_mod_to_equations. lia.
    + pose proof (lm_shrink_bound (large_sum_bsize m) (2 ^ 42 - 1024) Hlsb
                    ltac:(lia)) as Hsh.
      change (2 ^ 42 - 1024 - (2 ^ 42 - 1024) / 4) with 3298534882560 in Hsh.
      rewrite wrap64_id by (unfold is_u64; lia). lia.
  - rewrite wrap64_id by (unfold is_u64; lia). lia.
Qed.

Lemma div_u64_Some a d : 0 < d < 2 ^ 32 -> div_u64 a d = Some (a / d).
Proof.
  intros Hd. unfold div_u64. rewrite wrap32_id by (unfold is_u32; lia).
  destruct (Z.eqb_spec d 0); [lia | done].
Qed.

Lemma latency_model_update_Some now interval m :
  divisors_bounded m -> small_load_ok m -> large_load_ok m ->
  exists m',
    latency_model_update now interval m = Some m' /\ divisors_bounded m'.
Proof.
  intros Hb Hs Hl. unfold latency_model_update.
  set (te := (base m =? 0) || _).
  set (sp := negb (lm_count_small_entries m =? 0) && _).
  set (m1 := if sp then _ else m).
  assert (H1 : divisors_bounded m1 /\ large_bucket m1 = large_bucket m).
  { unfold m1. destruct sp; [|done]. split.
    - by apply lm_update_small_bounded.
    - unfold lm_update_small_buckets.
      by destruct (lm_small_trim _ _). }
  destruct H1 as [H1 Hlb].
  set (lp := negb (lm_count_large_entries m =? 0) && _).
  set (m2 := if lp then _ else m1).
  assert (H2 : divisors_bounded m2).
  { unfold m2. destruct lp; [|done].
    replace (lm_count_large_entries m) with (lm_count_large_entries m1)
      by (unfold lm_count_large_entries; by rewrite Hlb).
    apply lm_update_large_bounded; [done|].
    unfold large_load_ok. by rewrite Hlb. }
  clearbody m2. destruct H2 as [H2s H2l].
  assert (exists m3, (if sp && negb (small_count m2 =? 0)
            then b ← div_u64 (small_sum_delay m2) (small_count m2);
                 Some (set_base b m2)
            else Some m2) = Some m3 /\ divisors_bounded m3) as (m3 & -> & H3).
  { destruct (sp && negb (small_count m2 =? 0)) eqn:E.
    - apply andb_true_iff in E as [_ E]. apply negb_true_iff in E.
      apply Z.eqb_neq in E.
      rewrite div_u64_Some by lia. eexists. split; [done|]. by split.
    - eexists. split; [done|]. by split. }
  destruct H3 as [H3s H3l]. cbn [mbind option_bind].
  assert (exists m4, (if lp && negb (large_sum_bsize m3 =? 0)
            then s ← div_u64 (large_sum_delay m3)
                             (DIV_ROUND_UP_ULL (large_sum_bsize m3) 1024);
                 Some (set_slope s m3)
            else Some m3) = Some m4 /\ divisors_bounded m4) as (m4 & -> & H4).
  { destruct (lp && negb (large_sum_bsize m3 =? 0)) eqn:E.
    - apply andb_true_iff in E as [_ E]. apply negb_true_iff in E.
      apply Z.eqb_neq in E.
      rewrite div_u64_Some.
      + eexists. split; [done|]. by split.
      + unfold DIV_ROUND_UP_ULL.
        rewrite wrap64_id by (unfold is_u64; lia).
        Z.div_mod_to_equations. lia.
    - eexists. split; [done|]. by split. }
  cbn [mbind option_bind].
  eexists. split; [done|]. destruct te; [|done]. destruct H4. by split.
Qed.

Lemma alter_add_small_count latency i bs :
  Forall (fun b => 0 <= count b) bs ->
  Forall (fun b => 0 <= count b) (alter (bucket_add_small latency) i bs)
  /\ hist_sum count (alter (bucket_add_small latency) i bs)
     <= hist_sum count bs + 1.
Proof.
  intros Hbs. revert i. induction Hbs as [|b bs Hb Hbs IH]; intros i.
  - split; [constructor | simpl; lia].
  - destruct i as [|i]; simpl.
    + pose proof (wrap64_range (count b + 1)) as Hr. unfold is_u64 in Hr.
      assert (wrap64 (count b + 1) <= count b + 1).
      { unfold wrap64. apply Z.mod_le; lia. }
      split; [constructor; [simpl; lia | done] | lia].
    + destruct (IH i) as [IH1 IH2]. split; [by constructor|].
      simpl. apply Z.add_le_mono_l with (p := count b) in IH2.
      etrans; [exact IH2 | lia].
Qed.

(** X2. On a model within its types ([model_inv]: every field a [u64],
    64 slots in each histogram), [latency_model_update] and
    [latency_model_input] return, with neither [div_u64] given a zero
    divisor, as long as the histograms are within the loads of
    [small_load_ok] and [large_load_ok] (fewer than 42,949,673 samples
    each, with room for one more small sample in the case of
    [latency_model_input], and at most 2^38 bytes in the large one) and
    the accumulators start within [divisors_bounded] ([small_count] at most
    171,798,692 and [large_sum_bsize] at most 2^42 - 1024, as in a fresh
    model).  The shrink steps then keep the accumulators within the same
    bounds, and the model returned is within its types again.  Outside the
    bounds a call can trap ([latency_model_update_traps]). *)
Theorem latency_model_calls_return (now interval : Z) (m : latency_model) :
  model_inv m -> divisors_bounded m -> small_load_ok m -> large_load_ok m ->
  (exists m',
     latency_model_update now interval m = Some m'
     /\ model_inv m' /\ divisors_bounded m')
  /\ (forall block_size latency pred_lat,
        (hist_sum count (small_bucket m) + 1) * 100 < 2 ^ 32 ->
        exists m',
          latency_model_input now interval m block_size latency pred_lat
          = Some m'
          /\ model_inv m' /\ divisors_bounded m').
Proof.
  intros Hinv Hb Hs Hl. split.
  - destruct (latency_model_update_Some now interval m Hb Hs Hl)
      as (m' & Hm' & Hb').
    exists m'. split; [done|]. split; [|done].
    by eapply latency_model_update_inv.
  - intros block_size latency pred_lat Hroom.
    assert (exists m',
      latency_model_input now interval m block_size latency pred_lat = Some m'
      /\ divisors_bounded m') as (m' & Hm' & Hb').
    { unfold latency_model_input.
      destruct (block_size <=? LM_BLOCK_SIZE_THRESHOLD).
      - set (i := lm_clamp_index _).
        set (m0 := set_small_bucket _ m).
        destruct (base m0 =? 0); [|by exists m0].
        destruct Hs as [Hc _].
        destruct (alter_add_small_count latency i _ Hc) as [Hc' Hle].
        apply latency_model_update_Some; [done | | done].
        split; simpl; [done | lia].
      - destruct ((base m =? 0) || (pred_lat =? 0)); [by exists m|].
        by eexists. }
    exists m'. split; [done|]. split; [|done].
    by eapply latency_model_input_inv.
Qed.

Lemma init_model_loads :
  divisors_bounded (init_model 0)
  /\ small_load_ok (init_model 0) /\ large_load_ok (init_model 0).
Proof.
  split; [|split].
  - split; simpl; lia.
  - split; [|vm_compute; reflexivity].
    apply Forall_replicate. simpl. lia.
  - split; [|split].
    + apply Forall_replicate. simpl. lia.
    + vm_compute. reflexivity.
    + vm_compute. discriminate.
Qed.

Lemma latency_model_calls_return_witness :
  exists m',
    latency_model_input 0 1500 (init_model 0) 4096 3000 0 = Some m'
    /\ base m' = 3000 /\ model_inv m' /\ divisors_bounded m'.
Proof.
  destruct init_model_loads as (Hb & Hs & Hl).
  destruct (latency_model_calls_return 0 1500 (init_model 0)
              init_model_inv Hb Hs Hl) as [_ H].
  destruct (H 4096 3000 0) as (m' & Hm' & Hinv & Hb'); [vm_compute; reflexivity|].
  exists m'. split; [exact Hm'|]. split; [|by split].
  vm_compute in Hm'. injection Hm' as <-. reflexivity.
Defined.

(** With [small_count] at 5,726,623,060 the shrink step and one sample
    bring it to 2^32, whose low 32 bits are zero: the division for the
    base traps. *)
Example latency_model_update_traps :
  ~ divisors_bounded wrapped_count_model
  /\ small_load_ok wrapped_count_model
  /\ lm_shrink (small_count wrapped_count_model) + 1 = 2 ^ 32
  /\ latency_model_update 0 1500 wrapped_count_model = None.
Proof.
  split; [|split; [|split]].
  - unfold divisors_bounded. simpl. lia.
  - split; [|vm_compute; reflexivity].
    unfold wrapped_count_model, zero_buckets. simpl.
    repeat (constructor; [simpl; lia|]). constructor.
  - vm_compute. reflexivity.
  - vm_compute. reflexivity.
Qed.

(** ** The shape of the deadline tree *)

Lemma dl_link_keyed b t d rq t' :
  dl_tree_wf t -> is_u64 d -> keyed_by d rq -> dl_tree_keyed t ->
  dl_link b t d rq = Some t' -> dl_tree_keyed t'.
Proof.
  intros Hwf Hd Hrq Hk. apply dl_tree_wf_keys_u64 in Hwf. revert t' Hwf.
  unfold dl_tree_keyed in *.
  induction Hk as [|g t Hg Hk IH]; intros t' Hwf; simpl.
  - destruct b; [|done]. intros [= <-]. repeat constructor. done.
  - inversion Hwf as [|? ? Hgu Hwf']; subst.
    destruct (Z.ltb_spec (to_s64 (wrap64 (d - deadline g))) 0).
    { destruct b; [|done]. intros [= <-].
      constructor; [by repeat constructor|]. by constructor. }
    destruct (Z.ltb_spec 0 (to_s64 (wrap64 (d - deadline g)))).
    + destruct (dl_link b t d rq) as [t''|]; [|done]. simpl. intros [= <-].
      constructor; [done | by apply IH].
    + intros [= <-]. assert (d = deadline g) as ->
        by (apply s64_diff_zero; [done..|lia]).
      constructor; [|done]. simpl. apply Forall_app. split; [done|].
      by constructor.
Qed.

Lemma dl_unlink_keyed t d id : dl_tree_keyed t -> dl_tree_keyed (dl_unlink t d id).
Proof.
  unfold dl_tree_keyed. induction 1 as [|g t Hg Hk IH]; simpl; [constructor|].
  destruct (deadline g =? d); [|by constructor].
  destruct (list_del id (rqs g)) as [|r l] eqn:E; [done|].
  constructor; [|done]. simpl. rewrite <- E. by apply list_del_Forall.
Qed.

Lemma dl_step_keyed ad op ad' :
  dl_tree_wf (dl_tree ad) -> dl_tree_keyed (dl_tree ad) ->
  dl_step ad op = Some ad' -> dl_tree_keyed (dl_tree ad').
Proof.
  intros Hwf Hk. destruct op as [rq b|id]; simpl.
  - unfold add_to_dl_tree. destruct (get_rq_data rq) as [rd|]; [|done]. simpl.
    destruct (dl_link _ _ _ _) as [t|] eqn:E; simpl; intros [= <-]; [|done].
    simpl. eapply dl_link_keyed; [exact Hwf | apply rq_deadline_u64 | | exact Hk
                                 | exact E].
    eexists. split; [reflexivity|done].
  - destruct (dl_lookup ad id) as [rq|]; [|by intros [= <-]].
    unfold remove_request, del_from_dl_tree.
    destruct (get_rq_data rq) as [rd|]; simpl; [|done].
    destruct (rd_dl_group rd) as [d|]; simpl; intros [= <-]; [|done].
    simpl. by apply dl_unlink_keyed.
Qed.

Lemma dl_run_keyed ad ops :
  dl_tree_wf (dl_tree ad) -> dl_tree_keyed (dl_tree ad) ->
  Forall (fun rq => is_Some (elv_priv rq) /\ rq_deadline ad rq < 2 ^ 63)
    (dl_added ops) ->
  exists ad',
    dl_run ad ops = Some ad' /\ dl_tree_wf (dl_tree ad')
    /\ dl_tree_keyed (dl_tree ad').
Proof.
  revert ad. induction ops as [|op ops IH]; intros ad Hwf Hk Hops; simpl.
  - by exists ad.
  - destruct (dl_step_wf ad op Hwf) as (ad1 & Hs & Hwf1 & Hm & Ht).
    { intros rq b ->. simpl in Hops. by inversion Hops. }
    rewrite Hs. simpl. apply IH; [done | exact (dl_step_keyed ad op ad1 Hwf Hk Hs) |].
    assert (Hops' : Forall
      (fun rq => is_Some (elv_priv rq) /\ rq_deadline ad rq < 2 ^ 63)
      (dl_added ops)).
    { destruct op; simpl in Hops; [by inversion Hops | done]. }
    eapply Forall_impl; [exact Hops'|]. simpl. intros rq [H1 H2].
    split; [done|]. by rewrite (rq_deadline_ext ad ad1).
Qed.

(** X4. Starting from the empty tree, after any sequence of
    [add_to_dl_tree] and [remove_request] calls (on prepared requests with
    deadlines below 2^63) the groups stand in strictly increasing order of
    deadline, no group is empty, and every linked request carries the
    deadline of its group in [rd->deadline] and points at its group with
    [rd->dl_group]. *)
Theorem dl_tree_sorted_after_ops (ad0 : adios_data) (ops : list dl_op) :
  dl_tree ad0 = [] ->
  Forall (fun rq => is_Some (elv_priv rq) /\ rq_deadline ad0 rq < 2 ^ 63)
    (dl_added ops) ->
  exists ad,
    dl_run ad0 ops = Some ad
    /\ keys_sorted (map deadline (dl_tree ad))
    /\ forall g, In g (dl_tree ad) ->
         rqs g <> []
         /\ forall r, In r (rqs g) ->
              exists rd, get_rq_data r = Some rd
                         /\ rd_deadline rd = deadline g
                         /\ rd_dl_group rd = Some (deadline g).
Proof.
  intros Hnil Hops.
  destruct (dl_run_keyed ad0 ops) as (ad & Hrun & Hwf & Hk);
    [rewrite Hnil; exact dl_tree_wf_nil | rewrite Hnil; constructor | done |].
  exists ad. split; [done|]. split; [apply Hwf|].
  intros g Hg. destruct Hwf as [Hok _].
  rewrite List.Forall_forall in Hok. destruct (Hok g Hg) as (_ & Hne & Hl).
  split; [done|]. intros r Hr.
  unfold dl_tree_keyed in Hk. rewrite List.Forall_forall in Hk.
  pose proof (Hk g Hg) as Hkg. rewrite List.Forall_forall in Hkg, Hl.
  destruct (Hkg r Hr) as (rd & Hrd & Hd).
  destruct (Hl r Hr) as (rd' & Hrd' & Hgp).
  unfold get_rq_data in *. exists rd. split; [done|]. split; [done|].
  congruence.
Qed.

Lemma dl_tree_sorted_after_ops_witness :
  exists ad,
    dl_run (init_adios_data 0)
      [DlAdd rq_c true; DlAdd rq_a true; DlAdd rq_b true; DlDel 3%nat]
    = Some ad
    /\ keys_sorted (map deadline (dl_tree ad)).
Proof.
  destruct (dl_tree_sorted_after_ops (init_adios_data 0)
              [DlAdd rq_c true; DlAdd rq_a true; DlAdd rq_b true; DlDel 3%nat])
    as (ad & H1 & H2 & _).
  - reflexivity.
  - repeat (constructor; [split; [by eexists | vm_compute; reflexivity]|]).
    constructor.
  - exists ad. split; [exact H1 | exact H2].
Defined.

(** ** The earliest request *)

Lemma keys_sorted_head_min k ks : keys_sorted (k :: ks) -> Forall (Z.le k) (k :: ks).
Proof.
  intros [H _]. constructor; [lia|].
  eapply Forall_impl; [exact H|]. simpl. intros; lia.
Qed.

(** X5. In any state reached from the empty tree by [add_to_dl_tree] and
    [remove_request] calls on prepared requests whose deadlines are below
    2^63, [get_ealiest_request] returns [NULL] exactly when no request is
    linked, and otherwise returns a request whose deadline is at most that
    of every linked request; it is the request that was linked first among
    those of its group. *)
Theorem get_ealiest_request_min (ad0 : adios_data) (ops : list dl_op) :
  dl_tree ad0 = [] ->
  Forall (fun rq => is_Some (elv_priv rq) /\ rq_deadline ad0 rq < 2 ^ 63)
    (dl_added ops) ->
  exists ad,
    dl_run ad0 ops = Some ad
    /\ (get_ealiest_request ad = None <-> dl_flat (dl_tree ad) = [])
    /\ forall rq, get_ealiest_request ad = Some rq ->
         (exists g t l, dl_tree ad = g :: t /\ rqs g = rq :: l)
         /\ exists rd, get_rq_data rq = Some rd
            /\ forall r rd', In r (dl_flat (dl_tree ad)) ->
                 get_rq_data r = Some rd' ->
                 rd_deadline rd <= rd_deadline rd'.
Proof.
  intros Hnil Hops.
  destruct (dl_run_keyed ad0 ops) as (ad & Hrun & Hwf & Hk);
    [rewrite Hnil; exact dl_tree_wf_nil | rewrite Hnil; constructor | done |].
  exists ad. split; [done|].
  unfold get_ealiest_request, dl_flat.
  destruct (dl_tree ad) as [|g t] eqn:Ht; [by split|].
  pose proof Hwf as [Hok Hs]. inversion Hok as [|? ? (_ & Hne & _) _]; subst.
  destruct (rqs g) as [|rq0 l] eqn:Hrqs; [done|]. simpl. rewrite Hrqs.
  split; [by split|]. intros rq [= <-].
  split; [by exists g, t, l|].
  inversion Hk as [|? ? Hkg _]; subst. rewrite Hrqs in Hkg.
  inversion Hkg as [|? ? (rd & Hrd & Hd) _]; subst.
  exists rd. split; [done|]. intros r rd' Hin Hrd'.
  change (rq0 :: l ++ concat (map rqs t))
    with (concat (map rqs ({| deadline := deadline g; rqs := rq0 :: l |} :: t)))
    in Hin.
  assert (Hin' : In r (concat (map rqs (g :: t)))).
  { simpl. rewrite Hrqs. exact Hin. }
  apply in_concat in Hin' as (l' & Hl' & Hr).
  apply in_map_iff in Hl' as (g' & <- & Hg').
  unfold dl_tree_keyed in Hk. rewrite List.Forall_forall in Hk.
  pose proof (Hk g' Hg') as Hkg'. rewrite List.Forall_forall in Hkg'.
  destruct (Hkg' r Hr) as (rd'' & Hrd'' & Hd''). rewrite Hrd' in Hrd''.
  injection Hrd'' as <-. rewrite Hd, Hd''.
  pose proof (keys_sorted_head_min _ _ Hs) as Hmin.
  rewrite List.Forall_forall in Hmin. apply Hmin.
  apply (in_map deadline) in Hg'. exact Hg'.
Qed.

Lemma get_ealiest_request_min_witness :
  exists ad rq,
    dl_run (init_adios_data 0) [DlAdd rq_c true; DlAdd rq_a true; DlAdd rq_b true]
    = Some ad
    /\ get_ealiest_request ad = Some rq /\ rq_id rq = 1%nat.
Proof.
  destruct (get_ealiest_request_min (init_adios_data 0)
              [DlAdd rq_c true; DlAdd rq_a true; DlAdd rq_b true])
    as (ad & H1 & _ & _).
  - reflexivity.
  - repeat (constructor; [split; [by eexists | vm_compute; reflexivity]|]).
    constructor.
  - vm_compute in H1. injection H1 as <-.
    eexists _, _. split; [reflexivity|]. split; reflexivity.
Defined.

(** ** Linking and unlinking undo each other *)

Lemma list_del_app_fresh id l r :
  Forall (fun x => rq_id x <> id) l -> rq_id r = id ->
  list_del id (l ++ [r]) = l.
Proof.
  intros Hl Hr. induction Hl as [|x l Hx Hl IH]; simpl.
  - by rewrite Hr, Nat.eqb_refl.
  - destruct (Nat.eqb_spec (rq_id x) id); [done|]. by rewrite IH.
Qed.

Lemma dl_lookup_none ad id :
  dl_lookup ad id = None <->
  Forall (fun r => rq_id r <> id) (dl_flat (dl_tree ad)).
Proof.
  unfold dl_lookup, dl_flat. rewrite List.Forall_forall. split.
  - intros H r Hr Hid.
    pose proof (find_none _ _ H r Hr) as Hn. simpl in Hn.
    by rewrite Hid, Nat.eqb_refl in Hn.
  - intros H. destruct (find _ _) as [r|] eqn:E; [|done].
    apply find_some in E as [Hin Hid]. apply Nat.eqb_eq in Hid.
    by destruct (H r Hin).
Qed.

Lemma dl_flat_app t1 t2 : dl_flat (t1 ++ t2) = dl_flat t1 ++ dl_flat t2.
Proof. unfold dl_flat. by rewrite map_app, concat_app. Qed.

Lemma find_app_fresh (f : request -> bool) l1 l2 :
  Forall (fun r => f r = false) l1 -> find f (l1 ++ l2) = find f l2.
Proof. induction 1 as [|x l Hx Hl IH]; simpl; [done|]. by rewrite Hx. Qed.

(** Without memory for a new group [dl_link] fails exactly when no group
    has the deadline. *)
Lemma dl_link_noalloc t d rq :
  dl_tree_wf t -> 0 <= d < 2 ^ 63 ->
  dl_link false t d rq = None <-> ~ In d (map deadline t).
Proof.
  intros [Hok Hs] Hd. revert Hs.
  induction Hok as [|g t Hg Hok IH]; simpl; intros Hs.
  - split; [by intros _ [] | done].
  - destruct Hs as [Hlt Hs]. specialize (IH Hs).
    rewrite s64_diff by (done || apply Hg).
    destruct (Z.ltb_spec (d - deadline g) 0) as [H1|H1].
    { split; [|done]. intros _ [Heq | Hin]; [lia|].
      rewrite List.Forall_forall in Hlt. apply Hlt in Hin. lia. }
    destruct (Z.ltb_spec 0 (d - deadline g)) as [H2|H2].
    + destruct (dl_link false t d rq) as [t''|] eqn:E; simpl.
      * split; [done|]. intros Hn. exfalso.
        assert (Hn' : ~ In d (map deadline t)) by (intros ?; apply Hn; by right).
        apply IH in Hn'. done.
      * split; [|done]. intros _ [Heq | Hin]; [lia|].
        by apply (proj1 IH).
    + split; [done|]. intros Hn. exfalso. apply Hn. left. lia.
Qed.

(** Where a group has the deadline, no allocation is asked for. *)
Lemma dl_link_any b t d rq :
  dl_tree_wf t -> In d (map deadline t) ->
  dl_link b t d rq = dl_link true t d rq.
Proof.
  intros Hwf Hin. apply in_map_iff in Hin as (g & <- & Hg).
  apply in_split in Hg as (t1 & t2 & ->).
  by rewrite !dl_link_found.
Qed.

(** X6. On a well-formed tree, take a prepared request with a deadline
    below 2^63 whose address is not yet in the tree, and let
    [add_to_dl_tree] link it: there is memory for its group, or a group of
    its deadline is there already.  Then the request is found in the tree
    under its address, and [remove_request] of it gives back the scheduler
    data exactly as it was, and sets its [rd->dl_group] to [NULL] again. *)
Theorem add_remove_round_trip
    (alloc_ok : bool) (ad : adios_data) (rq : request) :
  dl_tree_wf (dl_tree ad) ->
  is_Some (elv_priv rq) ->
  rq_deadline ad rq < 2 ^ 63 ->
  dl_lookup ad (rq_id rq) = None ->
  alloc_ok = true \/ In (rq_deadline ad rq) (map deadline (dl_tree ad)) ->
  exists ad1 rq1 rq2 rd2,
    add_to_dl_tree alloc_ok ad rq = Some (ad1, rq1)
    /\ dl_lookup ad1 (rq_id rq) = Some rq1
    /\ remove_request ad1 rq1 = Some (ad, rq2)
    /\ get_rq_data rq2 = Some rd2 /\ rd_dl_group rd2 = None.
Proof.
  intros Hwf [rd Hrd] Hd Hfresh Hlinks.
  pose proof (rq_deadline_u64 ad rq) as Hu. unfold is_u64 in Hu.
  set (d := rq_deadline ad rq) in *.
  set (rq1 := set_elv_priv (Some (RqData d (rq_pred_lat ad rq)
                                    (blk_rq_bytes rq) (Some d))) rq).
  assert (Hl1 : linked_in d rq1) by (eexists; split; [reflexivity | done]).
  destruct (dl_link_alloc (dl_tree ad) d rq1) as [t' Ht'].
  assert (Hb : dl_link alloc_ok (dl_tree ad) d rq1 = Some t').
  { destruct Hlinks as [-> | Hin]; [done|]. by rewrite dl_link_any. }
  assert (Hadd : add_to_dl_tree alloc_ok ad rq = Some (set_dl_tree t' ad, rq1)).
  { unfold add_to_dl_tree, get_rq_data. rewrite Hrd. simpl.
    fold d. fold rq1. by rewrite Hb. }
  destruct (dl_link_wf true _ d rq1 t' Hwf ltac:(lia) Hl1 Ht') as [Hwf' _].
  apply dl_lookup_none in Hfresh.
  destruct (remove_request_linked (set_dl_tree t' ad) rq1 d Hl1)
    as (rq2 & Hrem & _ & (rd2 & Hrd2 & Hg2 & _) & _).
  exists (set_dl_tree t' ad), rq1, rq2, rd2.
  split; [exact Hadd|].
  assert (Hfind : forall l, Forall (fun r => rq_id r <> rq_id rq) l ->
            Forall (fun r => Nat.eqb (rq_id r) (rq_id rq) = false) l).
  { intros l Hl. eapply Forall_impl; [exact Hl|]. simpl.
    intros r Hr. by apply Nat.eqb_neq. }
  destruct (dl_link_shape _ d rq1 t' Hwf ltac:(lia) Ht')
    as [(t1 & t2 & Ht & ->) | (t1 & g & t2 & Ht & Hgd & ->)].
  - rewrite Ht, dl_flat_app in Hfresh. apply Forall_app in Hfresh as [Hf1 Hf2].
    split.
    { unfold dl_lookup. simpl.
      change (concat (map rqs (t1 ++ DlGroup d [rq1] :: t2)))
        with (dl_flat (t1 ++ DlGroup d [rq1] :: t2)).
      rewrite dl_flat_app, find_app_fresh by (by apply Hfind).
      simpl. by rewrite Nat.eqb_refl. }
    split; [|done]. rewrite Hrem. simpl.
    change d with (deadline (DlGroup d [rq1])) at 1.
    rewrite dl_unlink_at by apply Hwf'. simpl. rewrite Nat.eqb_refl.
    rewrite <- Ht. do 2 f_equal. by destruct ad.
  - rewrite Ht, dl_flat_app in Hfresh. apply Forall_app in Hfresh as [Hf1 Hf2].
    unfold dl_flat in Hf2. simpl in Hf2. apply Forall_app in Hf2 as [Hfg Hf2].
    split.
    { unfold dl_lookup. simpl.
      change (concat (map rqs (t1 ++ DlGroup d (rqs g ++ [rq1]) :: t2)))
        with (dl_flat (t1 ++ DlGroup d (rqs g ++ [rq1]) :: t2)).
      rewrite dl_flat_app, find_app_fresh by (by apply Hfind).
      unfold dl_flat. simpl. rewrite <- app_assoc.
      rewrite find_app_fresh by (by apply Hfind).
      simpl. by rewrite Nat.eqb_refl. }
    split; [|done]. rewrite Hrem. simpl.
    change d with (deadline (DlGroup d (rqs g ++ [rq1]))) at 1.
    rewrite dl_unlink_at by apply Hwf'. simpl.
    rewrite list_del_app_fresh by done.
    assert (Hne : rqs g <> []).
    { destruct Hwf as [Hok _]. rewrite Ht in Hok.
      apply Forall_app in Hok as [_ Hok]. inversion Hok as [|? ? Hg _].
      apply Hg. }
    destruct (rqs g) as [|r l] eqn:Hrqs; [done|].
    replace (DlGroup d (r :: l)) with g
      by (destruct g; simpl in *; congruence).
    rewrite <- Ht. do 2 f_equal. by destruct ad.
Qed.

Lemma add_remove_round_trip_witness :
  exists ad ad1 rq1 rq2,
    dl_run (init_adios_data 0) [DlAdd rq_a true; DlAdd rq_c true] = Some ad
    /\ add_to_dl_tree true ad rq_b = Some (ad1, rq1)
    /\ remove_request ad1 rq1 = Some (ad, rq2).
Proof.
  destruct (dl_run_wf (init_adios_data 0) [DlAdd rq_a true; DlAdd rq_c true])
    as (ad & Hrun & Hwf & _).
  { exact dl_tree_wf_nil. }
  { repeat (constructor; [split; [by eexists | vm_compute; reflexivity]|]).
    constructor. }
  destruct (add_remove_round_trip true ad rq_b Hwf) as (ad1 & rq1 & rq2 & _ & H1 & _ & H3 & _).
  - by eexists.
  - vm_compute in Hrun. injection Hrun as <-. vm_compute. reflexivity.
  - vm_compute in Hrun. injection Hrun as <-. vm_compute. reflexivity.
  - by left.
  - exists ad, ad1, rq1, rq2. split; [exact Hrun|]. split; [exact H1 | exact H3].
Defined.

(** ** Re-keying after a front merge *)

Lemma dl_unlink_others t d id g0 r :
  In g0 t -> In r (rqs g0) -> rq_id r <> id ->
  exists g1, In g1 (dl_unlink t d id)
             /\ deadline g1 = deadline g0 /\ In r (rqs g1).
Proof.
  intros Hg Hr Hne. induction t as [|g t IH]; simpl in *; [done|].
  destruct (Z.eqb_spec (deadline g) d) as [Hd|Hd].
  - destruct Hg as [->|Hg].
    + pose proof (list_del_other id (rqs g0) r Hr Hne) as Hin.
      destruct (list_del id (rqs g0)) as [|x l] eqn:E; [done|].
      eexists. split; [by left|]. by split.
    + exists g0. split; [|done].
      destruct (list_del id (rqs g)); [done | by right].
  - destruct Hg as [->|Hg].
    + exists g0. split; [by left | done].
    + destruct (IH Hg) as (g1 & H1 & H2). exists g1. split; [by right | done].
Qed.

Lemma dl_link_others b t d rq t' g0 r :
  dl_link b t d rq = Some t' -> In g0 t -> In r (rqs g0) ->
  exists g1, In g1 t' /\ deadline g1 = deadline g0 /\ In r (rqs g1).
Proof.
  revert t'. induction t as [|g t IH]; intros t'; simpl; [done|].
  intros H Hg Hr. repeat case_match; simplify_eq.
  - exists g0. split; [by right | done].
  - apply bind_Some in H as (t'' & Ht'' & [= <-]).
    destruct Hg as [->|Hg].
    + exists g0. split; [by left | done].
    + destruct (IH t'' Ht'' Hg Hr) as (g1 & Hin1 & Hrest).
      exists g1. split; [by right | done].
  - destruct Hg as [->|Hg].
    + eexists. split; [by left|]. simpl. split; [done|].
      apply in_or_app. by left.
    + exists g0. split; [by right | done].
Qed.

Lemma dl_link_size b t d rq t' :
  dl_link b t d rq = Some t' -> dl_tree_size t' = S (dl_tree_size t).
Proof.
  revert t'. induction t as [|g t IH]; intros t'; simpl.
  - destruct b; [|done]. by intros [= <-].
  - intros H. repeat case_match; simplify_eq.
    + by rewrite (dl_tree_size_cons _ (g :: t)).
    + apply bind_Some in H as (t'' & Ht'' & [= <-]).
      rewrite !dl_tree_size_cons, (IH t'' Ht''). lia.
    + rewrite !dl_tree_size_cons. simpl. rewrite length_app. simpl. lia.
Qed.

Lemma dl_tree_size_app t1 t2 :
  dl_tree_size (t1 ++ t2) = (dl_tree_size t1 + dl_tree_size t2)%nat.
Proof.
  unfold dl_tree_size. by rewrite map_app, concat_app, length_app.
Qed.

(** X7. [adios_request_merged] for a front merge, on a well-formed tree
    that holds the request, whose recomputed deadline is below 2^63.  The
    request is taken out of its group and [add_to_dl_tree] is called for
    it; every other request stays in a group of the deadline it had and the
    tree stays well formed.  With memory for a group, or where a group of
    the new deadline is left in the tree, the request is linked again, as
    the last request of the group of its new deadline, and the number of
    linked requests is unchanged.  Without memory and without such a group
    the request is not linked again: the tree is left as the removal made
    it, with one request less, and the request's [rd->dl_group] is
    [NULL]. *)
Theorem front_merge_rekeys
    (alloc_ok : bool) (ad : adios_data) (req : request)
    (g : dl_group) (r0 : request) :
  dl_tree_wf (dl_tree ad) ->
  In g (dl_tree ad) -> In r0 (rqs g) ->
  rq_id req = rq_id r0 -> elv_priv req = elv_priv r0 ->
  rq_deadline ad req < 2 ^ 63 ->
  let d := rq_deadline ad req in
  let t1 := dl_unlink (dl_tree ad) (deadline g) (rq_id req) in
  exists ad' req' rd',
    adios_request_front_merged alloc_ok ad req = Some (ad', req')
    /\ dl_tree_wf (dl_tree ad')
    /\ get_rq_data req' = Some rd'
    /\ rd_deadline rd' = d
    /\ (forall g0 r,
          In g0 (dl_tree ad) -> In r (rqs g0) -> rq_id r <> rq_id req ->
          exists g1, In g1 (dl_tree ad')
                     /\ deadline g1 = deadline g0 /\ In r (rqs g1))
    /\ (alloc_ok = true \/ In d (map deadline t1) ->
        (exists u1 g' u2 l,
           dl_tree ad' = u1 ++ g' :: u2
           /\ deadline g' = d
           /\ rqs g' = l ++ [req'])
        /\ dl_tree_size (dl_tree ad') = dl_tree_size (dl_tree ad))
    /\ (alloc_ok = false -> ~ In d (map deadline t1) ->
        dl_tree ad' = t1
        /\ rd_dl_group rd' = None
        /\ S (dl_tree_size (dl_tree ad')) = dl_tree_size (dl_tree ad)).
Proof.
  intros Hwf Hg Hr0 Hid Hpriv Hd d t1.
  pose proof (rq_deadline_u64 ad req) as Hu. unfold is_u64 in Hu.
  destruct (dl_tree_wf_linked _ _ _ Hwf Hg Hr0) as (rd & Hrd & Hgp).
  rewrite <- Hpriv in Hrd.
  set (req1 := set_elv_priv
                 (Some (RqData (rd_deadline rd) (rd_pred_lat rd)
                          (rd_block_size rd) None)) req).
  set (req2 := set_elv_priv
                 (Some (RqData d (rq_pred_lat ad req) (blk_rq_bytes req)
                          (Some d))) req).
  set (req3 := set_elv_priv
                 (Some (RqData d (rq_pred_lat ad req) (blk_rq_bytes req)
                          None)) req).
  assert (Hd' : 0 <= d < 2 ^ 63) by (unfold d; lia).
  assert (Hwf1 : dl_tree_wf t1) by (by apply dl_unlink_wf).
  assert (Hl2 : linked_in d req2) by (eexists; split; [reflexivity | done]).
  assert (Hrun : adios_request_front_merged alloc_ok ad req
                 = match dl_link alloc_ok t1 d req2 with
                   | Some t2 => Some (set_dl_tree t2 ad, req2)
                   | None => Some (set_dl_tree t1 ad, req3)
                   end).
  { unfold adios_request_front_merged, del_from_dl_tree, get_rq_data.
    rewrite Hrd. simpl. rewrite Hgp. simpl.
    unfold add_to_dl_tree, get_rq_data. simpl.
    change (rq_deadline _ _) with d. change (rq_pred_lat _ _)
      with (rq_pred_lat ad req).
    fold t1.
    change (set_elv_priv (Some (RqData d _ _ (Some d))) (set_elv_priv _ req))
      with req2.
    change (set_elv_priv (Some (RqData d _ _ None)) (set_elv_priv _ req))
      with req3.
    by destruct (dl_link alloc_ok t1 d req2). }
  assert (Hothers : forall t2, dl_link alloc_ok t1 d req2 = Some t2 ->
            forall g0 r,
              In g0 (dl_tree ad) -> In r (rqs g0) -> rq_id r <> rq_id req ->
              exists g1, In g1 t2 /\ deadline g1 = deadline g0 /\ In r (rqs g1)).
  { intros t2 Ht2 g0 r H0 Hr Hne.
    destruct (dl_unlink_others (dl_tree ad) (deadline g) (rq_id req) g0 r H0 Hr Hne)
      as (g1 & H1 & H2 & H3).
    destruct (dl_link_others alloc_ok t1 d req2 t2 g1 r Ht2 H1 H3)
      as (g2 & H4 & H5 & H6).
    exists g2. split; [done|]. split; [congruence | done]. }
  assert (Hsize1 : S (dl_tree_size t1) = dl_tree_size (dl_tree ad)).
  { unfold t1.
    apply in_split in Hg as (u1 & u2 & Hu12). rewrite Hu12.
    rewrite dl_unlink_at by (rewrite <- Hu12; apply Hwf).
    rewrite !dl_tree_size_app, dl_tree_size_cons.
    rewrite (list_del_length (rq_id req) (rqs g) r0) by done.
    destruct (list_del (rq_id req) (rqs g)); simpl; [lia|].
    rewrite dl_tree_size_cons. simpl. lia. }
  rewrite Hrun.
  destruct (dl_link alloc_ok t1 d req2) as [t2|] eqn:Ht2.
  - destruct (dl_link_wf alloc_ok t1 d req2 t2 Hwf1 Hd' Hl2 Ht2) as [Hwf2 _].
    exists (set_dl_tree t2 ad), req2, (RqData d (rq_pred_lat ad req)
                                         (blk_rq_bytes req) (Some d)).
    split; [done|]. split; [exact Hwf2|]. split; [done|]. split; [done|].
    split; [exact (Hothers t2 eq_refl)|]. split.
    + intros _. split.
      * destruct (dl_link_linked alloc_ok t1 d req2 t2)
          as (u1 & g' & u2 & l & H1 & H2 & H3);
          [by apply dl_tree_wf_keys_u64 | unfold is_u64; lia | done |].
        by exists u1, g', u2, l.
      * simpl. rewrite (dl_link_size _ _ _ _ _ Ht2). exact Hsize1.
    + intros Hf Hno. exfalso. rewrite Hf in Ht2.
      pose proof (proj2 (dl_link_noalloc t1 d req2 Hwf1 Hd') Hno). congruence.
  - exists (set_dl_tree t1 ad), req3, (RqData d (rq_pred_lat ad req)
                                         (blk_rq_bytes req) None).
    split; [done|]. split; [exact Hwf1|]. split; [done|]. split; [done|].
    split.
    { intros g0 r H0 Hr Hne.
      exact (dl_unlink_others (dl_tree ad) (deadline g) (rq_id req) g0 r H0 Hr Hne). }
    split.
    + intros [Ht | Hin]; exfalso.
      * rewrite Ht in Ht2.
        destruct (dl_link_alloc t1 d req2) as [? ?]. congruence.
      * rewrite (dl_link_any alloc_ok t1 d req2 Hwf1 Hin) in Ht2.
        destruct (dl_link_alloc t1 d req2) as [? ?]. congruence.
    + intros _ _. split; [done|]. split; [done|]. exact Hsize1.
Qed.

Lemma front_merge_rekeys_witness :
  exists ad ad' req',
    dl_run (init_adios_data 0) [DlAdd rq_a true; DlAdd rq_b true] = Some ad
    /\ adios_request_front_merged false ad
         (Request 2 0 400 0 1024
            (Some (RqData 2001000 0 512 (Some 2001000))))
       = Some (ad', req')
    /\ S (dl_tree_size (dl_tree ad')) = dl_tree_size (dl_tree ad).
Proof.
  destruct (dl_run_wf (init_adios_data 0) [DlAdd rq_a true; DlAdd rq_b true])
    as (ad & Hrun & Hwf & _).
  { exact dl_tree_wf_nil. }
  { repeat (constructor; [split; [by eexists | vm_compute; reflexivity]|]).
    constructor. }
  pose proof Hrun as Hrun'. vm_compute in Hrun'. injection Hrun' as Had.
  destruct (front_merge_rekeys false ad
              (Request 2 0 400 0 1024 (Some (RqData 2001000 0 512 (Some 2001000))))
              (DlGroup 2001000
                 [Request 1 0 1000 0 512 (Some (RqData 2001000 0 512 (Some 2001000)));
                  Request 2 0 1000 0 512 (Some (RqData 2001000 0 512 (Some 2001000)))])
              (Request 2 0 1000 0 512 (Some (RqData 2001000 0 512 (Some 2001000))))
              Hwf)
    as (ad' & req' & rd' & H1 & _ & _ & _ & _ & _ & H2).
  - rewrite <- Had. simpl. by left.
  - simpl. right. by left.
  - reflexivity.
  - reflexivity.
  - rewrite <- Had. vm_compute. reflexivity.
  - exists ad, ad', req'. split; [exact Hrun|]. split; [exact H1|].
    destruct H2 as (_ & _ & H2); [reflexivity | | exact H2].
    rewrite <- Had. vm_compute. intros [H | H]; [discriminate | done].
Defined.

(** ** Insertion links every request that is not merged away *)

Lemma insert_request_tree ad rq flags env :
  Z.land flags BLK_MQ_INSERT_AT_HEAD = 0 ->
  dl_tree_wf (dl_tree ad) ->
  is_Some (elv_priv rq) -> rq_deadline ad rq < 2 ^ 63 ->
  group_alloc_ok env = true ->
  exists ad',
    insert_request ad rq flags env = Some ad'
    /\ dl_tree_wf (dl_tree ad')
    /\ lat_model ad' = lat_model ad /\ latency_target ad' = latency_target ad
    /\ prio_queue ad' = prio_queue ad
    /\ batch_queue ad' = batch_queue ad
    /\ dl_tree_size (dl_tree ad')
       = ((if try_insert_merge env then 0 else 1) + dl_tree_size (dl_tree ad))%nat.
Proof.
  intros Hf Hwf [rd Hrd] Hd Halloc. unfold insert_request. rewrite Hf. simpl.
  destruct (try_insert_merge env); [by exists ad|].
  pose proof (rq_deadline_u64 ad rq) as Hu. unfold is_u64 in Hu.
  set (d := rq_deadline ad rq) in *.
  set (rq1 := set_elv_priv
                (Some (RqData d (rq_pred_lat ad rq) (blk_rq_bytes rq) (Some d)))
                rq).
  assert (Hl1 : linked_in d rq1) by (eexists; split; [reflexivity | done]).
  destruct (dl_link_alloc (dl_tree ad) d rq1) as [t Ht].
  destruct (dl_link_wf true _ d rq1 t Hwf ltac:(lia) Hl1 Ht) as [Hwf' _].
  exists (set_dl_tree t ad). split.
  { rewrite Halloc. unfold add_to_dl_tree, get_rq_data. rewrite Hrd.
    cbn [mbind option_bind]. cbv zeta. fold d. fold rq1. by rewrite Ht. }
  simpl. split; [exact Hwf'|]. do 4 (split; [done|]).
  apply (dl_link_size _ _ _ _ _ Ht).
Qed.

(** X8. [adios_insert_requests] without [BLK_MQ_INSERT_AT_HEAD], on a
    well-formed tree, with prepared requests whose deadlines are below 2^63
    and with memory for every group: every request the host does not merge
    away is linked in the tree, so the number of linked requests grows by
    exactly the number of requests not merged; the tree stays well formed
    and the priority and batch queues are not touched.  (What happens to a
    request without memory for its group is the subject of X15.) *)
Theorem adios_insert_requests_links_all
    (ad : adios_data) (l : list (request * insert_env)) (flags : Z) :
  Z.land flags BLK_MQ_INSERT_AT_HEAD = 0 ->
  dl_tree_wf (dl_tree ad) ->
  Forall (fun p => is_Some (elv_priv (fst p))
                   /\ rq_deadline ad (fst p) < 2 ^ 63
                   /\ group_alloc_ok (snd p) = true) l ->
  exists ad',
    adios_insert_requests ad l flags = Some ad'
    /\ dl_tree_wf (dl_tree ad')
    /\ prio_queue ad' = prio_queue ad
    /\ batch_queue ad' = batch_queue ad
    /\ dl_tree_size (dl_tree ad')
       = (length (List.filter (fun p => negb (try_insert_merge (snd p))) l)
          + dl_tree_size (dl_tree ad))%nat.
Proof.
  intros Hf. revert ad. induction l as [|[rq env] l IH]; intros ad Hwf Hl.
  - exists ad. simpl. done.
  - inversion Hl as [|? ? (Hp & Hd & Ha) Hl']; subst. simpl in Hp, Hd, Ha.
    destruct (insert_request_tree ad rq flags env Hf Hwf Hp Hd Ha)
      as (ad1 & H1 & Hwf1 & Hm & Ht & Hq & Hb & Hs).
    destruct (IH ad1 Hwf1) as (ad' & H' & Hwf' & Hq' & Hb' & Hs').
    { eapply Forall_impl; [exact Hl'|]. simpl. intros p (? & ? & ?).
      split; [done|]. split; [|done]. by rewrite (rq_deadline_ext ad ad1). }
    exists ad'. simpl. rewrite H1. simpl.
    split; [exact H'|]. split; [done|]. split; [congruence|].
    split; [congruence|]. rewrite Hs', Hs.
    destruct (try_insert_merge env); simpl; lia.
Qed.

Lemma adios_insert_requests_links_all_witness :
  exists ad',
    adios_insert_requests (init_adios_data 0)
      [(rq_a, merge_none); (rq_b, InsertEnv true true); (rq_c, merge_none)] 0
    = Some ad'
    /\ dl_tree_size (dl_tree ad') = 2%nat.
Proof.
  destruct (adios_insert_requests_links_all (init_adios_data 0)
              [(rq_a, merge_none); (rq_b, InsertEnv true true); (rq_c, merge_none)]
              0) as (ad' & H1 & _ & _ & _ & H2).
  - reflexivity.
  - exact dl_tree_wf_nil.
  - repeat (constructor;
            [split; [by eexists | split; [vm_compute; reflexivity | reflexivity]]|]).
    constructor.
  - exists ad'. split; [exact H1 | exact H2].
Defined.

(** ** What a fill pass moves *)

Section FillMoves.

Variables (glw page : Z).

(** A staging turn, in full. *)
Lemma fill_iter_staged st rq1 st' :
  dl_tree_wf (dl_tree (fs_ad st)) ->
  fill_iter glw page st = FillStaged rq1 st' ->
  exists rq,
    dl_flat (dl_tree (fs_ad st)) = rq :: dl_flat (dl_tree (fs_ad st'))
    /\ rq1 = rq_unlinked rq
    /\ (fs_count st = 0
        \/ fill_breaks glw page (fs_ad st) (adios_optype rq)
             (wrap64 (fs_current_lat st + rq_pred rq)) = false)
    /\ batch_queue (fs_ad st')
       = pset page
           (oset (adios_optype rq)
              (oget (adios_optype rq) (pget page (batch_queue (fs_ad st)))
               ++ [rq1])
              (pget page (batch_queue (fs_ad st))))
           (batch_queue (fs_ad st))
    /\ batch_count (fs_ad st')
       = pset page
           (oset (adios_optype rq)
              (wrap32 (oget (adios_optype rq)
                         (pget page (batch_count (fs_ad st))) + 1))
              (pget page (batch_count (fs_ad st))))
           (batch_count (fs_ad st))
    /\ total_pred_lat (fs_ad st')
       = wrap64 (total_pred_lat (fs_ad st) + rq_pred rq)
    /\ prio_queue (fs_ad st') = prio_queue (fs_ad st)
    /\ bq_page (fs_ad st') = bq_page (fs_ad st)
    /\ more_bq_ready (fs_ad st') = more_bq_ready (fs_ad st)
    /\ batch_actual_max_size (fs_ad st') = batch_actual_max_size (fs_ad st)
    /\ batch_actual_max_total (fs_ad st') = batch_actual_max_total (fs_ad st).
Proof.
  intros Hwf. unfold fill_iter, get_ealiest_request.
  destruct (dl_tree (fs_ad st)) as [|g t] eqn:Ht; [done|].
  pose proof Hwf as [Hok Hs]. inversion Hok as [|? ? Hg _]; subst.
  destruct Hg as (_ & Hne & Hl).
  destruct (rqs g) as [|rq l] eqn:Hrqs; [done|].
  inversion Hl as [|? ? (rd & Hrd & Hgrp) _]; subst.
  simpl. unfold get_rq_data. rewrite Hrd.
  destruct (negb (fs_count st =? 0) && _) eqn:Hb; [done|].
  unfold remove_request, del_from_dl_tree, get_rq_data.
  rewrite Hrd. simpl. rewrite Hgrp. simpl.
  intros [= <- <-]. exists rq. simpl.
  assert (Hp : rq_pred rq = rd_pred_lat rd) by (unfold rq_pred; by rewrite Hrd).
  assert (Hu : rq_unlinked rq
               = set_elv_priv
                   (Some (RqData (rd_deadline rd) (rd_pred_lat rd)
                            (rd_block_size rd) None)) rq)
    by (unfold rq_unlinked; by rewrite Hrd).
  rewrite Hp, Hu, Ht. simpl. rewrite Z.eqb_refl, Hrqs. simpl.
  rewrite Nat.eqb_refl.
  split; [unfold dl_flat; simpl; rewrite Hrqs; by destruct l|].
  split; [done|]. split; [|done].
  apply andb_false_iff in Hb as [Hb|Hb]; [|by right].
  left. apply negb_false_iff in Hb. by apply Z.eqb_eq.
Qed.

Lemma pset_pset {A} (x y : A) v : pset page x (pset page y v) = pset page x v.
Proof. unfold pset. by destruct (page =? 0). Qed.

Lemma pset_pget {A} (v : pages A) : pset page (pget page v) v = v.
Proof. unfold pset, pget. by destruct (page =? 0), v. Qed.

Lemma of_type_app o l1 l2 : of_type o (l1 ++ l2) = of_type o l1 ++ of_type o l2.
Proof. apply List.filter_app. Qed.

Lemma rq_unlinked_optype r : adios_optype (rq_unlinked r) = adios_optype r.
Proof. unfold rq_unlinked. by destruct (elv_priv r). Qed.

Lemma sum_pred_app l1 l2 : sum_pred (l1 ++ l2) = sum_pred l1 + sum_pred l2.
Proof. induction l1 as [|r l1 IH]; simpl; [done|]. rewrite IH. lia. Qed.

Lemma of_type_single o r :
  of_type o [r] = if bool_decide (adios_optype r = o) then [r] else [].
Proof. done. Qed.

(** After [k] turns the loop has moved the first [k] requests of the tree,
    in order, to the lists of the page. *)
Lemma fill_reach_moves st k st' :
  dl_tree_wf (dl_tree (fs_ad st)) ->
  is_u32 (fs_count st) ->
  (forall o, is_u32 (oget o (pget page (batch_count (fs_ad st))))) ->
  is_u64 (total_pred_lat (fs_ad st)) ->
  fill_reach glw page st k st' ->
  let flat := dl_flat (dl_tree (fs_ad st)) in
  let staged := map rq_unlinked (take k flat) in
  (k <= length flat)%nat
  /\ dl_flat (dl_tree (fs_ad st')) = drop k flat
  /\ batch_queue (fs_ad st')
     = pset page (pget page (batch_queue (fs_ad st'))) (batch_queue (fs_ad st))
  /\ (forall o,
        oget o (pget page (batch_queue (fs_ad st')))
        = oget o (pget page (batch_queue (fs_ad st))) ++ of_type o staged)
  /\ batch_count (fs_ad st')
     = pset page (pget page (batch_count (fs_ad st'))) (batch_count (fs_ad st))
  /\ (forall o,
        oget o (pget page (batch_count (fs_ad st')))
        = wrap32 (oget o (pget page (batch_count (fs_ad st)))
                  + Z.of_nat (length (of_type o staged))))
  /\ total_pred_lat (fs_ad st')
     = wrap64 (total_pred_lat (fs_ad st) + sum_pred (take k flat))
  /\ prio_queue (fs_ad st') = prio_queue (fs_ad st)
  /\ bq_page (fs_ad st') = bq_page (fs_ad st)
  /\ more_bq_ready (fs_ad st') = more_bq_ready (fs_ad st)
  /\ batch_actual_max_size (fs_ad st') = batch_actual_max_size (fs_ad st)
  /\ batch_actual_max_total (fs_ad st') = batch_actual_max_total (fs_ad st).
Proof.
  intros Hwf Hc Hbc Htpl Hreach flat staged. subst staged.
  induction Hreach as [|k st1 rq1 st2 Hreach IH Hit].
  - simpl. rewrite !pset_pget. split; [lia|]. split; [done|]. split; [done|].
    split; [intros o; by rewrite app_nil_r|]. split; [done|].
    split; [intros o; by rewrite Z.add_0_r, wrap32_id|].
    split; [|done]. by rewrite Z.add_0_r, wrap64_id.
  - destruct IH as (Hk & Hflat & Hq & Hqo & Hb & Hbo & Ht & Hp & Hpg & Hm & Hs1 & Hs2).
    destruct (fill_reach_inv glw page st k st1 Hwf Hc Hreach) as (Hwf1 & _).
    destruct (fill_iter_staged st1 rq1 st2 Hwf1 Hit)
      as (rq & Hf1 & -> & _ & Hq2 & Hb2 & Ht2 & Hp2 & Hpg2 & Hm2 & Hs12 & Hs22).
    rewrite Hflat in Hf1.
    assert (Hlk : flat !! k = Some rq).
    { pose proof (lookup_drop flat k 0) as Hd. rewrite Hf1 in Hd.
      simpl in Hd. by rewrite Nat.add_0_r in Hd. }
    assert (Hdrop : drop (S k) flat = dl_flat (dl_tree (fs_ad st2))).
    { pose proof (drop_S flat rq k Hlk) as Hd. rewrite Hf1 in Hd.
      by injection Hd as <-. }
    rewrite (take_S_r flat k rq Hlk), map_app. simpl.
    split; [apply lookup_lt_Some in Hlk; lia|]. split; [done|].
    assert (Hqp : pget page (batch_queue (fs_ad st2))
                  = oset (adios_optype rq)
                      (oget (adios_optype rq) (pget page (batch_queue (fs_ad st1)))
                       ++ [rq_unlinked rq])
                      (pget page (batch_queue (fs_ad st1))))
      by (by rewrite Hq2, pget_pset_eq).
    assert (Hbp : pget page (batch_count (fs_ad st2))
                  = oset (adios_optype rq)
                      (wrap32 (oget (adios_optype rq)
                                 (pget page (batch_count (fs_ad st1))) + 1))
                      (pget page (batch_count (fs_ad st1))))
      by (by rewrite Hb2, pget_pset_eq).
    split; [rewrite Hqp, Hq2, Hq; by rewrite pset_pset|].
    split.
    { intros o. rewrite Hqp, of_type_app, of_type_single, rq_unlinked_optype.
      destruct (decide (adios_optype rq = o)) as [<-|Hne].
      - rewrite oget_oset_eq, Hqo, bool_decide_true by done.
        by rewrite <- app_assoc.
      - rewrite oget_oset_ne, Hqo, bool_decide_false by done.
        by rewrite app_nil_r. }
    split; [rewrite Hbp, Hb2, Hb; by rewrite pset_pset|].
    split.
    { intros o. rewrite Hbp, of_type_app, of_type_single, rq_unlinked_optype.
      destruct (decide (adios_optype rq = o)) as [<-|Hne].
      - rewrite oget_oset_eq, Hbo, bool_decide_true by done.
        rewrite length_app. simpl. unfold wrap32.
        rewrite Zplus_mod_idemp_l. f_equal. lia.
      - rewrite oget_oset_ne, Hbo, bool_decide_false by done.
        by rewrite app_nil_r. }
    split.
    { rewrite Ht2, Ht, sum_pred_app. simpl. unfold wrap64.
      rewrite Zplus_mod_idemp_l. f_equal. lia. }
    repeat split; congruence.
Qed.

End FillMoves.

Lemma fill_finish_fields st :
  let '(ad', r) := fill_finish st in
  r = negb (fs_count st =? 0)
  /\ dl_tree ad' = dl_tree (fs_ad st)
  /\ batch_queue ad' = batch_queue (fs_ad st)
  /\ batch_count ad' = batch_count (fs_ad st)
  /\ total_pred_lat ad' = total_pred_lat (fs_ad st)
  /\ prio_queue ad' = prio_queue (fs_ad st)
  /\ bq_page ad' = bq_page (fs_ad st)
  /\ more_bq_ready ad' = (r || more_bq_ready (fs_ad st)).
Proof.
  unfold fill_finish. destruct (fs_count st =? 0); simpl; repeat split; done.
Qed.

(** The pass as a whole: the turns it takes and the state it stops in. *)
Lemma fill_batch_queues_run glw ad current_lat :
  dl_tree_wf (dl_tree ad) ->
  exists k st_k st_fin,
    fill_reach glw (fill_page ad) (fill_start ad current_lat) k st_k
    /\ fill_iter glw (fill_page ad) st_k = FillStop st_fin
    /\ fill_batch_queues glw ad current_lat = Some (fill_finish st_fin)
    /\ fs_ad st_fin = fs_ad st_k
    /\ fs_count st_fin = wrap32 (Z.of_nat k).
Proof.
  intros Hwf. set (page := fill_page ad). set (start := fill_start ad current_lat).
  assert (Hwf0 : dl_tree_wf (dl_tree (fs_ad start))) by exact Hwf.
  assert (Hc0 : is_u32 (fs_count start)) by (unfold is_u32; simpl; lia).
  destruct (fill_loop_total glw page (S (dl_tree_size (dl_tree ad))) start)
    as (k & st_k & st_fin & Hl & Hr & Hstop); [done | done | simpl; lia |].
  exists k, st_k, st_fin. split; [done|]. split; [done|].
  destruct (fill_stop_same _ _ _ _ Hstop) as [Had Hcnt].
  destruct (fill_reach_inv _ _ _ _ _ Hwf0 Hc0 Hr) as (_ & _ & Hck & _).
  split; [|split; [done|]].
  - unfold fill_batch_queues. fold page.
    change (FillState (reset_batch_counts ad page) current_lat 0 (oconst 0))
      with start.
    change (dl_tree (reset_batch_counts ad page)) with (dl_tree ad).
    by rewrite Hl.
  - by rewrite Hcnt, Hck.
Qed.



(** The page counts stay within the batch limits along the loop. *)
Lemma fill_reach_limits glw ad current_lat k st :
  dl_tree_wf (dl_tree ad) ->
  Z.of_nat (dl_tree_size (dl_tree ad)) < 2 ^ 32 ->
  (forall o, is_u32 (oget o (batch_limit ad))) ->
  fill_reach glw (fill_page ad) (fill_start ad current_lat) k st ->
  forall o,
    0 <= oget o (pget (fill_page ad) (batch_count (fs_ad st)))
      <= Z.max 1 (oget o (batch_limit ad))
    /\ (k = 0%nat -> oget o (pget (fill_page ad) (batch_count (fs_ad st))) = 0).
Proof.
  intros Hwf Hsize Hlim. set (page := fill_page ad).
  set (start := fill_start ad current_lat).
  assert (Hwf0 : dl_tree_wf (dl_tree (fs_ad start))) by exact Hwf.
  assert (Hc0 : is_u32 (fs_count start)) by (unfold is_u32; simpl; lia).
  induction 1 as [|k st1 rq1 st2 Hreach IH Hit]; intros o.
  - simpl. rewrite pget_pset_eq. destruct o; simpl; lia.
  - destruct (fill_reach_inv _ _ _ _ _ Hwf0 Hc0 Hreach)
      as (Hwf1 & Hsz & Hcnt & _ & Hbl & _).
    change (dl_tree (fs_ad start)) with (dl_tree ad) in Hsz.
    change (batch_limit (fs_ad start)) with (batch_limit ad) in Hbl.
    simpl in Hcnt. rewrite wrap32_id in Hcnt by (unfold is_u32; lia).
    destruct (fill_iter_staged glw page st1 rq1 st2 Hwf1 Hit)
      as (rq & _ & _ & Hbrk & _ & Hb2 & _).
    rewrite Hb2, pget_pset_eq. split; [|lia].
    destruct (decide (adios_optype rq = o)) as [<-|Hne];
      [|rewrite oget_oset_ne by done; apply IH].
    rewrite oget_oset_eq.
    destruct (IH (adios_optype rq)) as [Hr0 Hz].
    pose proof (Hlim (adios_optype rq)) as Hl. unfold is_u32 in Hl.
    destruct Hbrk as [H0|Hbrk].
    + rewrite Hz by lia. change (wrap32 (0 + 1)) with 1. lia.
    + apply fill_breaks_false in Hbrk as (_ & Hlt & _). rewrite Hbl in Hlt.
      rewrite wrap32_id by (unfold is_u32; lia). lia.
Qed.

(** X10. After a fill pass over a well-formed tree of fewer than 2^32
    requests, with batch limits that fit their [u32] fields and
    [total_pred_lat] holding a [u64] value: the pass has
    taken some first [k] requests off the tree and appended those of each
    operation type to the list of that type on the page; the count the
    page keeps for the type is the number of requests so appended, and it
    is at most the type's batch limit, or 1 where the limit is 0 (the
    first request of a pass is always staged). *)
Theorem fill_batch_queues_respects_limits
    (glw : Z) (ad : adios_data) (current_lat : Z) :
  dl_tree_wf (dl_tree ad) ->
  Z.of_nat (dl_tree_size (dl_tree ad)) < 2 ^ 32 ->
  (forall o, is_u32 (oget o (batch_limit ad))) ->
  is_u64 (total_pred_lat ad) ->
  let page := fill_page ad in
  exists k ad' r,
    fill_batch_queues glw ad current_lat = Some (ad', r)
    /\ dl_flat (dl_tree ad') = drop k (dl_flat (dl_tree ad))
    /\ forall o,
         oget o (pget page (batch_queue ad'))
         = oget o (pget page (batch_queue ad))
           ++ of_type o (map rq_unlinked (take k (dl_flat (dl_tree ad))))
         /\ Z.of_nat (length (oget o (pget page (batch_queue ad'))))
            = Z.of_nat (length (oget o (pget page (batch_queue ad))))
              + oget o (pget page (batch_count ad'))
         /\ 0 <= oget o (pget page (batch_count ad'))
            <= Z.max 1 (oget o (batch_limit ad)).
Proof.
  intros Hwf Hsize Hlim Htpl page.
  destruct (fill_batch_queues_run glw ad current_lat Hwf)
    as (k & st_k & st_fin & Hr & Hstop & Hfill & Had & Hcnt).
  destruct (fill_reach_moves glw page (fill_start ad current_lat) k st_k)
    as (Hk & Hflat & _ & Hqo & _ & Hbo & _);
    [done | unfold is_u32; simpl; lia
    | intros o; simpl; rewrite pget_pset_eq; destruct o; unfold is_u32; simpl; lia
    | done | done |].
  pose proof (fill_finish_fields st_fin) as Hfin.
  destruct (fill_finish st_fin) as [ad' r].
  destruct Hfin as (_ & H1 & H2 & H3 & _).
  exists k, ad', r. split; [done|]. rewrite H1, H2, H3, Had.
  split; [exact Hflat|]. intros o.
  assert (Hc : oget o (pget page (batch_count (fs_ad st_k)))
               = Z.of_nat (length (of_type o
                   (map rq_unlinked (take k (dl_flat (dl_tree ad))))))).
  { rewrite Hbo. simpl. rewrite pget_pset_eq.
    replace (oget o (oconst 0)) with 0 by (by destruct o). rewrite Z.add_0_l.
    apply wrap32_id. unfold is_u32. split; [lia|].
    pose proof (List.filter_length_le
                  (fun r => bool_decide (adios_optype r = o))
                  (map rq_unlinked (take k (dl_flat (dl_tree ad))))) as Hle.
    unfold of_type. rewrite length_map, length_take in Hle.
    unfold dl_tree_size in Hsize. unfold dl_flat in *. lia. }
  split; [exact (Hqo o)|]. split.
  - rewrite (Hqo o), length_app, Hc. simpl. lia.
  - apply (fill_reach_limits glw ad current_lat k st_k Hwf Hsize Hlim Hr o).
Qed.

Lemma fill_batch_queues_respects_limits_witness :
  exists ad ad' r,
    dl_run calibrated_ad [DlAdd rq_a true; DlAdd rq_b true; DlAdd rq_c true]
    = Some ad
    /\ fill_batch_queues 16000000 ad 0 = Some (ad', r)
    /\ oget ADIOS_READ (pget (fill_page ad) (batch_count ad'))
       <= Z.max 1 (oget ADIOS_READ (batch_limit ad)).
Proof.
  destruct (dl_run_wf calibrated_ad
              [DlAdd rq_a true; DlAdd rq_b true; DlAdd rq_c true])
    as (ad & Hrun & Hwf & _).
  { exact dl_tree_wf_nil. }
  { repeat (constructor; [split; [by eexists | vm_compute; reflexivity]|]).
    constructor. }
  pose proof Hrun as Hrun'. vm_compute in Hrun'. injection Hrun' as Had.
  destruct (fill_batch_queues_respects_limits 16000000 ad 0 Hwf)
    as (k & ad' & r & H1 & _ & H2).
  { rewrite <- Had. vm_compute. reflexivity. }
  { intros o. rewrite <- Had. destruct o; vm_compute; split; (discriminate || reflexivity). }
  { rewrite <- Had. vm_compute. split; [discriminate | reflexivity]. }
  exists ad, ad', r. split; [exact Hrun|]. split; [exact H1|].
  exact (proj2 (proj2 (proj2 (H2 ADIOS_READ)))).
Defined.

(** ** Dispatch *)

Lemma pget_pset_ne {A} p page (x : A) v :
  (p =? 0) <> (page =? 0) -> pget p (pset page x v) = pget p v.
Proof. unfold pget, pset. by destruct (p =? 0), (page =? 0). Qed.

Lemma fill_page_other ad :
  bq_page ad = 0 \/ bq_page ad = 1 ->
  (bq_page ad =? 0) <> (fill_page ad =? 0).
Proof. unfold fill_page. by intros [-> | ->]. Qed.

Lemma fill_batch_queues_empty glw ad current_lat :
  dl_tree ad = [] ->
  fill_batch_queues glw ad current_lat
  = Some (reset_batch_counts ad (fill_page ad), false).
Proof.
  intros Ht. unfold fill_batch_queues.
  change (dl_tree (reset_batch_counts ad (fill_page ad))) with (dl_tree ad).
  rewrite Ht. simpl. unfold fill_iter, get_ealiest_request. simpl.
  by rewrite Ht.
Qed.

(** What a fill pass leaves alone, and what it leaves on the page when the
    tree is not empty. *)
Lemma fill_batch_queues_frame glw ad current_lat :
  dl_tree_wf (dl_tree ad) ->
  is_u64 (total_pred_lat ad) ->
  exists ad' r,
    fill_batch_queues glw ad current_lat = Some (ad', r)
    /\ prio_queue ad' = prio_queue ad
    /\ bq_page ad' = bq_page ad
    /\ more_bq_ready ad' = (r || more_bq_ready ad)
    /\ batch_queue ad'
       = pset (fill_page ad) (pget (fill_page ad) (batch_queue ad'))
           (batch_queue ad)
    /\ dl_tree_wf (dl_tree ad')
    /\ is_u64 (total_pred_lat ad')
    /\ (dl_tree_size (dl_tree ad') <= dl_tree_size (dl_tree ad))%nat
    /\ (dl_tree ad <> [] ->
        Z.of_nat (dl_tree_size (dl_tree ad)) < 2 ^ 32 ->
        r = true
        /\ exists o, oget o (pget (fill_page ad) (batch_queue ad')) <> []).
Proof.
  intros Hwf Htpl. set (page := fill_page ad).
  destruct (fill_batch_queues_run glw ad current_lat Hwf)
    as (k & st_k & st_fin & Hr & Hstop & Hfill & Had & Hcnt).
  destruct (fill_reach_inv glw page (fill_start ad current_lat) k st_k)
    as (Hwf' & Hsz & _); [done | unfold is_u32; simpl; lia | done |].
  destruct (fill_reach_moves glw page (fill_start ad current_lat) k st_k)
    as (Hk & Hflat & Hq & Hqo & _ & _ & Ht & Hp & Hpg & Hm & _);
    [done | unfold is_u32; simpl; lia
    | intros o; simpl; rewrite pget_pset_eq; destruct o; unfold is_u32; simpl; lia
    | done | done |].
  pose proof (fill_finish_fields st_fin) as Hfin.
  destruct (fill_finish st_fin) as [ad' r].
  destruct Hfin as (Hr' & H1 & H2 & H3 & H4 & H5 & H6 & H7).
  exists ad', r. rewrite Had in *.
  split; [done|]. split; [by rewrite H5|]. split; [by rewrite H6|].
  split; [by rewrite H7, Hm|]. split; [by rewrite H2|].
  split; [by rewrite H1|].
  split; [rewrite H4, Ht; apply wrap64_range|].
  split; [rewrite H1; simpl in Hsz; lia|].
  intros Hne Hsize.
  assert (Hk1 : (1 <= k)%nat).
  { destruct k as [|k]; [|lia]. inversion Hr; subst.
    destruct (fill_iter_cases glw page (fill_start ad current_lat) Hwf)
      as [[Hnil _] | (g & t & rq0 & l & rd & _ & _ & _ & _ & Hcase)]; [done|].
    simpl in Hcase. destruct Hcase as [[Hb _] | (_ & ? & ? & Hit & _)];
      [done |]. unfold page in Hit. congruence. }
  simpl in Hflat, Hk, Hqo.
  unfold dl_tree_size in Hsize. fold (dl_flat (dl_tree ad)) in Hsize.
  split.
  - rewrite Hr', Hcnt, wrap32_id by (unfold is_u32; lia).
    by destruct (Z.eqb_spec (Z.of_nat k) 0); [lia|].
  - destruct (dl_flat (dl_tree ad)) as [|rq flat] eqn:Ef; [simpl in Hk; lia|].
    exists (adios_optype rq). rewrite H2, Hqo.
    destruct k as [|k]; [lia|]. simpl.
    rewrite rq_unlinked_optype, bool_decide_true by done.
    by destruct (oget _ _).
Qed.

Lemma bq_scan_first q o rq l :
  oget o q = rq :: l ->
  (forall o', (optype_rank o' < optype_rank o)%nat -> oget o' q = []) ->
  bq_scan optype_order q = Some (rq, oset o l q).
Proof.
  intros Ho Hbefore. unfold optype_order. cbn [bq_scan].
  destruct o.
  - by rewrite Ho.
  - rewrite (Hbefore ADIOS_READ) by (simpl; lia). by rewrite Ho.
  - rewrite (Hbefore ADIOS_READ), (Hbefore ADIOS_WRITE) by (simpl; lia).
    by rewrite Ho.
  - rewrite (Hbefore ADIOS_READ), (Hbefore ADIOS_WRITE),
      (Hbefore ADIOS_DISCARD) by (simpl; lia).
    by rewrite Ho.
Qed.

Lemma bq_scan_none q :
  bq_scan optype_order q = None <-> forall o, oget o q = [].
Proof.
  unfold optype_order. cbn [bq_scan]. split.
  - intros H o. destruct q as [r w d x]. simpl in *.
    destruct r, w, d, x; try done. by destruct o.
  - intros H. by rewrite (H ADIOS_READ), (H ADIOS_WRITE), (H ADIOS_DISCARD),
      (H ADIOS_OTHER).
Qed.



Lemma bq_has_work_false ad :
  bq_has_work ad = false
  <-> (forall o, oget o (pget (bq_page ad) (batch_queue ad)) = [])
      /\ more_bq_ready ad = false.
Proof.
  unfold bq_has_work, optype_order. cbn [existsb].
  set (q := pget (bq_page ad) (batch_queue ad)). split.
  - intros H. apply orb_false_elim in H as [H Hm]. split; [|done].
    intros o. destruct q as [r w d x]. simpl in *.
    destruct r, w, d, x; try done. by destruct o.
  - intros [H ->].
    by rewrite (H ADIOS_READ), (H ADIOS_WRITE), (H ADIOS_DISCARD),
      (H ADIOS_OTHER).
Qed.

Lemma bq_serve_none ad :
  bq_serve ad = None
  <-> forall o, oget o (pget (bq_page ad) (batch_queue ad)) = [].
Proof.
  unfold bq_serve. rewrite <- bq_scan_none.
  by destruct (bq_scan _ _) as [[? ?]|].
Qed.

Lemma fill_page_flip ad :
  bq_page ad = 0 \/ bq_page ad = 1 ->
  fill_page (flip_bq_page ad) = bq_page ad.
Proof. unfold fill_page. simpl. by intros [-> | ->]. Qed.

Lemma fill_page_range ad :
  bq_page ad = 0 \/ bq_page ad = 1 -> fill_page ad = 0 \/ fill_page ad = 1.
Proof. unfold fill_page. intros [-> | ->]; [by right | by left]. Qed.

(** The passes from [again] on: the pages stay in step with
    [more_bq_ready], and nothing is returned exactly when [bq_has_work]
    says so. *)
Lemma bq_serve_again_spec ad1 :
  bq_pages_ok ad1 ->
  exists r ad2,
    bq_serve_again ad1 = Some (r, ad2)
    /\ bq_pages_ok ad2
    /\ prio_queue ad2 = prio_queue ad1
    /\ dl_tree ad2 = dl_tree ad1
    /\ total_pred_lat ad2 = total_pred_lat ad1
    /\ (r = None <-> bq_has_work ad1 = false).
Proof.
  intros [Hp Hm]. unfold bq_serve_again.
  destruct (bq_serve ad1) as [[rq ad2]|] eqn:Es.
  - exists (Some rq), ad2. split; [done|].
    assert (Hnone : bq_serve ad1 <> None) by congruence.
    unfold bq_serve in Es.
    destruct (bq_scan _ _) as [[rq' q']|]; [|done].
    injection Es as -> <-. simpl.
    split.
    { split; [done|]. unfold fill_page in *. simpl.
      rewrite pget_pset_ne; [done|].
      apply not_eq_sym. by apply fill_page_other. }
    do 3 (split; [done|]).
    split; [done|]. intros Hw. apply bq_has_work_false in Hw as [Hw _].
    by pose proof (proj2 (bq_serve_none _) Hw).
  - pose proof (proj1 (bq_serve_none ad1) Es) as Hempty.
    destruct (more_bq_ready ad1) eqn:Em.
    + destruct (bq_serve (flip_bq_page ad1)) as [[rq ad3]|] eqn:Es2.
      * exists (Some rq), ad3. split; [done|].
        unfold bq_serve in Es2.
        destruct (bq_scan _ _) as [[rq' q']|]; [|done].
        injection Es2 as -> <-.
        split.
        { split; [exact (fill_page_range ad1 Hp)|].
          split; [|done]. intros _.
          change (fill_page (set_batch_queue _ _))
            with (fill_page (flip_bq_page ad1)).
          rewrite (fill_page_flip ad1 Hp). simpl.
          rewrite pget_pset_ne; [done|]. by apply fill_page_other. }
        do 3 (split; [done|]).
        split; [done|]. unfold bq_has_work. rewrite Em, orb_true_r. done.
      * pose proof (proj1 (bq_serve_none _) Es2) as Hall. simpl in Hall.
        apply Hm in Hall. congruence.
    + exists None, ad1. split; [done|].
      split; [split; [done|]; by rewrite Em|].
      do 3 (split; [done|]). split; [|done]. intros _.
      by apply bq_has_work_false.
Qed.

(** The refill step at the head of [dispatch_from_bq]. *)
Lemma bq_refill_spec g ad :
  dl_tree_wf (dl_tree ad) ->
  Z.of_nat (dl_tree_size (dl_tree ad)) < 2 ^ 32 ->
  is_u64 (total_pred_lat ad) ->
  bq_pages_ok ad ->
  exists ad1,
    (if bq_wants_refill g ad
     then '(ad', _) ← fill_batch_queues (global_latency_window g) ad
                        (total_pred_lat ad);
          Some ad'
     else Some ad) = Some ad1
    /\ bq_pages_ok ad1
    /\ dl_tree_wf (dl_tree ad1)
    /\ is_u64 (total_pred_lat ad1)
    /\ (dl_tree_size (dl_tree ad1) <= dl_tree_size (dl_tree ad))%nat
    /\ prio_queue ad1 = prio_queue ad
    /\ bq_has_work ad1
       = (bq_has_work ad || (dl_tree_has_work ad && bq_wants_refill g ad)).
Proof.
  intros Hwf Hsize Htpl [Hp Hm].
  destruct (bq_wants_refill g ad) eqn:Ew.
  2:{ exists ad. rewrite andb_false_r, orb_false_r.
      split; [done|]. split; [by split|]. do 2 (split; [done|]).
      split; [lia | done]. }
  assert (Hmore : more_bq_ready ad = false).
  { unfold bq_wants_refill in Ew. by destruct (more_bq_ready ad). }
  destruct (fill_batch_queues_frame (global_latency_window g) ad
              (total_pred_lat ad) Hwf Htpl)
    as (ad1 & r & Hfill & Hpq & Hpg & Hmr & Hq & Hwf1 & Ht1 & Hsz & Hne).
  rewrite Hfill. simpl. exists ad1. split; [done|].
  assert (Hact : pget (bq_page ad) (batch_queue ad1)
                 = pget (bq_page ad) (batch_queue ad)).
  { rewrite Hq. apply pget_pset_ne. by apply fill_page_other. }
  assert (Hfp : fill_page ad1 = fill_page ad)
    by (unfold fill_page; by rewrite Hpg).
  rewrite Hmore, orb_false_r in Hmr.
  destruct (dl_tree ad) as [|g0 t0] eqn:Et.
  - rewrite (fill_batch_queues_empty _ _ _ Et) in Hfill.
    injection Hfill as <- <-.
    split; [exact (conj Hp Hm)|]. split; [exact Hwf1|]. split; [done|].
    split; [exact Hsz|]. split; [done|].
    unfold dl_tree_has_work. rewrite Et. simpl. by rewrite orb_false_r.
  - destruct Hne as [-> (o & Ho)]; [done | done |].
    split.
    { split; [by rewrite Hpg|]. rewrite Hmr, Hfp. split; [done|].
      intros Hall. by specialize (Hall o). }
    do 4 (split; [done|]).
    unfold dl_tree_has_work. rewrite Et. simpl. rewrite orb_true_r.
    unfold bq_has_work. by rewrite Hmr, orb_true_r.
Qed.

(** X12. [adios_dispatch_request] never faults on a well-formed tree and
    keeps the two batch-queue pages in step with [more_bq_ready]: after the
    call [bq_page] is still 0 or 1, and the page that is not active holds a
    request exactly when [more_bq_ready] is set.  The tree stays
    well-formed and does not grow. *)
Theorem adios_dispatch_request_keeps_pages
    (rq_flags : request -> Z) (RQF_STARTED : Z)
    (g : adios_globals) (ad : adios_data) :
  dl_tree_wf (dl_tree ad) ->
  Z.of_nat (dl_tree_size (dl_tree ad)) < 2 ^ 32 ->
  is_u64 (total_pred_lat ad) ->
  bq_pages_ok ad ->
  exists r ad',
    adios_dispatch_request rq_flags RQF_STARTED g ad = Some (r, ad')
    /\ bq_pages_ok ad'
    /\ dl_tree_wf (dl_tree ad')
    /\ is_u64 (total_pred_lat ad')
    /\ (dl_tree_size (dl_tree ad') <= dl_tree_size (dl_tree ad))%nat.
Proof.
  intros Hwf Hsize Htpl Hok. unfold adios_dispatch_request, dispatch_from_pq.
  destruct (prio_queue ad) as [|rq q] eqn:Epq.
  - unfold dispatch_from_bq. fold (bq_serve_again).
    destruct (bq_refill_spec g ad Hwf Hsize Htpl Hok)
      as (ad1 & -> & Hok1 & Hwf1 & Ht1 & Hsz1 & _).
    cbn [mbind option_bind].
    change (match bq_serve ad1 with
            | Some (rq, ad2) => Some (Some rq, ad2)
            | None => _
            end) with (bq_serve_again ad1).
    destruct (bq_serve_again_spec ad1 Hok1)
      as (r & ad2 & -> & Hok2 & _ & Hd2 & Ht2 & _).
    cbn [mbind option_bind]. rewrite <- Hd2, <- Ht2 in *.
    destruct r as [rq|]; eexists _, ad2; (split; [reflexivity|]); done.
  - eexists _, _. split; [reflexivity|]. simpl. done.
Qed.

Lemma adios_dispatch_request_keeps_pages_witness :
  exists ad r ad',
    dl_run calibrated_ad [DlAdd rq_a true; DlAdd rq_b true; DlAdd rq_c true]
    = Some ad
    /\ adios_dispatch_request (fun _ => 0) 2 default_globals ad = Some (r, ad')
    /\ bq_pages_ok ad'.
Proof.
  destruct (dl_run_wf calibrated_ad
              [DlAdd rq_a true; DlAdd rq_b true; DlAdd rq_c true])
    as (ad & Hrun & Hwf & _).
  { exact dl_tree_wf_nil. }
  { repeat (constructor; [split; [by eexists | vm_compute; reflexivity]|]).
    constructor. }
  assert (Had := Hrun). vm_compute in Had. injection Had as Had.
  destruct (adios_dispatch_request_keeps_pages (fun _ => 0) 2 default_globals
              ad Hwf) as (r & ad' & H1 & H2 & _).
  { rewrite <- Had. vm_compute. reflexivity. }
  { rewrite <- Had. vm_compute. split; [discriminate | reflexivity]. }
  { rewrite <- Had. split; [by left|]. split; [by intros _ []|done]. }
  exists ad, r, ad'. split; [exact Hrun|]. split; [exact H1 | exact H2].
Defined.

(** X13. While the pages are in step with [more_bq_ready],
    [adios_has_work] answers false exactly when the scheduler holds no
    request at all: the priority queue, the deadline tree and every list of
    both batch-queue pages are empty.  No request can sit on the page that
    is not active without being reported. *)
Theorem adios_has_work_false_iff_empty (ad : adios_data) :
  bq_pages_ok ad ->
  adios_has_work ad = false
  <-> prio_queue ad = [] /\ dl_tree ad = []
      /\ (forall o, oget o (pget 0 (batch_queue ad)) = [])
      /\ (forall o, oget o (pget 1 (batch_queue ad)) = []).
Proof.
  intros [Hp Hm]. unfold adios_has_work, pq_has_work, dl_tree_has_work.
  split.
  - intros H. apply orb_false_elim in H as [H Ht].
    apply orb_false_elim in H as [Hq Hb].
    apply bq_has_work_false in Hb as [Hact Hmore].
    pose proof (proj1 Hm Hmore) as Hin.
    split; [by destruct (prio_queue ad)|].
    split; [by destruct (dl_tree ad)|].
    unfold fill_page in Hin.
    destruct Hp as [Hp | Hp]; rewrite Hp in *; by split.
  - intros (Hq & Ht & H0 & H1). rewrite Hq, Ht. simpl.
    rewrite orb_false_r. apply bq_has_work_false.
    unfold fill_page in Hm.
    destruct Hp as [Hp | Hp]; rewrite Hp in *; split; try done; by apply Hm.
Qed.

Lemma adios_has_work_false_iff_empty_witness :
  adios_has_work (init_adios_data 0) = false
  <-> prio_queue (init_adios_data 0) = [] /\ dl_tree (init_adios_data 0) = []
      /\ (forall o, oget o (pget 0 (batch_queue (init_adios_data 0))) = [])
      /\ (forall o, oget o (pget 1 (batch_queue (init_adios_data 0))) = []).
Proof.
  apply (adios_has_work_false_iff_empty (init_adios_data 0)).
  split; [by left|]. split; [by intros _ []|done].
Defined.



(** ** A failed group allocation *)




(** ** A timer tick with no new samples *)

Lemma lm_update_small_buckets_fields m c b :
  small_bucket (lm_update_small_buckets m c b) = zero_buckets
  /\ large_bucket (lm_update_small_buckets m c b) = large_bucket m
  /\ base (lm_update_small_buckets m c b) = base m
  /\ slope (lm_update_small_buckets m c b) = slope m
  /\ last_update_jiffies (lm_update_small_buckets m c b)
     = last_update_jiffies m.
Proof. unfold lm_update_small_buckets. by destruct (lm_small_trim _ _). Qed.

Lemma lm_update_large_buckets_fields m c b :
  small_bucket (lm_update_large_buckets m c b) = small_bucket m
  /\ large_bucket (lm_update_large_buckets m c b) = zero_buckets
  /\ base (lm_update_large_buckets m c b) = base m
  /\ slope (lm_update_large_buckets m c b) = slope m
  /\ last_update_jiffies (lm_update_large_buckets m c b)
     = last_update_jiffies m.
Proof. unfold lm_update_large_buckets. by destruct (lm_large_trim _ _). Qed.

(** A call that finds no reason to process either histogram returns the
    model as it is. *)
Lemma latency_model_update_idle now interval m :
  (base m =? 0) || (wrap64 (last_update_jiffies m + interval) <=? now) = false ->
  negb (lm_count_small_entries m =? 0)
  && (LM_SAMPLES_THRESHOLD <=? lm_count_small_entries m) = false ->
  negb (lm_count_large_entries m =? 0)
  && ((LM_SAMPLES_THRESHOLD <=? lm_count_large_entries m) || (slope m =? 0))
  = false ->
  latency_model_update now interval m = Some m.
Proof.
  intros Hte Hs Hl. apply orb_false_elim in Hte as [Hb Ht].
  unfold latency_model_update. cbv zeta. rewrite Hb, Ht. cbn [orb].
  rewrite orb_false_r, Hs. cbn [andb]. rewrite Hl. done.
Qed.

(** The histograms, parameters and time stamp a call leaves behind, in
    terms of what it decided to process. *)
Lemma latency_model_update_fields now interval m m' :
  latency_model_update now interval m = Some m' ->
  let te := (base m =? 0)
            || (wrap64 (last_update_jiffies m + interval) <=? now) in
  let cs := lm_count_small_entries m in
  let cl := lm_count_large_entries m in
  let sp := negb (cs =? 0)
            && (te || (LM_SAMPLES_THRESHOLD <=? cs) || (base m =? 0)) in
  let lp := negb (cl =? 0)
            && (te || (LM_SAMPLES_THRESHOLD <=? cl) || (slope m =? 0)) in
  small_bucket m' = (if sp then zero_buckets else small_bucket m)
  /\ large_bucket m' = (if lp then zero_buckets else large_bucket m)
  /\ (sp = false -> base m' = base m)
  /\ (lp = false -> slope m' = slope m)
  /\ last_update_jiffies m' = (if te then now else last_update_jiffies m).
Proof.
  intros H te cs cl sp lp. unfold latency_model_update in H.
  fold te cs cl in H. fold sp in H.
  set (m1 := if sp then _ else m) in H.
  assert (F1 : small_bucket m1 = (if sp then zero_buckets else small_bucket m)
               /\ large_bucket m1 = large_bucket m
               /\ base m1 = base m /\ slope m1 = slope m
               /\ last_update_jiffies m1 = last_update_jiffies m).
  { unfold m1. destruct sp; [|done].
    apply lm_update_small_buckets_fields. }
  destruct F1 as (F1s & F1l & F1b & F1k & F1t).
  rewrite F1k in H. fold lp in H.
  set (m2 := if lp then _ else m1) in H.
  assert (F2 : small_bucket m2 = small_bucket m1
               /\ large_bucket m2 = (if lp then zero_buckets else large_bucket m)
               /\ base m2 = base m /\ slope m2 = slope m
               /\ last_update_jiffies m2 = last_update_jiffies m).
  { unfold m2. destruct lp; [|by rewrite F1l, F1b, F1k, F1t].
    destruct (lm_update_large_buckets_fields m1 cl (slope m =? 0))
      as (-> & -> & -> & -> & ->). done. }
  destruct F2 as (F2s & F2l & F2b & F2k & F2t).
  cbv zeta in H.
  apply bind_Some in H as (m3 & H3 & H).
  apply bind_Some in H as (m4 & H4 & H). injection H as H.
  assert (F3 : small_bucket m3 = small_bucket m2
               /\ large_bucket m3 = large_bucket m2
               /\ slope m3 = slope m2
               /\ last_update_jiffies m3 = last_update_jiffies m2
               /\ (sp = false -> base m3 = base m)).
  { destruct (sp && negb (small_count m2 =? 0)) eqn:E.
    - apply bind_Some in H3 as (b & _ & [= <-]).
      do 4 (split; [done|]). intros Hsp. by rewrite Hsp in E.
    - injection H3 as <-. do 4 (split; [done|]). done. }
  destruct F3 as (F3s & F3l & F3k & F3t & F3b).
  assert (F4 : small_bucket m4 = small_bucket m3
               /\ large_bucket m4 = large_bucket m3
               /\ base m4 = base m3
               /\ last_update_jiffies m4 = last_update_jiffies m3
               /\ (lp = false -> slope m4 = slope m)).
  { destruct (lp && negb (large_sum_bsize m3 =? 0)) eqn:E.
    - apply bind_Some in H4 as (s & _ & [= <-]).
      do 4 (split; [done|]). intros Hlp. by rewrite Hlp in E.
    - injection H4 as <-. do 4 (split; [done|]). intros _.
      by rewrite F3k. }
  destruct F4 as (F4s & F4l & F4b & F4t & F4k).
  rewrite <- H.
  destruct te; simpl; rewrite ?F4s, ?F3s, ?F2s, ?F1s, ?F4l, ?F3l, ?F2l,
    ?F4b, ?F4t, ?F3t, ?F2t; repeat split; auto.
Qed.

(** X16. After a call of [latency_model_update] that leaves a non-zero
    [base], a further call before the update interval has run out, with no
    sample put in between, changes nothing: whatever the first call
    processed has been cleared from the histograms, and what it left
    unprocessed is left again. *)
Theorem latency_model_update_settles
    (now now' interval : Z) (m m' : latency_model) :
  latency_model_update now interval m = Some m' ->
  base m' <> 0 ->
  now' < wrap64 (last_update_jiffies m' + interval) ->
  latency_model_update now' interval m' = Some m'.
Proof.
  intros H Hb Hn.
  destruct (latency_model_update_fields now interval m m' H)
    as (Fs & Fl & Fb & Fk & Ft).
  assert (Hcz : lm_count_entries zero_buckets = 0) by reflexivity.
  assert (Hb' : (base m' =? 0) = false) by by apply Z.eqb_neq.
  assert (Hte' : (base m' =? 0)
                 || (wrap64 (last_update_jiffies m' + interval) <=? now')
                 = false).
  { rewrite Hb'. simpl. apply Z.leb_gt. lia. }
  apply latency_model_update_idle; [done | |].
  - unfold lm_count_small_entries. rewrite Fs.
    destruct (negb (lm_count_small_entries m =? 0) && _) eqn:Esp in Fs |- *.
    { by rewrite Hcz. }
    fold (lm_count_small_entries m).
    destruct (lm_count_small_entries m =? 0); [done|]. simpl in *.
    apply orb_false_elim in Esp as [Esp _].
    by apply orb_false_elim in Esp as [_ ->].
  - unfold lm_count_large_entries. rewrite Fl.
    destruct (negb (lm_count_large_entries m =? 0) && _) eqn:Elp in Fl |- *.
    { by rewrite Hcz. }
    fold (lm_count_large_entries m). rewrite (Fk Elp).
    destruct (lm_count_large_entries m =? 0); [done|]. simpl in *.
    apply orb_false_elim in Elp as [Elp ->].
    by apply orb_false_elim in Elp as [_ ->].
Qed.

Lemma latency_model_update_settles_witness :
  latency_model_update 2100 1500
    (set_last_update_jiffies 2000 base_only_model)
  = Some (set_last_update_jiffies 2000 base_only_model).
Proof.
  apply (latency_model_update_settles 2000 2100 1500 base_only_model).
  - vm_compute. reflexivity.
  - vm_compute. discriminate.
  - vm_compute. reflexivity.
Defined.

(** ** Completions *)

Lemma latency_model_input_calibrated now interval m block_size latency pred_lat :
  base m <> 0 ->
  exists m',
    latency_model_input now interval m block_size latency pred_lat = Some m'
    /\ base m' = base m /\ slope m' = slope m
    /\ small_sum_delay m' = small_sum_delay m
    /\ small_count m' = small_count m
    /\ large_sum_delay m' = large_sum_delay m
    /\ large_sum_bsize m' = large_sum_bsize m
    /\ last_update_jiffies m' = last_update_jiffies m.
Proof.
  intros Hb. apply Z.eqb_neq in Hb. unfold latency_model_input.
  destruct (block_size <=? LM_BLOCK_SIZE_THRESHOLD).
  - cbv zeta. cbn [base set_small_bucket]. rewrite Hb.
    eexists. split; [reflexivity|]. done.
  - rewrite Hb. simpl. destruct (pred_lat =? 0).
    + exists m. done.
    + eexists. split; [reflexivity|]. done.
Qed.

Lemma adios_completed_request_calibrated jiffies interval ad rq now rd :
  calibrated ad -> elv_priv rq = Some rd ->
  exists ad',
    adios_completed_request jiffies interval ad rq now = Some ad'
    /\ total_pred_lat ad' = wrap64 (total_pred_lat ad - rd_pred_lat rd)
    /\ (forall o, base (oget o (lat_model ad')) = base (oget o (lat_model ad))
                  /\ slope (oget o (lat_model ad'))
                     = slope (oget o (lat_model ad)))
    /\ prio_queue ad' = prio_queue ad /\ dl_tree ad' = dl_tree ad
    /\ batch_queue ad' = batch_queue ad /\ bq_page ad' = bq_page ad
    /\ more_bq_ready ad' = more_bq_ready ad.
Proof.
  intros Hc Hrd. unfold adios_completed_request, get_rq_data. rewrite Hrd.
  cbn [mbind option_bind]. cbv zeta.
  destruct ((io_start_time_ns rq =? 0) || (rd_block_size rd =? 0)).
  { eexists. split; [reflexivity|]. done. }
  set (optype := adios_optype rq).
  set (ad1 := set_total_pred_lat _ ad).
  change (lat_model ad1) with (lat_model ad).
  destruct (latency_model_input_calibrated jiffies interval
              (oget optype (lat_model ad)) (rd_block_size rd)
              (wrap64 (now - io_start_time_ns rq)) (rd_pred_lat rd) (Hc optype))
    as (m' & -> & Hb & Hs & _).
  cbn [mbind option_bind]. eexists. split; [reflexivity|]. simpl.
  split; [done|]. split; [|done].
  intros o. destruct (decide (optype = o)) as [<- | Hne].
  - by rewrite oget_oset_eq.
  - by rewrite oget_oset_ne.
Qed.

(** X17. On a scheduler whose four models have a non-zero [base],
    completions never fault (the requests being prepared ones), each takes
    the request's predicted latency off [total_pred_lat], and they change
    no model parameter, hence no prediction: only histograms take in the
    samples.  The queues and the tree are not touched. *)
Theorem complete_requests_accounting
    (interval : Z) (ad : adios_data) (l : list completion) :
  calibrated ad ->
  is_u64 (total_pred_lat ad) ->
  Forall (fun c => is_Some (elv_priv (c_rq c))) l ->
  exists ad',
    complete_requests interval ad l = Some ad'
    /\ total_pred_lat ad'
       = wrap64 (total_pred_lat ad - sum_pred (map c_rq l))
    /\ calibrated ad'
    /\ (forall o size,
          latency_model_predict (oget o (lat_model ad')) size
          = latency_model_predict (oget o (lat_model ad)) size)
    /\ prio_queue ad' = prio_queue ad /\ dl_tree ad' = dl_tree ad
    /\ batch_queue ad' = batch_queue ad /\ bq_page ad' = bq_page ad
    /\ more_bq_ready ad' = more_bq_ready ad.
Proof.
  intros Hc Ht Hl. revert ad Hc Ht.
  induction Hl as [|c l [rd Hrd] Hl IH]; intros ad Hc Ht.
  - exists ad. split; [done|]. simpl.
    rewrite Z.sub_0_r, wrap64_id by done. done.
  - destruct (adios_completed_request_calibrated (c_jiffies c) interval ad
                (c_rq c) (c_now c) rd Hc Hrd)
      as (ad1 & H1 & Ht1 & Hm1 & Hq1 & Hd1 & Hb1 & Hp1 & Hr1).
    assert (Hc1 : calibrated ad1).
    { intros o. destruct (Hm1 o) as [-> _]. apply Hc. }
    destruct (IH ad1 Hc1) as (ad' & H2 & Ht2 & Hc2 & Hm2 & Hq2 & Hd2 & Hb2 & Hp2 & Hr2).
    { rewrite Ht1. apply wrap64_range. }
    exists ad'. cbn [complete_requests]. rewrite H1. cbn [mbind option_bind].
    split; [done|]. split.
    { rewrite Ht2, Ht1.
      change (sum_pred (map c_rq (c :: l)))
        with (rq_pred (c_rq c) + sum_pred (map c_rq l)).
      unfold rq_pred at 1. rewrite Hrd.
      replace (wrap64 (total_pred_lat ad - rd_pred_lat rd)
               - sum_pred (map c_rq l))
        with (wrap64 (total_pred_lat ad - rd_pred_lat rd)
              + - sum_pred (map c_rq l)) by lia.
      rewrite wrap64_add_l. f_equal. lia. }
    split; [done|]. split.
    { intros o size. rewrite Hm2. unfold latency_model_predict.
      destruct (Hm1 o) as [-> ->]. done. }
    by rewrite Hq2, Hd2, Hb2, Hp2, Hr2.
Qed.

Lemma complete_requests_accounting_witness :
  exists ad',
    complete_requests 1500
      (set_total_pred_lat 10000 calibrated_ad)
      [Completion (Request 1 0 1000 7 512 (Some (RqData 0 3000 512 None)))
         9000 0]
    = Some ad'
    /\ total_pred_lat ad' = 7000.
Proof.
  destruct (complete_requests_accounting 1500
              (set_total_pred_lat 10000 calibrated_ad)
              [Completion (Request 1 0 1000 7 512 (Some (RqData 0 3000 512 None)))
                 9000 0])
    as (ad' & H1 & H2 & _).
  - intros o. destruct o; vm_compute; discriminate.
  - vm_compute. split; [discriminate | reflexivity].
  - constructor; [by eexists | constructor].
  - exists ad'. split; [exact H1|]. rewrite H2. reflexivity.
Defined.

(** ** The latency budget over a fill and its completions *)

Lemma fill_finish_lat_model st :
  lat_model (fst (fill_finish st)) = lat_model (fs_ad st).
Proof. unfold fill_finish. by destruct (fs_count st =? 0). Qed.







(** ** The timer without samples *)

(** With both histograms empty a call processes nothing and divides
    nothing: at most the time stamp moves. *)
Lemma latency_model_update_no_samples now interval m :
  lm_count_small_entries m = 0 -> lm_count_large_entries m = 0 ->
  exists m',
    latency_model_update now interval m = Some m'
    /\ base m' = base m /\ slope m' = slope m
    /\ small_sum_delay m' = small_sum_delay m
    /\ small_count m' = small_count m
    /\ large_sum_delay m' = large_sum_delay m
    /\ large_sum_bsize m' = large_sum_bsize m
    /\ small_bucket m' = small_bucket m
    /\ large_bucket m' = large_bucket m.
Proof.
  intros Hs Hl. unfold latency_model_update. rewrite Hs, Hl. simpl.
  destruct ((base m =? 0) || _); eexists; (split; [reflexivity|]); done.
Qed.

(** X19. [update_timer_callback] on a scheduler whose histograms hold no
    sample never faults and changes no parameter or accumulator of any
    model, whatever the time: every prediction stays as it was, and the
    queues, the tree and [total_pred_lat] are not touched.  Predictions
    move only through samples. *)
Theorem update_timer_callback_no_samples
    (jiffies interval : Z) (ad : adios_data) :
  (forall o, lm_count_small_entries (oget o (lat_model ad)) = 0
             /\ lm_count_large_entries (oget o (lat_model ad)) = 0) ->
  exists ad',
    update_timer_callback jiffies interval ad = Some ad'
    /\ (forall o size,
          latency_model_predict (oget o (lat_model ad')) size
          = latency_model_predict (oget o (lat_model ad)) size)
    /\ (forall o,
          let m := oget o (lat_model ad) in
          let m' := oget o (lat_model ad') in
          small_sum_delay m' = small_sum_delay m
          /\ small_count m' = small_count m
          /\ large_sum_delay m' = large_sum_delay m
          /\ large_sum_bsize m' = large_sum_bsize m
          /\ lm_count_small_entries m' = 0
          /\ lm_count_large_entries m' = 0)
    /\ prio_queue ad' = prio_queue ad /\ dl_tree ad' = dl_tree ad
    /\ batch_queue ad' = batch_queue ad /\ bq_page ad' = bq_page ad
    /\ more_bq_ready ad' = more_bq_ready ad
    /\ total_pred_lat ad' = total_pred_lat ad.
Proof.
  intros H. unfold update_timer_callback.
  destruct (H ADIOS_READ) as [Hr1 Hr2]. destruct (H ADIOS_WRITE) as [Hw1 Hw2].
  destruct (H ADIOS_DISCARD) as [Hd1 Hd2]. destruct (H ADIOS_OTHER) as [Ho1 Ho2].
  simpl in Hr1, Hr2, Hw1, Hw2, Hd1, Hd2, Ho1, Ho2.
  destruct (latency_model_update_no_samples jiffies interval _ Hr1 Hr2)
    as (r & -> & Rb & Rk & R1 & R2 & R3 & R4 & R5 & R6).
  destruct (latency_model_update_no_samples jiffies interval _ Hw1 Hw2)
    as (w & -> & Wb & Wk & W1 & W2 & W3 & W4 & W5 & W6).
  destruct (latency_model_update_no_samples jiffies interval _ Hd1 Hd2)
    as (d & -> & Db & Dk & D1 & D2 & D3 & D4 & D5 & D6).
  destruct (latency_model_update_no_samples jiffies interval _ Ho1 Ho2)
    as (x & -> & Xb & Xk & X1 & X2 & X3 & X4 & X5 & X6).
  cbn [mbind option_bind]. eexists. split; [reflexivity|].
  split.
  { intros o size. unfold latency_model_predict.
    destruct o; simpl; by rewrite ?Rb, ?Rk, ?Wb, ?Wk, ?Db, ?Dk, ?Xb, ?Xk. }
  split; [|done].
  intros o. unfold lm_count_small_entries, lm_count_large_entries in *.
  destruct o; simpl;
    rewrite ?R5, ?R6, ?W5, ?W6, ?D5, ?D6, ?X5, ?X6; done.
Qed.

Lemma update_timer_callback_no_samples_witness :
  exists ad',
    update_timer_callback 5000 1500 calibrated_ad = Some ad'
    /\ forall o size,
         latency_model_predict (oget o (lat_model ad')) size
         = latency_model_predict (oget o (lat_model calibrated_ad)) size.
Proof.
  destruct (update_timer_callback_no_samples 5000 1500 calibrated_ad)
    as (ad' & H1 & H2 & _).
  - intros o. by destruct o.
  - exists ad'. split; [exact H1 | exact H2].
Defined.

(** ** Sequences of stores *)

Lemma same_queues_refl st : same_queues st st.
Proof. by repeat split. Qed.

Lemma same_queues_trans st1 st2 st3 :
  same_queues st1 st2 -> same_queues st2 st3 -> same_queues st1 st3.
Proof.
  intros (A1 & A2 & A3 & A4 & A5 & A6 & A7) (B1 & B2 & B3 & B4 & B5 & B6 & B7).
  unfold same_queues. by rewrite B1, B2, B3, B4, B5, B6, B7.
Qed.

Lemma adios_store_keeps kstrtoul kstrtoint t st page count :
  tunables_ok st ->
  let st' := snd (adios_store kstrtoul kstrtoint t st page count) in
  same_queues st st' /\ tunables_ok st'.
Proof.
  intros [Hr Hl]. destruct st as [g ad].
  destruct t as [o | o | | | |]; simpl;
    unfold adios_lat_target_store, adios_batch_limit_store,
      adios_global_latency_window_store, adios_bq_refill_below_ratio_store,
      adios_reset_bq_stats_store, adios_reset_lat_model_store.
  - destruct (kstrtoul page); simpl; (split; [by repeat split | by split]).
  - destruct (kstrtoul page) as [v|]; simpl; [|split; [by repeat split | by split]].
    destruct (v =? 0); simpl; (split; [by repeat split|]); split; try done.
    intros o'. simpl. destruct (decide (o = o')) as [<- | Hne].
    + rewrite oget_oset_eq. apply wrap32_range.
    + rewrite oget_oset_ne by done. apply Hl.
  - destruct (kstrtoul page); simpl; (split; [by repeat split | by split]).
  - destruct (kstrtoint page) as [v|]; simpl; [|split; [by repeat split | by split]].
    destruct (Z.ltb_spec v 0); simpl; [split; [by repeat split | by split]|].
    destruct (Z.ltb_spec 100 v); simpl; (split; [by repeat split|]);
      split; simpl; try done; lia.
  - destruct (kstrtoul page) as [v|]; simpl; [|split; [by repeat split | by split]].
    destruct (v =? 1); simpl; (split; [by repeat split | by split]).
  - destruct (kstrtoul page) as [v|]; simpl; [|split; [by repeat split | by split]].
    destruct (v =? 1); simpl; (split; [by repeat split | by split]).
Qed.

(** X20. Whatever is written to the sysfs attributes, in any order and with
    any parser, the stores never touch the queues, the tree, the pages or
    [total_pred_lat], the refill ratio stays within 0..100, and every
    batch limit stays within its [u32] field. *)
Theorem run_stores_keeps
    (kstrtoul kstrtoint : string -> kstrto_result)
    (st : sysfs_state) (calls : list store_call) :
  tunables_ok st ->
  same_queues st (run_stores kstrtoul kstrtoint st calls)
  /\ tunables_ok (run_stores kstrtoul kstrtoint st calls).
Proof.
  revert st. induction calls as [|c calls IH]; intros st Hok.
  - split; [apply same_queues_refl | done].
  - destruct (adios_store_keeps kstrtoul kstrtoint (sc_attr c) st (sc_page c)
                (sc_count c) Hok) as [Hq1 Hok1].
    destruct (IH _ Hok1) as [Hq2 Hok2].
    split; [|exact Hok2]. eapply same_queues_trans; [exact Hq1 | exact Hq2].
Qed.

Lemma run_stores_keeps_witness :
  tunables_ok
    (run_stores toy_kstrto toy_kstrto (default_globals, init_adios_data 0)
       [StoreCall bq_refill_below_ratio_attr "101" 3;
        StoreCall (batch_limit_of ADIOS_READ) "4294967296" 10;
        StoreCall bq_refill_below_ratio_attr "8" 1]).
Proof.
  apply (run_stores_keeps toy_kstrto toy_kstrto
           (default_globals, init_adios_data 0)).
  split; [vm_compute; split; discriminate|].
  intros o. destruct o; vm_compute; split; (discriminate || reflexivity).
Defined.

(** ** Shallow depth *)

Lemma div_round_up_ceil a b :
  0 < b -> (a + b - 1) / b = ceil_div a b.
Proof.
  intros Hb. unfold ceil_div. set (c := (a + b - 1) / b).
  pose proof (Z.mul_div_le (a + b - 1) b Hb) as H1.
  pose proof (Z.mul_succ_div_gt (a + b - 1) b Hb) as H2. fold c in H1, H2.
  assert (H : - c = (- a) / b).
  { apply Z.div_unique_pos with (r := b * c - a); lia. }
  lia.
Qed.

(** X21. [to_word_depth] is the ceiling of [qdepth * 2^shift / nr_requests]
    as long as the sum fits the [int] it is returned in, and for a depth
    between 1 and [nr_requests] it lies between 1 and the full word
    [2^shift].  Since [adios_depth_updated] sets [async_depth] to
    [nr_requests], [adios_limit_depth] then gives a request that is not a
    synchronous read the full word, and leaves [shallow_depth] of a
    synchronous read alone. *)
Theorem adios_limit_depth_full_word (shift nr_requests shallow_depth : Z) :
  0 <= shift -> 0 < nr_requests ->
  nr_requests * 2 ^ shift + nr_requests <= 2 ^ 31 ->
  (forall qdepth, 0 < qdepth <= nr_requests ->
     to_word_depth shift nr_requests qdepth
     = Some (ceil_div (qdepth * 2 ^ shift) nr_requests)
     /\ 1 <= ceil_div (qdepth * 2 ^ shift) nr_requests <= 2 ^ shift)
  /\ adios_limit_depth false shift nr_requests
       (adios_depth_updated nr_requests) shallow_depth
     = Some (2 ^ shift)
  /\ adios_limit_depth true shift nr_requests
       (adios_depth_updated nr_requests) shallow_depth
     = Some shallow_depth.
Proof.
  intros Hs Hn Hfit.
  assert (Hp : 0 < 2 ^ shift) by (apply Z.pow_pos_nonneg; lia).
  assert (Hword : forall qdepth, 0 < qdepth <= nr_requests ->
     to_word_depth shift nr_requests qdepth
     = Some (ceil_div (qdepth * 2 ^ shift) nr_requests)
     /\ 1 <= ceil_div (qdepth * 2 ^ shift) nr_requests <= 2 ^ shift).
  { intros q Hq. unfold to_word_depth.
    destruct (Z.eqb_spec nr_requests 0) as [|_]; [lia|].
    rewrite Z.shiftl_mul_pow2 by done.
    assert (Hle : q * 2 ^ shift <= nr_requests * 2 ^ shift) by nia.
    assert (H0 : 0 < q * 2 ^ shift) by nia.
    rewrite (wrap32_id (q * 2 ^ shift)) by (unfold is_u32; lia).
    rewrite (wrap32_id (q * 2 ^ shift + nr_requests)) by (unfold is_u32; lia).
    rewrite wrap32_id by (unfold is_u32; lia).
    rewrite (div_round_up_ceil (q * 2 ^ shift) nr_requests Hn).
    assert (Hc : 1 <= ceil_div (q * 2 ^ shift) nr_requests <= 2 ^ shift).
    { rewrite <- (div_round_up_ceil _ _ Hn). split.
      - apply Z.div_le_lower_bound; lia.
      - assert ((q * 2 ^ shift + nr_requests - 1) / nr_requests
                < 2 ^ shift + 1); [|lia].
        apply Z.div_lt_upper_bound; [lia|]. nia. }
    split; [|done].
    destruct (Z.ltb_spec (ceil_div (q * 2 ^ shift) nr_requests) (2 ^ 31));
      [done|].
    assert (2 ^ shift <= nr_requests * 2 ^ shift) by nia. lia. }
  split; [exact Hword|]. split; [|done].
  unfold adios_limit_depth, adios_depth_updated.
  destruct (Hword nr_requests) as [-> _]; [lia|].
  cbn [mbind option_bind]. f_equal.
  assert (Hc : ceil_div (nr_requests * 2 ^ shift) nr_requests = 2 ^ shift).
  { rewrite <- (div_round_up_ceil _ _ Hn).
    symmetry. apply Z.div_unique_pos with (r := nr_requests - 1); lia. }
  rewrite Hc. apply wrap32_id. unfold is_u32. nia.
Qed.

Lemma adios_limit_depth_full_word_witness :
  adios_limit_depth false 6 256 (adios_depth_updated 256) 0 = Some (2 ^ 6).
Proof.
  apply (adios_limit_depth_full_word 6 256 0); lia.
Defined.

(** ** The bucket of a sample *)

(** X22. The histogram slot of a sample with measured latency [m >= 0]
    against a reference [p > 0] (the callers pass 1 for a zero base and
    never a zero prediction), where no product overflows ([20 * m < 2^64],
    [5 * p < 2^64]) and the quotient fits the [unsigned int] it is stored
    in ([3 * m / p + 40 < 2^32]): always one of the 64 slots;
    [20 * m / p], below 40, for [m < 2p], so a sample on the reference goes
    to slot 20; [10 * m / p + 20] capped at 63, from 40 up, for
    [2p <= m < 5p]; and [3 * m / p + 40] capped at 63, from 55 up, from
    [5p] on.  The slot is not monotone in the latency: from 4.3 times the
    reference up to 5 times the slot is the last one, 63, and at 5 times
    it falls back to 55.  Beyond the last bound the index wraps before it is
    capped ([sample_bucket_wraps]). *)
Theorem sample_bucket_layout (m p : Z) :
  0 < p -> 0 <= m -> 20 * m < 2 ^ 64 -> 5 * p < 2 ^ 64 ->
  3 * m / p + 40 < 2 ^ 32 ->
  let b := Z.of_nat (lm_clamp_index (lm_input_bucket_index m p)) in
  0 <= b < 64
  /\ (m < 2 * p -> b = 20 * m / p /\ b < 40)
  /\ (m = p -> b = 20)
  /\ (2 * p <= m < 5 * p -> b = Z.min 63 (10 * m / p + 20) /\ 40 <= b)
  /\ (5 * p <= m -> b = Z.min 63 (3 * m / p + 40) /\ 55 <= b)
  /\ (43 * p <= 10 * m -> m < 5 * p -> b = 63)
  /\ (m = 5 * p -> b = 55).
Proof.
  intros Hp Hm H20 H5 H3 b.
  assert (Hclamp : forall i, 0 <= i ->
            Z.of_nat (lm_clamp_index i) = Z.min 63 i).
  { intros i Hi. unfold lm_clamp_index.
    change (Z.of_nat LM_LAT_BUCKET_COUNT) with 64.
    destruct (Z.leb_spec 64 i).
    - change (Z.of_nat (LM_LAT_BUCKET_COUNT - 1)) with 63. lia.
    - rewrite Z2Nat.id by done. lia. }
  assert (Hidx : lm_input_bucket_index m p
                 = if m <? 2 * p then 20 * m / p
                   else if m <? 5 * p then 10 * m / p + 20
                   else 3 * m / p + 40).
  { unfold lm_input_bucket_index.
    rewrite (wrap64_id (p * 2)), (wrap64_id (p * 5)) by (unfold is_u64; lia).
    rewrite (wrap64_id (m * 20)), (wrap64_id (m * 10)), (wrap64_id (m * 3))
      by (unfold is_u64; lia).
    replace (p * 2) with (2 * p) by lia. replace (p * 5) with (5 * p) by lia.
    replace (m * 20) with (20 * m) by lia.
    replace (m * 10) with (10 * m) by lia.
    replace (m * 3) with (3 * m) by lia.
    assert (H10 : 0 <= 10 * m / p) by (apply Z.div_pos; lia).
    destruct (Z.ltb_spec m (2 * p)) as [Hlt|Hge].
    { apply wrap32_id. unfold is_u32. split; [apply Z.div_pos; lia|].
      assert (20 * m / p < 40); [|lia].
      apply Z.div_lt_upper_bound; lia. }
    destruct (Z.ltb_spec m (5 * p)) as [Hlt5|Hge5].
    { assert (10 * m / p < 50) by (apply Z.div_lt_upper_bound; lia).
      rewrite (wrap64_id (10 * m / p + 20)) by (unfold is_u64; lia).
      apply wrap32_id. unfold is_u32. lia. }
    assert (0 <= 3 * m / p) by (apply Z.div_pos; lia).
    rewrite (wrap64_id (3 * m / p + 40)) by (unfold is_u64; lia).
    apply wrap32_id. unfold is_u32. lia. }
  assert (H20m : 0 <= 20 * m / p) by (apply Z.div_pos; lia).
  assert (H10m : 0 <= 10 * m / p) by (apply Z.div_pos; lia).
  assert (H3m : 0 <= 3 * m / p) by (apply Z.div_pos; lia).
  assert (Hb : b = Z.min 63 (lm_input_bucket_index m p)).
  { unfold b. apply Hclamp. rewrite Hidx.
    destruct (m <? 2 * p); [done|]. destruct (m <? 5 * p); lia. }
  rewrite Hidx in Hb. clear Hidx Hclamp.
  assert (Hlow : m < 2 * p -> b = 20 * m / p /\ b < 40).
  { intros Hlt. destruct (Z.ltb_spec m (2 * p)); [|lia].
    assert (20 * m / p < 40) by (apply Z.div_lt_upper_bound; lia). lia. }
  assert (Hmid : 2 * p <= m < 5 * p ->
                 b = Z.min 63 (10 * m / p + 20) /\ 40 <= b).
  { intros [Hge Hlt]. destruct (Z.ltb_spec m (2 * p)); [lia|].
    destruct (Z.ltb_spec m (5 * p)); [|lia].
    assert (20 <= 10 * m / p) by (apply Z.div_le_lower_bound; lia). lia. }
  assert (Hhigh : 5 * p <= m -> b = Z.min 63 (3 * m / p + 40) /\ 55 <= b).
  { intros Hge. destruct (Z.ltb_spec m (2 * p)); [lia|].
    destruct (Z.ltb_spec m (5 * p)); [lia|].
    assert (15 <= 3 * m / p) by (apply Z.div_le_lower_bound; lia). lia. }
  split.
  { destruct (Z.ltb_spec m (2 * p)); [lia|].
    destruct (Z.ltb_spec m (5 * p)); lia. }
  split; [exact Hlow|]. split.
  { intros ->. destruct Hlow as [-> _]; [lia|].
    symmetry. apply Z.div_unique_pos with (r := 0); lia. }
  split; [exact Hmid|]. split; [exact Hhigh|]. split.
  { intros H43 Hlt. destruct Hmid as [-> _]; [lia|].
    assert (43 <= 10 * m / p) by (apply Z.div_le_lower_bound; lia). lia. }
  intros ->. destruct Hhigh as [-> _]; [lia|].
  assert (3 * (5 * p) / p = 15)
    by (symmetry; apply Z.div_unique_pos with (r := 0); lia).
  lia.
Qed.

Lemma sample_bucket_layout_witness :
  Z.of_nat (lm_clamp_index (lm_input_bucket_index 490 100)) = 63
  /\ Z.of_nat (lm_clamp_index (lm_input_bucket_index 500 100)) = 55.
Proof.
  split.
  - apply (sample_bucket_layout 490 100); try lia. vm_compute. reflexivity.
  - apply (sample_bucket_layout 500 100); try lia. vm_compute. reflexivity.
Defined.

(** Against the reference 1 of an uncalibrated model, a latency of
    1431655752 gives the quotient 2^32, which is 0 as an [unsigned int]:
    the sample goes to slot 0 instead of the last slot. *)
Example sample_bucket_wraps :
  3 * 1431655752 / 1 + 40 = 2 ^ 32
  /\ lm_clamp_index (lm_input_bucket_index 1431655752 1) = 0%nat.
Proof. split; reflexivity. Qed.

(** ** One request through the scheduler *)

Lemma dl_flat_nil t : dl_tree_wf t -> dl_flat t = [] -> t = [].
Proof.
  intros [Hok _] Hf. destruct t as [|g t]; [done|].
  inversion Hok as [|? ? (_ & Hne & _) _]; subst.
  unfold dl_flat in Hf. simpl in Hf. by destruct (rqs g).
Qed.

(** A fill pass over a tree that holds a single request. *)
Lemma fill_batch_queues_single glw ad current_lat d rq :
  dl_tree ad = [DlGroup d [rq]] ->
  dl_tree_wf (dl_tree ad) ->
  is_u64 (total_pred_lat ad) ->
  exists ad',
    fill_batch_queues glw ad current_lat = Some (ad', true)
    /\ dl_tree ad' = []
    /\ (forall o,
          oget o (pget (fill_page ad) (batch_queue ad'))
          = oget o (pget (fill_page ad) (batch_queue ad))
            ++ of_type o [rq_unlinked rq])
    /\ batch_queue ad'
       = pset (fill_page ad) (pget (fill_page ad) (batch_queue ad'))
           (batch_queue ad)
    /\ prio_queue ad' = prio_queue ad
    /\ bq_page ad' = bq_page ad
    /\ more_bq_ready ad' = true
    /\ total_pred_lat ad' = wrap64 (total_pred_lat ad + rq_pred rq)
    /\ lat_model ad' = lat_model ad.
Proof.
  intros Ht Hwf Htpl. set (page := fill_page ad).
  destruct (fill_batch_queues_run glw ad current_lat Hwf)
    as (k & st_k & st_fin & Hr & Hstop & Hfill & Had & Hcnt).
  destruct (fill_reach_inv glw page (fill_start ad current_lat) k st_k)
    as (Hwf' & _ & _ & Hlm & _); [done | unfold is_u32; simpl; lia | done |].
  destruct (fill_reach_moves glw page (fill_start ad current_lat) k st_k)
    as (Hk & Hflat & Hq & Hqo & _ & _ & Htp & Hp & Hpg & Hm & _);
    [done | unfold is_u32; simpl; lia
    | intros o; simpl; rewrite pget_pset_eq; destruct o; unfold is_u32; simpl; lia
    | done | done |].
  simpl in Hk, Hflat, Hq, Hqo, Htp, Hp, Hpg, Hm, Hlm.
  assert (Hfl : dl_flat (dl_tree ad) = [rq]) by by rewrite Ht.
  rewrite Hfl in Hk, Hflat, Hqo, Htp. simpl in Hk.
  assert (Hk1 : k = 1%nat).
  { destruct k as [|k]; [|lia]. exfalso. inversion Hr; subst.
    destruct (fill_iter_cases glw page (fill_start ad current_lat) Hwf)
      as [[Hnil _] | (g & t & rq0 & l & rd & _ & _ & _ & _ & Hcase)].
    { simpl in Hnil. congruence. }
    simpl in Hcase. destruct Hcase as [[Hb _] | (_ & ? & ? & Hit & _)];
      [done |]. unfold page in Hit. congruence. }
  subst k. simpl in Hflat, Hqo, Htp, Hcnt.
  apply (dl_flat_nil _ Hwf') in Hflat.
  pose proof (fill_finish_fields st_fin) as Hfin.
  pose proof (fill_finish_lat_model st_fin) as Hfm.
  destruct (fill_finish st_fin) as [ad' r].
  destruct Hfin as (Hr' & H1 & H2 & H3 & H4 & H5 & H6 & H7).
  simpl in Hfm.
  rewrite Had in *. rewrite Hcnt in Hr'. simpl in Hr'. subst r.
  exists ad'. split; [done|]. split; [by rewrite H1|].
  split; [intros o; by rewrite H2, Hqo|]. split; [by rewrite H2|].
  split; [by rewrite H5|]. split; [by rewrite H6|]. split; [done|].
  split; [|by rewrite Hfm].
  rewrite H4, Htp. f_equal. unfold sum_pred. simpl. lia.
Qed.

(** X23. One request through an idle scheduler.  The scheduler is idle
    ([adios_has_work] false), its pages are in step, nothing is
    outstanding ([total_pred_lat] is 0) and the fields of its models hold
    [u64] values; the request is a prepared one with a deadline below 2^63,
    inserted without [BLK_MQ_INSERT_AT_HEAD].  If the host merges it away,
    or if there is no memory for its group, the scheduler is left exactly
    as it was, idle: in the second case the request is dropped without a
    trace.  Otherwise [adios_has_work] becomes true and the next
    [adios_dispatch_request] returns that very request: it is linked in the
    tree, staged by the fill pass, reached by the page flip and handed out
    with [RQF_STARTED] set, its predicted latency being then the whole of
    [total_pred_lat]; the scheduler is idle again.  Where the models are
    calibrated, or the request was never started ([io_start_time_ns] is
    0), its completion brings [total_pred_lat] back to zero. *)
Theorem single_request_life_cycle
    (rq_flags : request -> Z) (RQF_STARTED : Z) (g : adios_globals)
    (jiffies interval now : Z)
    (ad : adios_data) (rq : request) (flags : Z) (env : insert_env) :
  adios_has_work ad = false ->
  bq_pages_ok ad ->
  total_pred_lat ad = 0 ->
  (forall o, model_ok (oget o (lat_model ad))) ->
  is_Some (elv_priv rq) ->
  rq_deadline ad rq < 2 ^ 63 ->
  Z.land flags BLK_MQ_INSERT_AT_HEAD = 0 ->
  (try_insert_merge env = true \/ group_alloc_ok env = false ->
   insert_request ad rq flags env = Some ad)
  /\ (try_insert_merge env = false -> group_alloc_ok env = true ->
      exists ad1 ad2 rq',
        insert_request ad rq flags env = Some ad1
        /\ adios_has_work ad1 = true
        /\ adios_dispatch_request rq_flags RQF_STARTED g ad1
           = Some (Some (rq', Z.lor (rq_flags rq') RQF_STARTED), ad2)
        /\ rq_id rq' = rq_id rq
        /\ keyed_by (rq_deadline ad rq) rq'
        /\ total_pred_lat ad2 = rq_pred_lat ad rq
        /\ adios_has_work ad2 = false
        /\ bq_pages_ok ad2
        /\ (calibrated ad \/ io_start_time_ns rq = 0 ->
            exists ad3,
              adios_completed_request jiffies interval ad2 rq' now = Some ad3
              /\ total_pred_lat ad3 = 0
              /\ adios_has_work ad3 = false)).
Proof.
  intros Hidle [Hpage Hmore] Htpl Hmok [rd Hrd] Hd63 Hfl.
  unfold adios_has_work in Hidle.
  apply orb_false_elim in Hidle as [Hidle Hdl].
  apply orb_false_elim in Hidle as [Hpq Hbq].
  apply bq_has_work_false in Hbq as [Hact Hm].
  pose proof (proj1 Hmore Hm) as Hinact.
  assert (Hpq0 : prio_queue ad = [])
    by (unfold pq_has_work in Hpq; by destruct (prio_queue ad)).
  assert (Hdl0 : dl_tree ad = [])
    by (unfold dl_tree_has_work in Hdl; by destruct (dl_tree ad)).
  split.
  { intros Hno. unfold insert_request. rewrite Hfl. simpl.
    destruct (try_insert_merge env); [done|].
    destruct Hno as [? | Halloc]; [done|].
    unfold add_to_dl_tree, get_rq_data. rewrite Hrd, Hdl0, Halloc. done. }
  intros Hmerge Halloc.
  set (d := rq_deadline ad rq).
  assert (Hd : 0 <= d < 2 ^ 63).
  { pose proof (wrap64_range
      (wrap64 (start_time_ns rq + oget (adios_optype rq) (latency_target ad))
       + rq_pred_lat ad rq)) as Hr.
    unfold is_u64 in Hr. unfold d, rq_deadline in *. lia. }
  assert (Hpred : is_u64 (rq_pred_lat ad rq)).
  { unfold rq_pred_lat, latency_model_predict.
    destruct (_ <? _); [apply wrap64_range|].
    apply (ok_base _ (Hmok (adios_optype rq))). }
  set (linked := set_elv_priv
                   (Some (RqData d (rq_pred_lat ad rq) (blk_rq_bytes rq) (Some d)))
                   rq).
  set (ad1 := set_dl_tree [DlGroup d [linked]] ad).
  assert (Hins : insert_request ad rq flags env = Some ad1).
  { unfold insert_request. rewrite Hfl, Hmerge, Halloc. simpl.
    unfold add_to_dl_tree, get_rq_data. rewrite Hrd, Hdl0. done. }
  assert (Hwf1 : dl_tree_wf (dl_tree ad1)).
  { split; [|simpl; auto]. constructor; [|constructor].
    split; [done|]. split; [done|]. constructor; [by eexists | constructor]. }
  destruct (fill_batch_queues_single (global_latency_window g) ad1
              (total_pred_lat ad1) d linked eq_refl Hwf1)
    as (adf & Hfill & Hft & Hfq & Hfb & Hfp & Hfg & Hfm & Hftpl & Hflm).
  { simpl. rewrite Htpl. unfold is_u64. lia. }
  set (rq' := rq_unlinked linked) in *.
  set (o := adios_optype rq).
  assert (Ho' : adios_optype rq' = o) by apply rq_unlinked_optype.
  change (fill_page ad1) with (fill_page ad) in Hfq, Hfb.
  change (batch_queue ad1) with (batch_queue ad) in Hfq, Hfb.
  change (bq_page ad1) with (bq_page ad) in Hfg.
  change (prio_queue ad1) with (prio_queue ad) in Hfp.
  change (lat_model ad1) with (lat_model ad) in Hflm.
  change (total_pred_lat ad1) with (total_pred_lat ad) in Hftpl, Hfill.
  assert (Hfilled : forall o',
            oget o' (pget (fill_page ad) (batch_queue adf))
            = if decide (o' = o) then [rq'] else []).
  { intros o'. rewrite Hfq, Hinact, app_nil_l, of_type_single, Ho'.
    destruct (decide (o' = o)) as [-> | Hne].
    - by rewrite bool_decide_true.
    - rewrite bool_decide_false; [done | congruence]. }
  assert (Hact' : forall o', oget o' (pget (bq_page ad) (batch_queue adf)) = []).
  { intros o'. rewrite Hfb, pget_pset_ne by (by apply fill_page_other).
    apply Hact. }
  set (ad2 := set_batch_queue
                (pset (fill_page ad)
                   (oset o [] (pget (fill_page ad) (batch_queue adf)))
                   (batch_queue adf))
                (flip_bq_page adf)).
  assert (Hfpf : bq_page (flip_bq_page adf) = fill_page ad).
  { simpl. unfold fill_page. by rewrite Hfg. }
  assert (Hdisp : dispatch_from_bq g ad1 = Some (Some rq', ad2)).
  { unfold dispatch_from_bq.
    assert (Hw : bq_wants_refill g ad1 = true).
    { unfold bq_wants_refill. simpl. by rewrite Hm, Htpl. }
    rewrite Hw. change (total_pred_lat ad1) with (total_pred_lat ad).
    rewrite Hfill. cbn [mbind option_bind].
    assert (Hs1 : bq_serve adf = None).
    { apply bq_serve_none. rewrite Hfg. exact Hact'. }
    rewrite Hs1, Hfm. cbv zeta.
    unfold bq_serve. rewrite Hfpf.
    change (batch_queue (flip_bq_page adf)) with (batch_queue adf).
    rewrite (bq_scan_first _ o rq' []).
    - done.
    - rewrite Hfilled. by rewrite decide_True.
    - intros o' Hlt. rewrite Hfilled. rewrite decide_False; [done|].
      intros ->. lia. }
  assert (Htpl2 : total_pred_lat ad2 = rq_pred_lat ad rq).
  { change (total_pred_lat ad2) with (total_pred_lat adf). rewrite Hftpl, Htpl.
    simpl. by apply wrap64_id. }
  assert (Hq2 : forall o', oget o' (pget (bq_page ad2) (batch_queue ad2)) = []).
  { intros o'. change (bq_page ad2) with (bq_page (flip_bq_page adf)).
    rewrite Hfpf. simpl. rewrite pget_pset_eq.
    destruct (decide (o = o')) as [<- | Hne].
    - by rewrite oget_oset_eq.
    - rewrite oget_oset_ne, Hfilled by done. rewrite decide_False; [done|].
      congruence. }
  assert (Hidle2 : adios_has_work ad2 = false).
  { unfold adios_has_work, pq_has_work, dl_tree_has_work.
    change (prio_queue ad2) with (prio_queue adf).
    change (dl_tree ad2) with (dl_tree adf).
    rewrite Hfp, Hpq0, Hft. simpl. rewrite orb_false_r.
    apply bq_has_work_false. split; [exact Hq2 | done]. }
  assert (Hok2 : bq_pages_ok ad2).
  { split.
    - change (bq_page ad2) with (bq_page (flip_bq_page adf)). rewrite Hfpf.
      by apply fill_page_range.
    - split; [|done]. intros _ o'.
      change (fill_page ad2) with (fill_page (flip_bq_page adf)).
      rewrite fill_page_flip by (by rewrite Hfg). rewrite Hfg. simpl.
      rewrite pget_pset_ne; [apply Hact'|]. by apply fill_page_other. }
  assert (Hrd' : elv_priv rq'
                 = Some (RqData d (rq_pred_lat ad rq) (blk_rq_bytes rq) None))
    by done.
  exists ad1, ad2, rq'.
  split; [exact Hins|].
  split; [unfold adios_has_work, dl_tree_has_work; simpl; apply orb_true_r|].
  split.
  { unfold adios_dispatch_request, dispatch_from_pq.
    change (prio_queue ad1) with (prio_queue ad). rewrite Hpq0, Hdisp. done. }
  split; [done|]. split; [by eexists|]. split; [exact Htpl2|].
  split; [exact Hidle2|]. split; [exact Hok2|].
  intros [Hcal | Hio].
  - assert (Hcal2 : calibrated ad2).
    { intros o'. change (lat_model ad2) with (lat_model adf). rewrite Hflm.
      apply Hcal. }
    destruct (adios_completed_request_calibrated jiffies interval ad2 rq' now _
                Hcal2 Hrd')
      as (ad3 & Hc3 & Ht3 & _ & Hp3 & Hd3 & Hb3 & Hg3 & Hm3).
    exists ad3. split; [exact Hc3|]. split.
    { rewrite Ht3, Htpl2. simpl. by rewrite Z.sub_diag. }
    unfold adios_has_work, pq_has_work, bq_has_work, dl_tree_has_work in *.
    by rewrite Hp3, Hd3, Hb3, Hg3, Hm3.
  - unfold adios_completed_request, get_rq_data. rewrite Hrd'.
    cbn [mbind option_bind]. cbv zeta.
    change (io_start_time_ns rq') with (io_start_time_ns rq). rewrite Hio.
    cbn [Z.eqb orb]. eexists. split; [reflexivity|]. split.
    { cbn [total_pred_lat set_total_pred_lat rd_pred_lat].
      rewrite Htpl2. by rewrite Z.sub_diag. }
    exact Hidle2.
Qed.

Lemma single_request_life_cycle_witness :
  exists ad1 ad2 ad3 rq',
    insert_request calibrated_ad rq_a 0 merge_none = Some ad1
    /\ adios_dispatch_request (fun _ => 0) 2 default_globals ad1
       = Some (Some (rq', Z.lor 0 2), ad2)
    /\ adios_completed_request 0 1500 ad2 rq' 9000 = Some ad3
    /\ total_pred_lat ad3 = 0.
Proof.
  destruct (single_request_life_cycle (fun _ => 0) 2 default_globals 0 1500
              9000 calibrated_ad rq_a 0 merge_none) as [_ H].
  - reflexivity.
  - split; [by left|]. split; [by intros _ []|done].
  - reflexivity.
  - intros o. destruct o; split; vm_compute; split;
      (discriminate || reflexivity).
  - by eexists.
  - vm_compute. reflexivity.
  - reflexivity.
  - destruct H as (ad1 & ad2 & rq' & H1 & _ & H2 & _ & _ & _ & _ & _ & H3);
      [reflexivity | reflexivity |].
    destruct H3 as (ad3 & H3 & H4 & _).
    { left. intros o. destruct o; vm_compute; discriminate. }
    exists ad1, ad2, ad3, rq'. split; [exact H1|]. split; [exact H2|].
    split; [exact H3 | exact H4].
Defined.

(** ** A request without its private record *)

(** X24. [adios_prepare_request] leaves [elv.priv[0]] at [NULL] when the
    pool has no memory, and nothing later checks for that.  Such a request
    still passes through the priority queue untouched (inserted at the head
    it is the next request dispatched, and the scheduler is as before), but
    an insertion that is neither at the head nor merged away faults in
    [add_to_dl_tree], and so does its completion; [adios_finish_request]
    does nothing for it.  With memory the request gets a zeroed record,
    which [adios_finish_request] takes away again. *)
Theorem unprepared_request_faults
    (rq_flags : request -> Z) (RQF_STARTED : Z) (g : adios_globals)
    (jiffies interval now : Z)
    (ad : adios_data) (rq0 : request) (flags : Z) (env : insert_env) :
  let rq := adios_prepare_request false rq0 in
  (Z.land flags BLK_MQ_INSERT_AT_HEAD = 0 -> try_insert_merge env = false ->
   insert_request ad rq flags env = None)
  /\ (Z.land flags BLK_MQ_INSERT_AT_HEAD <> 0 ->
      exists ad1,
        insert_request ad rq flags env = Some ad1
        /\ adios_dispatch_request rq_flags RQF_STARTED g ad1
           = Some (Some (rq, Z.lor (rq_flags rq) RQF_STARTED), ad))
  /\ adios_completed_request jiffies interval ad rq now = None
  /\ adios_finish_request rq = rq
  /\ elv_priv (adios_prepare_request true rq0) = Some zero_rq_data
  /\ elv_priv (adios_finish_request (adios_prepare_request true rq0)) = None.
Proof.
  intros rq. split; [|split; [|by repeat split]].
  - intros Hfl Hmerge. unfold insert_request. by rewrite Hfl, Hmerge.
  - intros Hfl. unfold insert_request.
    destruct (Z.eqb_spec (Z.land flags BLK_MQ_INSERT_AT_HEAD) 0); [done|].
    simpl. eexists. split; [reflexivity|].
    unfold adios_dispatch_request, dispatch_from_pq. simpl.
    do 3 f_equal. by destruct ad.
Qed.

Lemma unprepared_request_faults_witness :
  insert_request (init_adios_data 0) (adios_prepare_request false rq_a) 0
    merge_none = None
  /\ exists ad1,
       insert_request (init_adios_data 0) (adios_prepare_request false rq_a) 1
         merge_none = Some ad1
       /\ adios_dispatch_request (fun _ => 0) 2 default_globals ad1
          = Some (Some (adios_prepare_request false rq_a, Z.lor 0 2),
                  init_adios_data 0).
Proof.
  split.
  - apply (unprepared_request_faults (fun _ => 0) 2 default_globals 0 1500 0
             (init_adios_data 0) rq_a 0 merge_none); reflexivity.
  - apply (unprepared_request_faults (fun _ => 0) 2 default_globals 0 1500 0
             (init_adios_data 0) rq_a 1 merge_none). discriminate.
Defined.

(** ** Conservation of requests *)

Lemma of_type_partition l :
  Permutation l
    (of_type ADIOS_READ l ++ of_type ADIOS_WRITE l
     ++ of_type ADIOS_DISCARD l ++ of_type ADIOS_OTHER l).
Proof.
  induction l as [|r l IH]; [done|].
  unfold of_type in *. cbn [List.filter].
  destruct (adios_optype r) eqn:E;
    repeat case_bool_decide; try congruence;
    cbn [app]; rewrite <- ?Permutation_middle; apply perm_skip; exact IH.
Qed.

Lemma page_rqs_extend q q' l :
  (forall o, oget o q' = oget o q ++ of_type o l) ->
  Permutation (page_rqs q') (page_rqs q ++ l).
Proof.
  intros H. unfold page_rqs.
  pose proof (H ADIOS_READ) as Hr. pose proof (H ADIOS_WRITE) as Hw.
  pose proof (H ADIOS_DISCARD) as Hd. pose proof (H ADIOS_OTHER) as Ho.
  simpl in Hr, Hw, Hd, Ho. rewrite Hr, Hw, Hd, Ho.
  rewrite (of_type_partition l) at 5. solve_Permutation.
Qed.

Lemma bq_scan_some q rq q' :
  bq_scan optype_order q = Some (rq, q') ->
  Permutation (page_rqs q) (rq :: page_rqs q').
Proof.
  unfold optype_order, page_rqs. cbn [bq_scan]. destruct q as [r w d x].
  simpl. destruct r as [|r0 r]; [|by intros [= <- <-]].
  destruct w as [|w0 w]; [|by intros [= <- <-]].
  destruct d as [|d0 d]; [|by intros [= <- <-]].
  destruct x as [|x0 x]; [done | by intros [= <- <-]].
Qed.

Lemma held_ids_unlinked l : map rq_id (map rq_unlinked l) = map rq_id l.
Proof.
  rewrite map_map. apply map_ext. intros r. unfold rq_unlinked.
  by destruct (elv_priv r).
Qed.

(** A fill pass keeps the requests held, up to their order. *)
Lemma fill_batch_queues_held glw ad current_lat :
  dl_tree_wf (dl_tree ad) ->
  is_u64 (total_pred_lat ad) ->
  exists ad' r,
    fill_batch_queues glw ad current_lat = Some (ad', r)
    /\ Permutation (map rq_id (held ad)) (map rq_id (held ad'))
    /\ bq_page ad' = bq_page ad.
Proof.
  intros Hwf Htpl. set (page := fill_page ad).
  destruct (fill_batch_queues_run glw ad current_lat Hwf)
    as (k & st_k & st_fin & Hr & Hstop & Hfill & Had & Hcnt).
  destruct (fill_reach_moves glw page (fill_start ad current_lat) k st_k)
    as (Hk & Hflat & Hq & Hqo & _ & _ & _ & Hp & Hpg & _);
    [done | unfold is_u32; simpl; lia
    | intros o; simpl; rewrite pget_pset_eq; destruct o; unfold is_u32; simpl; lia
    | done | done |].
  pose proof (fill_finish_fields st_fin) as Hfin.
  destruct (fill_finish st_fin) as [ad' r].
  destruct Hfin as (_ & H1 & H2 & _ & _ & H5 & H6 & _).
  rewrite Had in *. simpl in Hflat, Hq, Hqo, Hp, Hpg.
  exists ad', r. split; [done|]. split; [|by rewrite H6].
  unfold held. rewrite H5, Hp, H1, H2.
  set (flat := dl_flat (dl_tree ad)) in *.
  set (staged := map rq_unlinked (take k flat)) in *.
  pose proof (page_rqs_extend _ _ _ Hqo) as Hext.
  rewrite !map_app.
  assert (Hsplit : map rq_id flat
                   = map rq_id staged ++ map rq_id (dl_flat (dl_tree (fs_ad st_k)))).
  { unfold staged. rewrite held_ids_unlinked, Hflat, <- map_app.
    by rewrite take_drop. }
  rewrite Hsplit. rewrite Hq. unfold pget, pset in *.
  destruct (page =? 0); simpl; rewrite Hext, !map_app; solve_Permutation.
Qed.

(** X25. [adios_dispatch_request] neither loses nor duplicates a request:
    on a well-formed tree the requests held before the call (on the
    priority queue, in the tree and on both pages) are, by address and with
    multiplicity, the request returned, if any, together with the requests
    held after the call. *)
Theorem adios_dispatch_request_conserves
    (rq_flags : request -> Z) (RQF_STARTED : Z)
    (g : adios_globals) (ad : adios_data) :
  dl_tree_wf (dl_tree ad) ->
  is_u64 (total_pred_lat ad) ->
  exists r ad',
    adios_dispatch_request rq_flags RQF_STARTED g ad = Some (r, ad')
    /\ Permutation (map rq_id (held ad))
         (map rq_id (match r with Some (rq, _) => [rq] | None => [] end
                     ++ held ad')).
Proof.
  intros Hwf Htpl. unfold adios_dispatch_request, dispatch_from_pq.
  destruct (prio_queue ad) as [|rq q] eqn:Epq.
  2:{ eexists _, _. split; [reflexivity|]. unfold held. simpl.
      by rewrite Epq. }
  assert (Hserve : forall ad1,
    exists r ad2,
      bq_serve_again ad1 = Some (r, ad2)
      /\ Permutation (held ad1)
           (match r with Some rq => [rq] | None => [] end ++ held ad2)).
  { intros ad1.
    assert (Hone : forall a rq a2, bq_serve a = Some (rq, a2) ->
                     Permutation (held a) (rq :: held a2)).
    { intros a rq a2. unfold bq_serve.
      destruct (bq_scan _ _) as [[rq' q']|] eqn:Es; [|done].
      intros [= <- <-]. apply bq_scan_some in Es.
      unfold held, pget, pset in *. simpl.
      destruct (bq_page a =? 0); simpl; rewrite Es; solve_Permutation. }
    unfold bq_serve_again.
    destruct (bq_serve ad1) as [[rq ad2]|] eqn:E1.
    { exists (Some rq), ad2. split; [done|]. by apply Hone. }
    destruct (more_bq_ready ad1).
    - destruct (bq_serve (flip_bq_page ad1)) as [[rq ad3]|] eqn:E2.
      + exists (Some rq), ad3. split; [done|].
        change (held ad1) with (held (flip_bq_page ad1)). by apply Hone.
      + by exists None, (flip_bq_page ad1).
    - by exists None, ad1. }
  unfold dispatch_from_bq.
  change (match bq_serve ?a with
          | Some (rq, ad2) => Some (Some rq, ad2)
          | None => _
          end) with (bq_serve_again a).
  destruct (bq_wants_refill g ad).
  - destruct (fill_batch_queues_held (global_latency_window g) ad
                (total_pred_lat ad) Hwf Htpl) as (ad1 & r1 & -> & Hh & _).
    cbn [mbind option_bind].
    destruct (Hserve ad1) as (r & ad2 & -> & Hp).
    cbn [mbind option_bind].
    destruct r as [rq|]; eexists _, ad2; (split; [reflexivity|]);
      rewrite Hh, Hp; done.
  - cbn [mbind option_bind].
    destruct (Hserve ad) as (r & ad2 & -> & Hp).
    cbn [mbind option_bind].
    destruct r as [rq|]; eexists _, ad2; (split; [reflexivity|]);
      rewrite Hp; done.
Qed.

Lemma adios_dispatch_request_conserves_witness :
  exists ad r ad',
    dl_run calibrated_ad [DlAdd rq_a true; DlAdd rq_b true; DlAdd rq_c true]
    = Some ad
    /\ adios_dispatch_request (fun _ => 0) 2 default_globals ad = Some (r, ad')
    /\ Permutation (map rq_id (held ad))
         (map rq_id (match r with Some (rq, _) => [rq] | None => [] end
                     ++ held ad')).
Proof.
  destruct (dl_run_wf calibrated_ad
              [DlAdd rq_a true; DlAdd rq_b true; DlAdd rq_c true])
    as (ad & Hrun & Hwf & _).
  { exact dl_tree_wf_nil. }
  { repeat (constructor; [split; [by eexists | vm_compute; reflexivity]|]).
    constructor. }
  assert (Had := Hrun). vm_compute in Had. injection Had as Had.
  destruct (adios_dispatch_request_conserves (fun _ => 0) 2 default_globals
              ad Hwf) as (r & ad' & H1 & H2).
  { rewrite <- Had. vm_compute. split; [discriminate | reflexivity]. }
  exists ad, r, ad'. split; [exact Hrun|]. split; [exact H1 | exact H2].
Defined.

(** * Deadlines that are far apart *)

(** C7 as stated fails.  With latency targets of 2^63 for reads and 2^62 for
    writes, a discard, a read and a write are added: the tree has the
    discard's group (deadline 0) at the root, the read's (2^63 + 1) to its
    left, since the difference to 0 is negative as an [s64], and the
    write's (2^62) to its right.  The discard is removed: [rb_erase] puts
    the successor, the write's group, in the place of the root, with the
    read's group as its left child.  A second read with the deadline
    2^63 + 1 is added: its difference to the root, 2^62 + 1, is positive,
    the descent goes right, ends at a [NULL] link, and a second group with
    the deadline 2^63 + 1 is linked there. *)
Lemma dl_tree_groups_not_unique :
  exists g1 g2 g3,
    rb_run far_target_ad RbNull
      [DlAdd far_discard true; DlAdd (far_read 2) true; DlAdd far_write true;
       DlDel 1%nat; DlAdd (far_read 4) true]
    = Some (RbNode RB_BLACK (RbNode RB_RED RbNull g1 RbNull) g2
              (RbNode RB_RED RbNull g3 RbNull))
    /\ deadline g1 = 2 ^ 63 + 1 /\ map rq_id (rqs g1) = [2%nat]
    /\ deadline g2 = 2 ^ 62 /\ map rq_id (rqs g2) = [3%nat]
    /\ deadline g3 = 2 ^ 63 + 1 /\ map rq_id (rqs g3) = [4%nat]
    /\ ~ NoDup (map deadline [g1; g2; g3]).
Proof.
  do 3 eexists. split; [vm_compute; reflexivity|].
  do 6 (split; [reflexivity|]).
  intros H. apply NoDup_cons in H as [H _]. apply H. simpl.
  apply list_elem_of_In. right. by left.
Qed.

(** The latency targets of the run are what three writes to the sysfs
    attributes of a fresh scheduler leave. *)
Example far_target_ad_stored :
  let st0 := (default_globals, init_adios_data 0) in
  let st1 := snd (adios_lat_target_store far_kstrto ADIOS_READ st0
                    "9223372036854775808" 20) in
  let st2 := snd (adios_lat_target_store far_kstrto ADIOS_WRITE st1
                    "4611686018427387904" 20) in
  let st3 := snd (adios_lat_target_store far_kstrto ADIOS_DISCARD st2 "0" 2) in
  snd st3 = far_target_ad.
Proof. vm_compute. reflexivity. Qed.

(** The tree before and after the removal, as the descent finds it. *)
Example dl_tree_far_apart_shapes :
  (t ← rb_run far_target_ad RbNull
         [DlAdd far_discard true; DlAdd (far_read 2) true; DlAdd far_write true];
   Some (map deadline (rb_inorder t)))
  = Some [2 ^ 63 + 1; 0; 2 ^ 62]
  /\ (t ← rb_run far_target_ad RbNull
            [DlAdd far_discard true; DlAdd (far_read 2) true;
             DlAdd far_write true; DlDel 1%nat];
      Some (map deadline (rb_inorder t)))
     = Some [2 ^ 63 + 1; 2 ^ 62].
Proof. split; vm_compute; reflexivity. Qed.

(** * The tree and the sequence of its groups

    Below 2^63 the two descriptions of the deadline tree agree: what
    [add_to_dl_tree] and [remove_request] make of the tree with its shape
    has, read in order, the groups that [dl_link] and [dl_unlink] give.
    [rb_insert_color] and [rb_erase] change the shape only. *)

Lemma rb_inorder_plug p t :
  rb_inorder (rb_plug p t) = rb_before p ++ rb_inorder t ++ rb_after p.
Proof.
  revert t. induction p as [|[c g r|c l g] p IH]; intros t; simpl.
  - by rewrite app_nil_r.
  - rewrite IH. simpl. by rewrite <- !app_assoc.
  - rewrite IH. simpl. by rewrite <- !app_assoc.
Qed.

Lemma rb_inorder_set_color c t : rb_inorder (rb_set_color c t) = rb_inorder t.
Proof. by destruct t. Qed.

Ltac rb_inorder_norm :=
  repeat first [ rewrite rb_inorder_plug | rewrite rb_inorder_set_color
               | rewrite <- app_assoc | progress simpl ].

Lemma rb_insert_color_inorder_n n :
  forall p node t', (length p <= n)%nat ->
    rb_insert_color node p = Some t' ->
    rb_inorder t' = rb_inorder (rb_plug p node).
Proof.
  induction n as [|n IH]; intros p node t' Hlen.
  { destruct p; [|simpl in Hlen; lia]. simpl. intros [= <-].
    by rewrite rb_inorder_set_color. }
  destruct p as [|f p]; [simpl; intros [= <-]; by rewrite rb_inorder_set_color|].
  destruct f as [[|] pg pr | [|] pl pg]; try (simpl; by intros [= <-]).
  - destruct p as [|[gc gg uncle | gc uncle gg] p]; [done | |]; simpl.
    + destruct (rb_is_red uncle).
      * intros H. apply IH in H; [|simpl in Hlen; lia]. rewrite H.
        by rb_inorder_norm.
      * intros [= <-]. by rb_inorder_norm.
    + destruct (rb_is_red uncle).
      * intros H. apply IH in H; [|simpl in Hlen; lia]. rewrite H.
        by rb_inorder_norm.
      * destruct node as [|nc nl ng nr]; [done|]. intros [= <-].
        by rb_inorder_norm.
  - destruct p as [|[gc gg uncle | gc uncle gg] p]; [done | |]; simpl.
    + destruct (rb_is_red uncle).
      * intros H. apply IH in H; [|simpl in Hlen; lia]. rewrite H.
        by rb_inorder_norm.
      * destruct node as [|nc nl ng nr]; [done|]. intros [= <-].
        by rb_inorder_norm.
    + destruct (rb_is_red uncle).
      * intros H. apply IH in H; [|simpl in Hlen; lia]. rewrite H.
        by rb_inorder_norm.
      * intros [= <-]. by rb_inorder_norm.
Qed.

(** [rb_insert_color] keeps the order of the groups. *)
Lemma rb_insert_color_inorder node p t' :
  rb_insert_color node p = Some t' ->
  rb_inorder t' = rb_inorder (rb_plug p node).
Proof. by apply (rb_insert_color_inorder_n (length p)). Qed.

Lemma rb_erase_left_inorder node pc pg sl sg sr :
  rb_inorder (match rb_erase_left node pc pg sl sg sr with
              | RbBreak t | RbContinue t => t
              end)
  = rb_inorder node ++ pg :: rb_inorder sl ++ sg :: rb_inorder sr.
Proof.
  unfold rb_erase_left. destruct (rb_is_red sr); [by rb_inorder_norm|].
  destruct sl as [|[|] sll slg slr]; destruct pc; by rb_inorder_norm.
Qed.

Lemma rb_erase_right_inorder node pc pg sl sg sr :
  rb_inorder (match rb_erase_right node pc pg sl sg sr with
              | RbBreak t | RbContinue t => t
              end)
  = rb_inorder sl ++ sg :: rb_inorder sr ++ pg :: rb_inorder node.
Proof.
  unfold rb_erase_right. destruct (rb_is_red sl); [by rb_inorder_norm|].
  destruct sr as [|[|] srl srg srr]; destruct pc; by rb_inorder_norm.
Qed.

(** [____rb_erase_color] keeps the order of the groups. *)
Lemma rb_erase_color_inorder p :
  forall node t', rb_erase_color node p = Some t' ->
    rb_inorder t' = rb_inorder (rb_plug p node).
Proof.
  induction p as [|[pc pg sibling | pc sibling pg] p IH]; intros node t'; simpl.
  - by intros [= <-].
  - destruct sibling as [|[|] sl sg sr]; [done | |].
    + destruct sl as [|slc sll slg slr]; [done|].
      pose proof (rb_erase_left_inorder node RB_RED pg sll slg slr) as He.
      destruct (rb_erase_left node RB_RED pg sll slg slr) as [t|t];
        intros [= <-]; rb_inorder_norm; rewrite He; by rb_inorder_norm.
    + pose proof (rb_erase_left_inorder node pc pg sl sg sr) as He.
      destruct (rb_erase_left node pc pg sl sg sr) as [t|t].
      * intros [= <-]. rb_inorder_norm. rewrite He. by rb_inorder_norm.
      * intros H. apply IH in H. rewrite H. rb_inorder_norm. rewrite He.
        by rb_inorder_norm.
  - destruct sibling as [|[|] sl sg sr]; [done | |].
    + destruct sr as [|src srl srg srr]; [done|].
      pose proof (rb_erase_right_inorder node RB_RED pg srl srg srr) as He.
      destruct (rb_erase_right node RB_RED pg srl srg srr) as [t|t];
        intros [= <-]; rb_inorder_norm; rewrite He; by rb_inorder_norm.
    + pose proof (rb_erase_right_inorder node pc pg sl sg sr) as He.
      destruct (rb_erase_right node pc pg sl sg sr) as [t|t].
      * intros [= <-]. rb_inorder_norm. rewrite He. by rb_inorder_norm.
      * intros H. apply IH in H. rewrite H. rb_inorder_norm. rewrite He.
        by rb_inorder_norm.
Qed.

Lemma rb_before_app q p : rb_before (q ++ p) = rb_before p ++ rb_before q.
Proof.
  induction q as [|[c g r|c l g] q IH]; simpl.
  - by rewrite app_nil_r.
  - done.
  - rewrite IH. by rewrite <- !app_assoc.
Qed.

Lemma rb_after_app q p : rb_after (q ++ p) = rb_after q ++ rb_after p.
Proof.
  induction q as [|[c g r|c l g] q IH]; simpl; [done | | done].
  rewrite IH. by rewrite <- !app_assoc.
Qed.

(** The successor is the first group of the right subtree. *)
Lemma rb_leftmost_inorder t :
  forall p q c g ch, rb_leftmost t p = Some (q, c, g, ch) ->
    rb_before q = rb_before p
    /\ g :: rb_inorder ch ++ rb_after q = rb_inorder t ++ rb_after p.
Proof.
  induction t as [|tc l IHl tg r _]; intros p q c g ch; simpl; [done|].
  destruct l as [|lc ll lg lr].
  - intros [= <- <- <- <-]. done.
  - intros H. apply IHl in H as [H1 H2]. simpl in H1, H2.
    split; [done|]. rewrite H2. by rb_inorder_norm.
Qed.

(** [rb_erase] takes the node's group out and keeps the order of the
    others. *)
Lemma rb_erase_inorder c l r p t' :
  rb_erase c l r p = Some t' ->
  rb_inorder t' = rb_before p ++ rb_inorder l ++ rb_inorder r ++ rb_after p.
Proof.
  unfold rb_erase.
  destruct l as [|lc ll lg lr]; destruct r as [|rc rl rg rr].
  - destruct c.
    + intros [= <-]. by rb_inorder_norm.
    + intros H. apply rb_erase_color_inorder in H. rewrite H.
      by rb_inorder_norm.
  - intros [= <-]. by rb_inorder_norm.
  - intros [= <-]. by rb_inorder_norm.
  - set (l := RbNode lc ll lg lr). set (r := RbNode rc rl rg rr).
    destruct (rb_leftmost r []) as [[[[q sc] sg] ch]|] eqn:El; [|done].
    clearbody l r.
    apply rb_leftmost_inorder in El as [El1 El2].
    cbn [rb_before rb_after] in El1, El2.
    rewrite app_nil_r in El2. cbn [mbind option_bind].
    assert (Hgoal : forall x,
      rb_inorder x = rb_inorder ch ->
      rb_inorder (rb_plug (q ++ RbRightOf c l sg :: p) x)
      = rb_before p ++ rb_inorder l ++ rb_inorder r ++ rb_after p).
    { intros x Hx. rewrite rb_inorder_plug, rb_before_app, rb_after_app, Hx.
      rewrite El1. cbn [rb_before rb_after]. rewrite <- El2.
      rewrite <- !app_assoc. simpl. by rewrite <- !app_assoc. }
    destruct ch as [|cc cl cg cr].
    + destruct sc.
      * intros [= <-]. by apply Hgoal.
      * intros H. apply rb_erase_color_inorder in H. rewrite H.
        by apply Hgoal.
    + intros [= <-]. by apply Hgoal.
Qed.

(** Where [dl_link] puts a deadline that lies between the groups of [A] and
    those of [B]. *)
Lemma dl_link_insert b A B d rq :
  0 <= d < 2 ^ 63 ->
  Forall (fun g => 0 <= deadline g < 2 ^ 63) (A ++ B) ->
  Forall (fun g => deadline g < d) A ->
  Forall (fun g => d < deadline g) B ->
  dl_link b (A ++ B) d rq
  = if b then Some (A ++ DlGroup d [rq] :: B) else None.
Proof.
  intros Hd Hu HA HB. induction HA as [|g A Hg HA IH]; simpl.
  - destruct HB as [|g B Hg HB]; simpl; [done|].
    inversion Hu; subst. rewrite s64_diff by done.
    destruct (Z.ltb_spec (d - deadline g) 0); [done | lia].
  - simpl in Hu. inversion Hu; subst. rewrite s64_diff by done.
    destruct (Z.ltb_spec (d - deadline g) 0); [lia|].
    destruct (Z.ltb_spec 0 (d - deadline g)); [|lia].
    rewrite IH by done. by destruct b.
Qed.

(** Where the descent ends in a tree whose keys are in order: at the group
    with the deadline, or at the link between the groups below and the
    groups above the deadline. *)
Lemma rb_descend_spec t :
  forall d p0,
    0 <= d < 2 ^ 63 ->
    Forall (fun g => 0 <= deadline g < 2 ^ 63) (rb_inorder t) ->
    keys_sorted (map deadline (rb_inorder t)) ->
    Forall (fun g => deadline g < d) (rb_before p0) ->
    Forall (fun g => d < deadline g) (rb_after p0) ->
    match rb_descend t d p0 with
    | RbLink p =>
        rb_plug p RbNull = rb_plug p0 t
        /\ Forall (fun g => deadline g < d) (rb_before p)
        /\ Forall (fun g => d < deadline g) (rb_after p)
    | RbFound p c l g r =>
        rb_plug p (RbNode c l g r) = rb_plug p0 t /\ deadline g = d
    end.
Proof.
  induction t as [|c l IHl g r IHr]; intros d p0 Hd Hu Hs Hb Ha; simpl.
  { done. }
  simpl in Hu, Hs. rewrite map_app in Hs. simpl in Hs.
  apply keys_sorted_app_inv in Hs as (Hlt & Hgt & Hsl & Hsr & _).
  apply (proj1 (List.Forall_map deadline _ _)) in Hlt.
  apply (proj1 (List.Forall_map deadline _ _)) in Hgt.
  apply Forall_app in Hu as [Hul Hur].
  inversion Hur as [|? ? Hug Hur']; subst.
  rewrite s64_diff by done.
  destruct (Z.ltb_spec (d - deadline g) 0).
  - specialize (IHl d (RbLeftOf c g r :: p0) Hd Hul Hsl).
    simpl in IHl. apply IHl; [done|].
    constructor; [lia|]. apply Forall_app. split; [|done].
    eapply Forall_impl; [exact Hgt | simpl; intros; lia].
  - destruct (Z.ltb_spec 0 (d - deadline g)).
    + specialize (IHr d (RbRightOf c l g :: p0) Hd Hur' Hsr).
      simpl in IHr. apply IHr; [|done].
      apply Forall_app. split; [done|]. apply Forall_app. split.
      * eapply Forall_impl; [exact Hlt | simpl; intros; lia].
      * constructor; [lia | constructor].
    + split; [done | lia].
Qed.

Lemma dl_tree_wf_bounded t :
  dl_tree_wf t -> Forall (fun g => 0 <= deadline g < 2 ^ 63) t.
Proof.
  intros [Hok _]. eapply Forall_impl; [exact Hok|]. by intros g [? _].
Qed.

(** [add_to_dl_tree] on the tree with its shape gives, read in order, what
    it gives on the sequence of the groups. *)
Lemma rb_add_to_dl_tree_inorder b ad t rq t' rq' :
  dl_tree_wf (rb_inorder t) -> rq_deadline ad rq < 2 ^ 63 ->
  rb_add_to_dl_tree b ad t rq = Some (t', rq') ->
  exists ad',
    add_to_dl_tree b (set_dl_tree (rb_inorder t) ad) rq = Some (ad', rq')
    /\ dl_tree ad' = rb_inorder t'.
Proof.
  intros Hwf Hd63. unfold rb_add_to_dl_tree, add_to_dl_tree.
  destruct (get_rq_data rq) as [rd|]; [|done]. cbn [mbind option_bind].
  change (rq_pred_lat (set_dl_tree (rb_inorder t) ad) rq)
    with (rq_pred_lat ad rq).
  change (rq_deadline (set_dl_tree (rb_inorder t) ad) rq)
    with (rq_deadline ad rq).
  change (dl_tree (set_dl_tree (rb_inorder t) ad)) with (rb_inorder t).
  cbv zeta.
  set (d := rq_deadline ad rq) in *.
  assert (Hd : 0 <= d < 2 ^ 63).
  { pose proof (wrap64_range
      (wrap64 (start_time_ns rq + oget (adios_optype rq) (latency_target ad))
       + rq_pred_lat ad rq)) as Hr.
    unfold is_u64 in Hr. unfold d, rq_deadline in *. lia. }
  set (linked := set_elv_priv (Some (RqData d _ _ (Some d))) rq).
  set (unlinked := set_elv_priv (Some (RqData d _ _ (rd_dl_group rd))) rq).
  pose proof (dl_tree_wf_bounded _ Hwf) as Hu.
  pose proof (rb_descend_spec t d [] Hd Hu (proj2 Hwf)
                ltac:(constructor) ltac:(constructor)) as Hdesc.
  destruct (rb_descend t d []) as [p c l g r | p]; simpl in Hdesc.
  - destruct Hdesc as [Hplug Hg]. intros [= <- <-].
    rewrite <- Hplug in Hwf |- *. rewrite rb_inorder_plug in Hwf |- *.
    simpl in Hwf |- *. rewrite <- !app_assoc in Hwf |- *.
    simpl in Hwf |- *.
    rewrite (app_assoc (rb_before p) (rb_inorder l)) in Hwf |- *.
    rewrite <- Hg. rewrite dl_link_found by done.
    eexists. split; [done|]. simpl. rewrite rb_inorder_plug. simpl.
    by rewrite <- !app_assoc.
  - destruct Hdesc as (Hplug & Hb & Ha).
    rewrite <- Hplug in Hu |- *. rewrite rb_inorder_plug in Hu |- *.
    simpl in Hu |- *. rewrite (dl_link_insert b _ _ d linked) by done.
    destruct b.
    + destruct (rb_insert_color _ p) as [t''|] eqn:Ei; [|done].
      cbn [mbind option_bind]. intros [= <- <-].
      apply rb_insert_color_inorder in Ei. rewrite Ei, rb_inorder_plug.
      eexists. split; [done|]. done.
    + intros [= <- <-]. eexists. split; [done|]. simpl.
      by rewrite rb_inorder_plug.
Qed.

(** The node that [rb_locate] finds holds the address, at the end of the
    way it returns. *)
Lemma rb_locate_spec id t :
  forall p0 p c l g r,
    rb_locate id t p0 = Some (p, c, l, g, r) ->
    rb_plug p (RbNode c l g r) = rb_plug p0 t
    /\ existsb (fun x => Nat.eqb (rq_id x) id) (rqs g) = true.
Proof.
  induction t as [|tc tl IHl tg tr IHr]; intros p0 p c l g r; simpl; [done|].
  destruct (existsb _ (rqs tg)) eqn:E.
  - by intros [= <- <- <- <- <-].
  - destruct (rb_locate id tl _) as [x|] eqn:El.
    + intros [= ->]. by apply IHl in El.
    + intros H. by apply IHr in H.
Qed.

(** [remove_request] on the tree with its shape gives, read in order, what
    it gives on the sequence of the groups, for a request whose
    [rd->dl_group] points at the group that holds its address. *)
Lemma rb_remove_request_inorder ad t rq t' rq' :
  dl_tree_wf (rb_inorder t) ->
  (forall g, In g (rb_inorder t) ->
     existsb (fun x => Nat.eqb (rq_id x) (rq_id rq)) (rqs g) = true ->
     linked_in (deadline g) rq) ->
  rb_remove_request t rq = Some (t', rq') ->
  exists ad',
    remove_request (set_dl_tree (rb_inorder t) ad) rq = Some (ad', rq')
    /\ dl_tree ad' = rb_inorder t'.
Proof.
  intros Hwf Hptr. unfold rb_remove_request, remove_request.
  destruct (get_rq_data rq) as [rd|] eqn:Erd; [|done].
  cbn [mbind option_bind].
  destruct (rd_dl_group rd) as [d|] eqn:Ed.
  2:{ intros [= <- <-]. eexists. split; [done|]. done. }
  unfold rb_del_from_dl_tree, del_from_dl_tree. rewrite Erd.
  cbn [mbind option_bind]. rewrite Ed. cbn [mbind option_bind].
  destruct (rb_locate _ t []) as [[[[[p c] l] g] r]|] eqn:El; [|done].
  apply rb_locate_spec in El as [Hplug Hex]. simpl in Hplug.
  cbn [mbind option_bind].
  assert (Hin : In g (rb_inorder t)).
  { rewrite <- Hplug, rb_inorder_plug. simpl.
    rewrite !in_app_iff. simpl. tauto. }
  destruct (Hptr g Hin Hex) as (rd0 & Hrd0 & Hd0).
  unfold get_rq_data in Erd.
  assert (rd0 = rd) as -> by congruence.
  assert (d = deadline g) as -> by congruence.
  change (dl_tree (set_dl_tree (rb_inorder t) ad)) with (rb_inorder t).
  destruct Hwf as [_ Hs].
  rewrite <- Hplug in Hs |- *. rewrite rb_inorder_plug in Hs |- *.
  simpl in Hs |- *. rewrite <- !app_assoc in Hs |- *. simpl in Hs |- *.
  rewrite (app_assoc (rb_before p) (rb_inorder l)) in Hs |- *.
  rewrite dl_unlink_at by done.
  destruct (list_del (rq_id rq) (rqs g)) as [|x rest] eqn:Edel.
  - destruct (rb_erase c l r p) as [t''|] eqn:Ee; [|done].
    cbn [mbind option_bind]. intros [= <- <-].
    apply rb_erase_inorder in Ee. rewrite Ee.
    eexists. split; [done|]. simpl. by rewrite <- !app_assoc.
  - intros [= <- <-]. eexists. split; [done|]. simpl.
    rewrite rb_inorder_plug. simpl. by rewrite <- !app_assoc.
Qed.

(** Both descriptions on one run: ten requests arriving out of order, two
    of them at the same time, and four removals.  The tree with its shape
    does not fault and holds, in order, the groups of the sequence. *)
Example rb_run_agrees :
  let ops :=
    [DlAdd (read_rq 1 50 512) true; DlAdd (read_rq 2 30 512) true;
     DlAdd (read_rq 3 80 512) true; DlAdd (read_rq 4 10 512) true;
     DlAdd (read_rq 5 40 512) true; DlAdd (read_rq 6 70 512) true;
     DlAdd (read_rq 7 90 512) true; DlAdd (read_rq 8 20 512) true;
     DlAdd (read_rq 9 40 512) true; DlDel 4%nat; DlDel 1%nat;
     DlAdd (read_rq 10 60 512) true; DlDel 5%nat; DlDel 7%nat] in
  (t ← rb_run (init_adios_data 0) RbNull ops; Some (rb_inorder t))
  = (ad ← dl_run (init_adios_data 0) ops; Some (dl_tree ad))
  /\ (t ← rb_run (init_adios_data 0) RbNull ops;
      Some (map (fun g => map rq_id (rqs g)) (rb_inorder t)))
     = Some [[8]; [2]; [9]; [10]; [6]; [3]]%nat.
Proof. split; vm_compute; reflexivity. Qed.

(** * The tree stays red-black

    On a red-black tree neither [rb_insert_color] nor [rb_erase] meets the
    [NULL] pointer that its loop would dereference, and what they return
    is a red-black tree again. *)

Lemma rb_set_black_id t : rb_is_red t = false -> rb_set_color RB_BLACK t = t.
Proof. by destruct t as [|[|] l g r]. Qed.

Lemma rb_set_black_valid n t :
  rb_is_red t = true -> rb_valid n t -> rb_valid (S n) (rb_set_color RB_BLACK t).
Proof. destruct t as [|[|] l g r]; simpl; try done. tauto. Qed.

Lemma rb_valid_not_null n t : rb_valid (S n) t -> t <> RbNull.
Proof. by destruct t. Qed.

Lemma rb_plug_ok p :
  forall n t, rb_path_valid p n -> rb_valid n t -> rb_fits p t ->
    rb_tree_ok (rb_plug p t).
Proof.
  induction p as [|[[|] g s | [|] s g] p IH]; intros n t Hp Ht Hf; simpl.
  - split; [|by exists n]. unfold rb_fits in Hf. simpl in Hf.
    destruct (rb_is_red t); [by destruct Hf | done].
  - destruct Hp as (Hs & Hsb & Hpb & Hp).
    apply (IH n); [done | | by intros _].
    simpl. unfold rb_fits in Hf. simpl in Hf.
    destruct (rb_is_red t); [by destruct Hf | done].
  - destruct Hp as (Hs & Hp). apply (IH (S n)); [done | done | by intros ?].
  - destruct Hp as (Hs & Hsb & Hpb & Hp).
    apply (IH n); [done | | by intros _].
    simpl. unfold rb_fits in Hf. simpl in Hf.
    destruct (rb_is_red t); [by destruct Hf | done].
  - destruct Hp as (Hs & Hp). apply (IH (S n)); [done | done | by intros ?].
Qed.

Lemma rb_parent_black_inv p :
  rb_parent_black p ->
  exists g s p', p = RbLeftOf RB_BLACK g s :: p' \/ p = RbRightOf RB_BLACK s g :: p'.
Proof.
  destruct p as [|[[|] g s | [|] s g] p']; simpl; try done; intros _;
    exists g, s, p'; auto.
Qed.

Lemma rb_insert_color_ok_n k :
  forall p node n, (length p <= k)%nat ->
    rb_path_valid p n -> rb_valid n node -> rb_is_red node = true ->
    exists t', rb_insert_color node p = Some t' /\ rb_tree_ok t'.
Proof.
  induction k as [|k IH]; intros p node n Hlen Hp Hn Hred.
  { destruct p; [|simpl in Hlen; lia]. simpl. eexists. split; [done|].
    destruct node as [|[|] l g r]; try done. simpl in Hn.
    split; [done|]. exists (S n). simpl. tauto. }
  destruct p as [|f p].
  { simpl. eexists. split; [done|].
    destruct node as [|[|] l g r]; try done. simpl in Hn.
    split; [done|]. exists (S n). simpl. tauto. }
  destruct node as [|[|] nl ng nr]; try done.
  set (node := RbNode RB_RED nl ng nr) in *.
  destruct f as [[|] pg pr | [|] pl pg].
  - destruct Hp as (Hpr & Hprb & Hpb & Hp).
    destruct (rb_parent_black_inv _ Hpb) as (gg & uncle & p' & [-> | ->]);
      destruct Hp as (Hu & Hp); cbn [rb_insert_color];
      destruct (rb_is_red uncle) eqn:Eu.
    + apply (IH p' _ (S n)); [simpl in Hlen; lia | done | | done].
      simpl. split; [done|]. split; [by apply rb_set_black_valid in Hu; destruct uncle as [|[|]]|].
      split; [done|]. by apply rb_set_black_valid.
    + eexists. split; [done|].
      apply (rb_plug_ok p' (S n)); [done | | by intros ?].
      rewrite rb_set_black_id by done. simpl. simpl in Hn. tauto.
    + apply (IH p' _ (S n)); [simpl in Hlen; lia | done | | done].
      simpl. split; [by destruct uncle as [|[|]]|]. split; [done|].
      split; [by apply rb_set_black_valid | done].
    + eexists. split; [done|].
      apply (rb_plug_ok p' (S n)); [done | | by intros ?].
      simpl in Hn. destruct Hn as (Hnl & Hnr & Hvl & Hvr).
      rewrite !rb_set_black_id by done. simpl. tauto.
  - eexists. split; [done|].
    apply (rb_plug_ok _ n); [done | done | by intros ?].
  - destruct Hp as (Hpl & Hplb & Hpb & Hp).
    destruct (rb_parent_black_inv _ Hpb) as (gg & uncle & p' & [-> | ->]);
      destruct Hp as (Hu & Hp); cbn [rb_insert_color];
      destruct (rb_is_red uncle) eqn:Eu.
    + apply (IH p' _ (S n)); [simpl in Hlen; lia | done | | done].
      simpl. split; [done|]. split; [by destruct uncle as [|[|]]|].
      split; [done|]. by apply rb_set_black_valid.
    + eexists. split; [done|].
      apply (rb_plug_ok p' (S n)); [done | | by intros ?].
      simpl in Hn. destruct Hn as (Hnl & Hnr & Hvl & Hvr).
      rewrite !rb_set_black_id by done. simpl. tauto.
    + apply (IH p' _ (S n)); [simpl in Hlen; lia | done | | done].
      simpl. split; [by destruct uncle as [|[|]]|]. split; [done|].
      split; [by apply rb_set_black_valid | done].
    + eexists. split; [done|].
      apply (rb_plug_ok p' (S n)); [done | | by intros ?].
      rewrite rb_set_black_id by done. simpl. simpl in Hn. tauto.
  - eexists. split; [done|].
    apply (rb_plug_ok _ n); [done | done | by intros ?].
Qed.

(** [rb_insert_color] of a red node linked into a red-black tree returns,
    and returns a red-black tree. *)
Lemma rb_insert_color_ok p node n :
  rb_path_valid p n -> rb_valid n node -> rb_is_red node = true ->
  exists t', rb_insert_color node p = Some t' /\ rb_tree_ok t'.
Proof. by apply (rb_insert_color_ok_n (length p)). Qed.

Lemma rb_erase_left_ok node pc pg sl sg sr h :
  rb_valid h node -> rb_valid h sl -> rb_valid h sr ->
  match rb_erase_left node pc pg sl sg sr with
  | RbBreak t =>
      match pc with
      | RB_RED => rb_valid (S h) t
      | RB_BLACK => rb_valid (S (S h)) t /\ rb_is_red t = false
      end
  | RbContinue t => pc = RB_BLACK /\ rb_valid (S h) t /\ rb_is_red t = false
  end.
Proof.
  intros Hn Hl Hr. unfold rb_erase_left.
  destruct (rb_is_red sr) eqn:Er.
  { pose proof (rb_set_black_valid h sr Er Hr) as Hr'.
    assert (rb_is_red (rb_set_color RB_BLACK sr) = false)
      by (by destruct sr as [|[|]]).
    destruct pc; simpl; tauto. }
  destruct sl as [|[|] a b c].
  - destruct pc; simpl; simpl in Hl; tauto.
  - simpl in Hl. destruct Hl as (Ha & Hc & Hva & Hvc).
    rewrite rb_set_black_id by done. destruct pc; simpl; tauto.
  - destruct pc; simpl; simpl in Hl; tauto.
Qed.

Lemma rb_erase_right_ok node pc pg sl sg sr h :
  rb_valid h node -> rb_valid h sl -> rb_valid h sr ->
  match rb_erase_right node pc pg sl sg sr with
  | RbBreak t =>
      match pc with
      | RB_RED => rb_valid (S h) t
      | RB_BLACK => rb_valid (S (S h)) t /\ rb_is_red t = false
      end
  | RbContinue t => pc = RB_BLACK /\ rb_valid (S h) t /\ rb_is_red t = false
  end.
Proof.
  intros Hn Hl Hr. unfold rb_erase_right.
  destruct (rb_is_red sl) eqn:El.
  { pose proof (rb_set_black_valid h sl El Hl) as Hl'.
    assert (rb_is_red (rb_set_color RB_BLACK sl) = false)
      by (by destruct sl as [|[|]]).
    destruct pc; simpl; tauto. }
  destruct sr as [|[|] a b c].
  - destruct pc; simpl; simpl in Hr; tauto.
  - simpl in Hr. destruct Hr as (Ha & Hc & Hva & Hvc).
    rewrite rb_set_black_id by done. destruct pc; simpl; tauto.
  - destruct pc; simpl; simpl in Hr; tauto.
Qed.

(** [____rb_erase_color] below a link that is one black node short returns,
    and returns a red-black tree. *)
Lemma rb_erase_color_ok p :
  forall node h,
    rb_path_valid p (S h) -> rb_valid h node -> rb_is_red node = false ->
    exists t', rb_erase_color node p = Some t' /\ rb_tree_ok t'.
Proof.
  induction p as [|[pc pg sibling | pc sibling pg] p IH]; intros node h Hp Hn Hb.
  - simpl. exists node. split; [done|]. split; [done | by exists h].
  - cbn [rb_erase_color]. destruct pc.
    + destruct Hp as (Hs & Hsb & Hpb & Hp).
      destruct sibling as [|[|] sl sg sr]; try done.
      destruct Hs as [Hsl Hsr].
      pose proof (rb_erase_left_ok node RB_RED pg sl sg sr h Hn Hsl Hsr) as He.
      destruct (rb_erase_left node RB_RED pg sl sg sr) as [t|t].
      * eexists. split; [done|].
        apply (rb_plug_ok p (S h)); [done | done | by intros _].
      * by destruct He.
    + destruct Hp as (Hs & Hp).
      destruct sibling as [|[|] sl sg sr]; try done.
      * destruct Hs as (Hslb & Hsrb & Hsl & Hsr).
        destruct sl as [|[|] sll slg slr]; try done.
        destruct Hsl as [Hsll Hslr].
        pose proof (rb_erase_left_ok node RB_RED pg sll slg slr h Hn Hsll Hslr)
          as He.
        destruct (rb_erase_left node RB_RED pg sll slg slr) as [t|t];
          [|by destruct He].
        eexists. split; [done|].
        apply (rb_plug_ok p (S (S h))); [done | by simpl | by intros ?].
      * destruct Hs as [Hsl Hsr].
        pose proof (rb_erase_left_ok node RB_BLACK pg sl sg sr h Hn Hsl Hsr)
          as He.
        destruct (rb_erase_left node RB_BLACK pg sl sg sr) as [t|t].
        -- destruct He as [Ht Htb]. eexists. split; [done|].
           apply (rb_plug_ok p (S (S h))); [done | done |].
           intros Hred. by rewrite Htb in Hred.
        -- destruct He as (_ & Ht & Htb). by apply (IH t (S h)).
  - cbn [rb_erase_color]. destruct pc.
    + destruct Hp as (Hs & Hsb & Hpb & Hp).
      destruct sibling as [|[|] sl sg sr]; try done.
      destruct Hs as [Hsl Hsr].
      pose proof (rb_erase_right_ok node RB_RED pg sl sg sr h Hn Hsl Hsr) as He.
      destruct (rb_erase_right node RB_RED pg sl sg sr) as [t|t].
      * eexists. split; [done|].
        apply (rb_plug_ok p (S h)); [done | done | by intros _].
      * by destruct He.
    + destruct Hp as (Hs & Hp).
      destruct sibling as [|[|] sl sg sr]; try done.
      * destruct Hs as (Hslb & Hsrb & Hsl & Hsr).
        destruct sr as [|[|] srl srg srr]; try done.
        destruct Hsr as [Hsrl Hsrr].
        pose proof (rb_erase_right_ok node RB_RED pg srl srg srr h Hn Hsrl Hsrr)
          as He.
        destruct (rb_erase_right node RB_RED pg srl srg srr) as [t|t];
          [|by destruct He].
        eexists. split; [done|].
        apply (rb_plug_ok p (S (S h))); [done | by simpl | by intros ?].
      * destruct Hs as [Hsl Hsr].
        pose proof (rb_erase_right_ok node RB_BLACK pg sl sg sr h Hn Hsl Hsr)
          as He.
        destruct (rb_erase_right node RB_BLACK pg sl sg sr) as [t|t].
        -- destruct He as [Ht Htb]. eexists. split; [done|].
           apply (rb_plug_ok p (S (S h))); [done | done |].
           intros Hred. by rewrite Htb in Hred.
        -- destruct He as (_ & Ht & Htb). by apply (IH t (S h)).
Qed.

(** The walk to the successor ends at a node without a left child, and the
    way to it is the way to the subtree with the walk in front. *)
Lemma rb_leftmost_valid t :
  forall p0 n,
    t <> RbNull -> rb_path_valid p0 n -> rb_valid n t -> rb_fits p0 t ->
    exists q sc sg ch m,
      (forall p1, rb_leftmost t p1 = Some (q ++ p1, sc, sg, ch))
      /\ rb_path_valid (q ++ p0) m
      /\ rb_valid m (RbNode sc RbNull sg ch)
      /\ rb_fits (q ++ p0) (RbNode sc RbNull sg ch).
Proof.
  induction t as [|c l IHl g r _]; intros p0 n Hne Hp Ht Hf; [done|].
  destruct l as [|lc ll lg lr].
  - exists [], c, g, r, n. simpl. by repeat split.
  - set (l := RbNode lc ll lg lr) in *.
    assert (Hl : exists m,
      rb_path_valid (RbLeftOf c g r :: p0) m /\ rb_valid m l
      /\ rb_fits (RbLeftOf c g r :: p0) l).
    { destruct c.
      - destruct Ht as (Hlb & Hrb & Hvl & Hvr). exists n.
        split; [|split; [done|]].
        + simpl. split; [done|]. split; [done|]. split; [by apply Hf | done].
        + intros Hred. by rewrite Hlb in Hred.
      - destruct n as [|n]; [done|]. destruct Ht as [Hvl Hvr]. exists n.
        split; [|split; [done|]]; by simpl. }
    destruct Hl as (m & Hp' & Hvl & Hfl).
    destruct (IHl (RbLeftOf c g r :: p0) m) as (q & sc & sg & ch & m' & Hq & H1 & H2 & H3);
      [done | done | done | done |].
    exists (q ++ [RbLeftOf c g r]), sc, sg, ch, m'.
    split.
    + intros p1. rewrite <- app_assoc. cbn [app].
      exact (Hq (RbLeftOf c g r :: p1)).
    + rewrite <- !app_assoc. by cbn [app].
Qed.

Lemma rb_leftmost_some t : forall p, t <> RbNull -> is_Some (rb_leftmost t p).
Proof.
  induction t as [|c l IHl g r _]; intros p Hne; [done|].
  destruct l as [|lc ll lg lr]; [by eexists|].
  by apply (IHl (RbLeftOf c g r :: p)).
Qed.

(** [rb_erase] of a node of a red-black tree returns, and returns a
    red-black tree. *)
Lemma rb_erase_ok c l g r p n :
  rb_path_valid p n -> rb_valid n (RbNode c l g r) ->
  rb_fits p (RbNode c l g r) ->
  exists t', rb_erase c l r p = Some t' /\ rb_tree_ok t'.
Proof.
  intros Hp Ht Hf. unfold rb_erase.
  destruct l as [|lc ll lg lr]; destruct r as [|rc rl rg rr].
  - destruct c.
    + eexists. split; [done|]. destruct Ht as (_ & _ & Hn & _).
      apply (rb_plug_ok p n); [done | done | by intros ?].
    + destruct n as [|n]; [done|]. destruct Ht as [Hn _]. simpl in Hn.
      subst n. by apply (rb_erase_color_ok p RbNull 0%nat).
  - eexists. split; [done|].
    destruct c; [destruct Ht as (_ & Hrb & Hn & Hr); simpl in Hn; subst n;
                 by destruct rc|].
    destruct n as [|n]; [done|]. destruct Ht as [Hn Hr]. simpl in Hn. subst n.
    destruct rc; [|done].
    apply (rb_plug_ok p 1%nat); [done | | by intros ?].
    simpl in Hr |- *. tauto.
  - eexists. split; [done|].
    destruct c; [destruct Ht as (Hlb & _ & Hl & Hn); simpl in Hn; subst n;
                 by destruct lc|].
    destruct n as [|n]; [done|]. destruct Ht as [Hl Hn]. simpl in Hn. subst n.
    destruct lc; [|done].
    apply (rb_plug_ok p 1%nat); [done | | by intros ?].
    simpl in Hl |- *. tauto.
  - set (l := RbNode lc ll lg lr) in *. set (r := RbNode rc rl rg rr) in *.
    destruct (rb_leftmost_some r [] ltac:(done)) as [[[[q sc] sg] ch] El].
    rewrite El.
    assert (Hr : exists m,
      rb_path_valid (RbRightOf c l sg :: p) m /\ rb_valid m r
      /\ rb_fits (RbRightOf c l sg :: p) r).
    { destruct c.
      - destruct Ht as (Hlb & Hrb & Hvl & Hvr). exists n.
        split; [|split; [done|]].
        + simpl. split; [done|]. split; [done|]. split; [by apply Hf | done].
        + intros Hred. by rewrite Hrb in Hred.
      - destruct n as [|n]; [done|]. destruct Ht as [Hvl Hvr]. exists n.
        split; [|split; [done|]]; by simpl. }
    destruct Hr as (m & Hp' & Hvr & Hfr).
    destruct (rb_leftmost_valid r (RbRightOf c l sg :: p) m)
      as (q' & sc' & sg' & ch' & m' & Hq & H1 & H2 & H3);
      [done | done | done | done |].
    rewrite Hq, app_nil_r in El. injection El as -> -> -> ->.
    cbn [mbind option_bind]. clearbody l r.
    destruct ch as [|cc cl cg cr].
    + destruct sc.
      * eexists. split; [done|]. destruct H2 as (_ & _ & Hm & _).
        apply (rb_plug_ok _ m'); [done | done | by intros ?].
      * destruct m' as [|m']; [done|]. destruct H2 as [Hm _]. simpl in Hm.
        subst m'. by apply (rb_erase_color_ok _ RbNull 0%nat).
    + eexists. split; [done|].
      destruct sc; [destruct H2 as (_ & Hcb & Hm & Hc); simpl in Hm; subst m';
                    by destruct cc|].
      destruct m' as [|m']; [done|]. destruct H2 as [Hm Hc]. simpl in Hm.
      subst m'. destruct cc; [|done].
      apply (rb_plug_ok _ 1%nat); [done | | by intros ?].
      simpl in Hc |- *. tauto.
Qed.

(** The descent keeps to the red-black tree: where it ends, the way back
    up is the rest of a red-black tree. *)
Lemma rb_descend_valid t :
  forall d p0 n,
    rb_path_valid p0 n -> rb_valid n t -> rb_fits p0 t ->
    match rb_descend t d p0 with
    | RbLink p => rb_path_valid p 0
    | RbFound p c l g r =>
        exists m, rb_path_valid p m /\ rb_valid m (RbNode c l g r)
                  /\ rb_fits p (RbNode c l g r)
    end.
Proof.
  induction t as [|c l IHl g r IHr]; intros d p0 n Hp Ht Hf.
  { simpl in *. by subst n. }
  cbn [rb_descend]. cbv zeta.
  destruct (_ <? 0).
  - destruct c.
    + destruct Ht as (Hlb & Hrb & Hvl & Hvr).
      apply (IHl d _ n); [|done|].
      * simpl. split; [done|]. split; [done|]. split; [by apply Hf | done].
      * intros Hred. by rewrite Hlb in Hred.
    + destruct n as [|n]; [done|]. destruct Ht as [Hvl Hvr].
      apply (IHl d _ n); [by simpl | done | by intros ?].
  - destruct (0 <? _).
    + destruct c.
      * destruct Ht as (Hlb & Hrb & Hvl & Hvr).
        apply (IHr d _ n); [|done|].
        -- simpl. split; [done|]. split; [done|]. split; [by apply Hf | done].
        -- intros Hred. by rewrite Hrb in Hred.
      * destruct n as [|n]; [done|]. destruct Ht as [Hvl Hvr].
        apply (IHr d _ n); [by simpl | done | by intros ?].
    + by exists n.
Qed.

Lemma rb_locate_valid id t :
  forall p0 n p c l g r,
    rb_path_valid p0 n -> rb_valid n t -> rb_fits p0 t ->
    rb_locate id t p0 = Some (p, c, l, g, r) ->
    exists m, rb_path_valid p m /\ rb_valid m (RbNode c l g r)
              /\ rb_fits p (RbNode c l g r).
Proof.
  induction t as [|tc tl IHl tg tr IHr]; intros p0 n p c l g r Hp Ht Hf;
    [done|].
  cbn [rb_locate]. destruct (existsb _ (rqs tg)).
  { intros [= <- <- <- <- <-]. by exists n. }
  destruct (rb_locate id tl _) as [x|] eqn:El.
  - intros [= ->]. destruct tc.
    + destruct Ht as (Hlb & Hrb & Hvl & Hvr).
      apply (IHl _ n _ _ _ _ _) in El; [done | | done |].
      * simpl. split; [done|]. split; [done|]. split; [by apply Hf | done].
      * intros Hred. by rewrite Hlb in Hred.
    + destruct n as [|n]; [done|]. destruct Ht as [Hvl Hvr].
      apply (IHl _ n _ _ _ _ _) in El; [done | by simpl | done | by intros ?].
  - intros H. destruct tc.
    + destruct Ht as (Hlb & Hrb & Hvl & Hvr).
      apply (IHr _ n _ _ _ _ _) in H; [done | | done |].
      * simpl. split; [done|]. split; [done|]. split; [by apply Hf | done].
      * intros Hred. by rewrite Hrb in Hred.
    + destruct n as [|n]; [done|]. destruct Ht as [Hvl Hvr].
      apply (IHr _ n _ _ _ _ _) in H; [done | by simpl | done | by intros ?].
Qed.

(** [add_to_dl_tree] on a red-black tree does not fault in the library, and
    leaves a red-black tree. *)
Lemma rb_add_to_dl_tree_ok b ad t rq :
  rb_tree_ok t -> is_Some (elv_priv rq) ->
  exists t' rq',
    rb_add_to_dl_tree b ad t rq = Some (t', rq') /\ rb_tree_ok t'.
Proof.
  intros [Hb [n Hn]] [rd Hrd]. unfold rb_add_to_dl_tree, get_rq_data.
  rewrite Hrd. cbn [mbind option_bind]. cbv zeta.
  set (d := rq_deadline ad rq).
  pose proof (rb_descend_valid t d [] n I Hn) as Hdesc.
  destruct (rb_descend t d []) as [p c l g r | p].
  - destruct Hdesc as (m & Hp & Hv & Hf); [intros Hred; by rewrite Hb in Hred|].
    eexists _, _. split; [done|]. by apply (rb_plug_ok p m).
  - specialize (Hdesc ltac:(intros Hred; by rewrite Hb in Hred)).
    destruct b.
    + set (node := RbNode RB_RED RbNull _ RbNull).
      destruct (rb_insert_color_ok p node 0%nat) as (t' & Ht' & Hok);
        [done | by simpl | done |].
      rewrite Ht'. cbn [mbind option_bind]. by eexists _, _.
    + eexists _, _. split; [done|]. split; [done | by exists n].
Qed.

Lemma rb_locate_some id t :
  forall p,
    (exists x, In x (dl_flat (rb_inorder t)) /\ rq_id x = id) ->
    is_Some (rb_locate id t p).
Proof.
  induction t as [|c l IHl g r IHr]; intros p (x & Hin & Hid).
  { by simpl in Hin. }
  cbn [rb_locate].
  destruct (existsb _ (rqs g)) eqn:E; [by eexists|].
  cbn [rb_inorder] in Hin. rewrite dl_flat_app in Hin.
  apply in_app_or in Hin as [Hin | Hin].
  - destruct (IHl (RbLeftOf c g r :: p)) as [y Hy]; [by exists x|].
    rewrite Hy. by eexists.
  - destruct (rb_locate id l _) as [y|]; [by eexists|].
    change (dl_flat (g :: rb_inorder r))
      with (rqs g ++ dl_flat (rb_inorder r)) in Hin.
    apply in_app_or in Hin as [Hin | Hin].
    + assert (existsb (fun x => Nat.eqb (rq_id x) id) (rqs g) = true).
      { apply existsb_exists. exists x. split; [done|]. by apply Nat.eqb_eq. }
      congruence.
    + apply IHr. by exists x.
Qed.

(** [remove_request] of a request that the red-black tree holds does not
    fault in the library, and leaves a red-black tree. *)
Lemma rb_remove_request_ok t rq :
  rb_tree_ok t -> is_Some (elv_priv rq) ->
  In rq (dl_flat (rb_inorder t)) ->
  exists t' rq',
    rb_remove_request t rq = Some (t', rq') /\ rb_tree_ok t'.
Proof.
  intros [Hb [n Hn]] [rd Hrd] Hin. unfold rb_remove_request, get_rq_data.
  rewrite Hrd. cbn [mbind option_bind].
  destruct (rd_dl_group rd) as [d|] eqn:Ed.
  2:{ eexists _, _. split; [done|]. split; [done | by exists n]. }
  unfold rb_del_from_dl_tree, get_rq_data. rewrite Hrd.
  cbn [mbind option_bind]. rewrite Ed. cbn [mbind option_bind].
  destruct (rb_locate_some (rq_id rq) t []) as [[[[[p c] l] g] r] El];
    [by exists rq|].
  rewrite El. cbn [mbind option_bind].
  apply (rb_locate_valid _ _ [] n) in El as (m & Hp & Hv & Hf);
    [| done | done | intros Hred; by rewrite Hb in Hred].
  destruct (list_del (rq_id rq) (rqs g)) as [|x rest].
  - destruct (rb_erase_ok c l g r p m Hp Hv Hf) as (t' & Ht' & Hok).
    rewrite Ht'. cbn [mbind option_bind]. by eexists _, _.
  - eexists _, _. split; [done|]. by apply (rb_plug_ok p m).
Qed.

(** * Runs on the tree and on the sequence *)

Lemma list_del_in id l x : In x (list_del id l) -> In x l.
Proof.
  induction l as [|y l IH]; simpl; [done|].
  destruct (Nat.eqb (rq_id y) id); [by right|].
  intros [->|Hin]; [by left | right; auto].
Qed.

Lemma dl_unlink_flat_in t d id x :
  In x (dl_flat (dl_unlink t d id)) -> In x (dl_flat t).
Proof.
  induction t as [|g t IH]; simpl; [done|].
  change (dl_flat (g :: t)) with (rqs g ++ dl_flat t).
  destruct (deadline g =? d).
  - pose proof (list_del_in id (rqs g) x) as Hd.
    destruct (list_del id (rqs g)) as [|y l].
    + intros Hin. apply in_or_app. by right.
    + change (dl_flat (DlGroup (deadline g) (y :: l) :: t))
        with ((y :: l) ++ dl_flat t).
      intros Hin. apply in_app_or in Hin as [Hin|Hin]; apply in_or_app; auto.
  - change (dl_flat (g :: dl_unlink t d id))
      with (rqs g ++ dl_flat (dl_unlink t d id)).
    intros Hin. apply in_app_or in Hin as [Hin|Hin]; apply in_or_app; auto.
Qed.

Lemma dl_link_flat_in b t d rq t' x :
  dl_link b t d rq = Some t' ->
  In x (dl_flat t') -> x = rq \/ In x (dl_flat t).
Proof.
  revert t'. induction t as [|g t IH]; intros t'; simpl.
  - destruct b; [|done]. intros [= <-]. simpl. intuition (subst; auto).
  - change (dl_flat (g :: t)) with (rqs g ++ dl_flat t).
    destruct (_ <? 0).
    { destruct b; [|done]. intros [= <-].
      change (dl_flat (DlGroup d [rq] :: g :: t))
        with (rq :: rqs g ++ dl_flat t).
      simpl. intuition (subst; auto). }
    destruct (0 <? _).
    + destruct (dl_link b t d rq) as [t''|]; [|done]. simpl. intros [= <-].
      change (dl_flat (g :: t'')) with (rqs g ++ dl_flat t'').
      rewrite !in_app_iff. specialize (IH t'' eq_refl). intuition (subst; auto).
    + intros [= <-].
      change (dl_flat (DlGroup (deadline g) (rqs g ++ [rq]) :: t))
        with ((rqs g ++ [rq]) ++ dl_flat t).
      rewrite !in_app_iff. simpl. intuition (subst; auto).
Qed.

Lemma add_to_dl_tree_flat_in b ad rq ad' rq' :
  add_to_dl_tree b ad rq = Some (ad', rq') ->
  exists linked,
    rq_id linked = rq_id rq
    /\ forall x, In x (dl_flat (dl_tree ad')) ->
         x = linked \/ In x (dl_flat (dl_tree ad)).
Proof.
  unfold add_to_dl_tree. destruct (get_rq_data rq) as [rd|]; [|done].
  cbn [mbind option_bind]. cbv zeta.
  set (linked := set_elv_priv (Some (RqData _ _ _ (Some _))) rq).
  destruct (dl_link _ _ _ linked) as [t'|] eqn:E; intros [= <- <-].
  - exists linked. split; [done|]. intros x. simpl.
    by apply (dl_link_flat_in _ _ _ _ _ _ E).
  - exists linked. split; [done|]. intros x. by right.
Qed.

Lemma add_to_dl_tree_frame b ad rq ad' rq' :
  add_to_dl_tree b ad rq = Some (ad', rq') ->
  ad' = set_dl_tree (dl_tree ad') ad.
Proof.
  unfold add_to_dl_tree. destruct (get_rq_data rq) as [rd|]; [|done].
  cbn [mbind option_bind]. cbv zeta.
  destruct (dl_link _ _ _ _) as [t'|]; intros [= <- <-]; [done|].
  by destruct ad.
Qed.

Lemma rb_run_refines_from ad ops :
  forall t,
    rb_tree_ok t -> dl_tree_wf (rb_inorder t) ->
    (forall x y, In x (dl_flat (rb_inorder t)) ->
       In y (dl_flat (rb_inorder t)) -> rq_id x = rq_id y -> x = y) ->
    (forall x rq, In x (dl_flat (rb_inorder t)) -> In rq (dl_added ops) ->
       rq_id x <> rq_id rq) ->
    Forall (fun rq => is_Some (elv_priv rq) /\ rq_deadline ad rq < 2 ^ 63)
      (dl_added ops) ->
    NoDup (map rq_id (dl_added ops)) ->
    exists t',
      rb_run ad t ops = Some t'
      /\ dl_run (set_dl_tree (rb_inorder t) ad) ops
         = Some (set_dl_tree (rb_inorder t') ad)
      /\ rb_tree_ok t'.
Proof.
  induction ops as [|[rq b | id] ops IH]; intros t Hok Hwf Huniq Hfresh Hadd Hnd.
  - exists t. split; [done|]. by split.
  - change (dl_added (DlAdd rq b :: ops)) with (rq :: dl_added ops) in *.
    inversion Hadd as [|? ? [Hprep Hd] Hadd']; subst.
    simpl in Hnd. apply NoDup_cons in Hnd as [Hnew Hnd].
    destruct (rb_add_to_dl_tree_ok b ad t rq Hok Hprep) as (t1 & rq1 & E1 & Hok1).
    destruct (rb_add_to_dl_tree_inorder b ad t rq t1 rq1 Hwf Hd E1)
      as (ad1 & Ea & Ht1).
    pose proof (add_to_dl_tree_frame _ _ _ _ _ Ea) as Hfr. rewrite Ht1 in Hfr.
    change (set_dl_tree (rb_inorder t1) (set_dl_tree (rb_inorder t) ad))
      with (set_dl_tree (rb_inorder t1) ad) in Hfr.
    destruct (add_to_dl_tree_wf b (set_dl_tree (rb_inorder t) ad) rq ad1 rq1
                Hwf Hd Ea) as [Hwf1 _].
    rewrite Ht1 in Hwf1.
    destruct (add_to_dl_tree_flat_in _ _ _ _ _ Ea) as (linked & Hlid & Hflat).
    rewrite Ht1 in Hflat.
    change (dl_tree (set_dl_tree (rb_inorder t) ad)) with (rb_inorder t) in Hflat.
    destruct (IH t1) as (t' & Hrun & Hdl & Hok'); [done | done | | | done | done |].
    + intros x y Hx Hy Hxy.
      destruct (Hflat x Hx) as [->|Hx']; destruct (Hflat y Hy) as [->|Hy'].
      * done.
      * exfalso. apply (Hfresh y rq Hy'); [by left | congruence].
      * exfalso. apply (Hfresh x rq Hx'); [by left | congruence].
      * by apply Huniq.
    + intros x rq2 Hx Hrq2. destruct (Hflat x Hx) as [->|Hx'].
      * rewrite Hlid. intros Heq. apply Hnew. rewrite Heq.
        apply list_elem_of_In. by apply in_map.
      * apply Hfresh; [done | by right].
    + exists t'. split; [|split; [|done]].
      * cbn [rb_run rb_step]. rewrite E1. by cbn [mbind option_bind].
      * cbn [dl_run dl_step]. rewrite Ea. cbn [mbind option_bind].
        by rewrite Hfr.
  - change (dl_added (DlDel id :: ops)) with (dl_added ops) in *.
    cbn [rb_run rb_step dl_run dl_step].
    change (dl_lookup (set_dl_tree (rb_inorder t) ad) id) with (rb_lookup t id).
    destruct (rb_lookup t id) as [rq|] eqn:El.
    2:{ cbn [mbind option_bind]. by apply IH. }
    assert (Hin : In rq (dl_flat (rb_inorder t)) /\ rq_id rq = id).
    { unfold rb_lookup in El. apply find_some in El as [Hin Hid].
      split; [done | by apply Nat.eqb_eq]. }
    destruct Hin as [Hin Hid].
    assert (Hg0 : exists g0, In g0 (rb_inorder t) /\ In rq (rqs g0)).
    { unfold dl_flat in Hin. apply in_concat in Hin as (l & Hl & Hin).
      apply in_map_iff in Hl as (g0 & <- & Hg0). by exists g0. }
    destruct Hg0 as (g0 & Hg0 & Hrq0).
    pose proof (dl_tree_wf_linked _ _ _ Hwf Hg0 Hrq0) as Hlinked.
    assert (Hprep : is_Some (elv_priv rq)).
    { destruct Hlinked as (rd & Hrd & _). by exists rd. }
    destruct (rb_remove_request_ok t rq Hok Hprep Hin) as (t1 & rq1 & E1 & Hok1).
    destruct (rb_remove_request_inorder ad t rq t1 rq1 Hwf) as (ad1 & Er & Ht1);
      [|done|].
    { intros g Hg Hex. apply existsb_exists in Hex as (x & Hx & Hxid).
      apply Nat.eqb_eq in Hxid.
      assert (x = rq) as ->.
      { apply Huniq; [|done|done]. unfold dl_flat. apply in_concat.
        exists (rqs g). split; [by apply in_map | done]. }
      by apply (dl_tree_wf_linked _ _ _ Hwf Hg). }
    destruct (remove_request_linked (set_dl_tree (rb_inorder t) ad) rq _ Hlinked)
      as (rq2 & Er2 & _).
    rewrite Er in Er2. injection Er2 as Had1 _.
    change (dl_tree (set_dl_tree (rb_inorder t) ad)) with (rb_inorder t) in Had1.
    assert (Hun : rb_inorder t1 = dl_unlink (rb_inorder t) (deadline g0) (rq_id rq))
      by (by rewrite <- Ht1, Had1).
    assert (Hfr : ad1 = set_dl_tree (rb_inorder t1) ad)
      by (by rewrite Had1, Hun).
    assert (Hsub : forall x, In x (dl_flat (rb_inorder t1)) ->
                     In x (dl_flat (rb_inorder t))).
    { intros x. rewrite Hun. apply dl_unlink_flat_in. }
    destruct (IH t1) as (t' & Hrun & Hdl & Hok'); [done | | | | done | done |].
    + rewrite Hun. by apply dl_unlink_wf.
    + intros x y Hx Hy. apply Huniq; by apply Hsub.
    + intros x rq2' Hx. apply Hfresh. by apply Hsub.
    + exists t'. split; [|split; [|done]].
      * rewrite E1. by cbn [mbind option_bind].
      * rewrite Er. cbn [mbind option_bind]. by rewrite Hfr.
Qed.

(** X26. Below 2^63 the shape of the tree does not matter.  Starting from
    the empty tree, whatever [add_to_dl_tree] and [remove_request] calls
    are made, on prepared requests whose deadlines are below 2^63, each
    address being added once at most: the tree with its shape never faults
    in [rb_insert_color] or [rb_erase], it stays a red-black tree, and its
    groups, read in order, are the sequence that [dl_link] and [dl_unlink]
    maintain. *)
Theorem rb_run_refines (ad : adios_data) (ops : list dl_op) :
  dl_tree ad = [] ->
  Forall (fun rq => is_Some (elv_priv rq) /\ rq_deadline ad rq < 2 ^ 63)
    (dl_added ops) ->
  NoDup (map rq_id (dl_added ops)) ->
  exists t ad',
    rb_run ad RbNull ops = Some t
    /\ dl_run ad ops = Some ad'
    /\ dl_tree ad' = rb_inorder t
    /\ rb_tree_ok t.
Proof.
  intros Hempty Hadd Hnd.
  destruct (rb_run_refines_from ad ops RbNull) as (t & Hrun & Hdl & Hok);
    [| | done | done | done | done |].
  - split; [done | by exists 0%nat].
  - split; [constructor | done].
  - assert (Had : set_dl_tree (rb_inorder RbNull) ad = ad).
    { destruct ad. simpl in *. by subst. }
    rewrite Had in Hdl. by exists t, (set_dl_tree (rb_inorder t) ad).
Qed.

Lemma rb_run_refines_witness :
  let ops := [DlAdd rq_a true; DlAdd rq_b true; DlAdd rq_c true; DlDel 1%nat] in
  exists t ad',
    rb_run (init_adios_data 0) RbNull ops = Some t
    /\ dl_run (init_adios_data 0) ops = Some ad'
    /\ dl_tree ad' = rb_inorder t
    /\ rb_tree_ok t.
Proof.
  apply (rb_run_refines (init_adios_data 0)).
  - reflexivity.
  - repeat constructor; try (by eexists); vm_compute; reflexivity.
  - apply (bool_decide_unpack _). vm_compute. exact I.
Defined.
